(** * mrpack-installer: the synchronisation engine of [mrpack-installer.py]

    A shallow embedding of [ModpackInstaller] (content filter, verified
    fetcher, download batch, clean step, override merge, install) and the
    properties of its specification.

    Modelling conventions.
    - Python [str] and [bytes] values are [string]s; names are ASCII, so
      [str.lower] maps [A-Z] to [a-z] and leaves the rest.
    - Paths follow [PurePosixPath] (the script runs with [IS_UNIX]).
    - A directory is a finite map from entry names to nodes; a node is a
      regular file with its content or a directory.  Symbolic links and
      special files are not modelled.
    - The file tree is the instance directory and the temporary directory
      of one run.  The archive is written to [tmpdir / filename] with the
      file name the registry gives; a name that is not a single plain
      component takes that path out of the modelled tree, and what the
      write and the extraction then do is left to the [Platform].
    - Text files are written as on POSIX (the line separator is ["\n"], so
      [write_text] stores the text as it is) and read with universal
      newlines.
    - Library calls whose body is not part of the repository ([hashlib],
      [zipfile], [json], [urllib], directory listing order, completion
      order of the pool) are the fields of the class [Platform]. *)

From stdpp Require Import base option list strings gmap fin_maps.
From Stdlib Require Import ZArith Ascii Lia.

Local Open Scope string_scope.
Local Open Scope list_scope.
Local Open Scope Z_scope.

(** ** Strings as the script uses them *)

Module Str.

(** [c.lower()] on one ASCII character. *)
Definition lower_ascii (c : ascii) : ascii :=
  let n := nat_of_ascii c in
  if ((65 <=? n)%nat && (n <=? 90)%nat)%bool then ascii_of_nat (n + 32) else c.

(** [s.lower()] *)
Fixpoint lower (s : string) : string :=
  match s with
  | EmptyString => EmptyString
  | String c s' => String (lower_ascii c) (lower s')
  end.

(** [s.startswith(p)] *)
Definition startswith (s p : string) : bool := String.prefix p s.

(** [p in s] for two [str]: [p] occurs in [s] as a contiguous block. *)
Fixpoint contains (s p : string) : bool :=
  if String.prefix p s then true
  else match s with
       | EmptyString => false
       | String _ s' => contains s' p
       end.

(** [s.endswith(p)] *)
Fixpoint endswith (s p : string) : bool :=
  if String.eqb s p then true
  else match s with
       | EmptyString => false
       | String _ s' => endswith s' p
       end.

(** [s.rfind('.')], [None] standing for [-1]. *)
Fixpoint rfind_dot (s : string) : option nat :=
  match s with
  | EmptyString => None
  | String c s' =>
      match rfind_dot s' with
      | Some i => Some (S i)
      | None => if Ascii.eqb c "." then Some 0%nat else None
      end
  end.

(** [s[i:]] *)
Fixpoint drop (i : nat) (s : string) : string :=
  match i, s with
  | O, _ => s
  | S i', String _ s' => drop i' s'
  | S _, EmptyString => EmptyString
  end.

(** [s.split('/')] *)
Fixpoint split_slash (s : string) : list string :=
  match s with
  | EmptyString => [EmptyString]
  | String c s' =>
      if Ascii.eqb c "/" then EmptyString :: split_slash s'
      else match split_slash s' with
           | [] => [String c EmptyString]
           | w :: ws => String c w :: ws
           end
  end.

(** ASCII members of [str.isspace]: TAB..CR, FS..US and the space. *)
Definition is_space (c : ascii) : bool :=
  let n := nat_of_ascii c in
  (((9 <=? n)%nat && (n <=? 13)%nat) || ((28 <=? n)%nat && (n <=? 32)%nat))%bool.

(** [s.lstrip()] *)
Fixpoint lstrip (s : string) : string :=
  match s with
  | EmptyString => EmptyString
  | String c s' => if is_space c then lstrip s' else s
  end.

(** [s.rstrip()] *)
Fixpoint rstrip (s : string) : string :=
  match s with
  | EmptyString => EmptyString
  | String c s' =>
      match rstrip s' with
      | EmptyString => if is_space c then EmptyString else String c EmptyString
      | r => String c r
      end
  end.

(** [s.strip()] *)
Definition strip (s : string) : string := rstrip (lstrip s).

(** What reading in text mode makes of the content of a file (universal
    newlines): ["\r\n"] and a lone ["\r"] become ["\n"]. *)
Fixpoint universal_newlines (s : string) : string :=
  match s with
  | EmptyString => EmptyString
  | String c s' =>
      if Ascii.eqb c "013" then
        String "010"
          match s' with
          | String c' s'' =>
              if Ascii.eqb c' "010" then universal_newlines s''
              else universal_newlines s'
          | EmptyString => EmptyString
          end
      else String c (universal_newlines s')
  end.

(** ["\r" in s] *)
Fixpoint has_cr (s : string) : bool :=
  match s with
  | EmptyString => false
  | String c s' => Ascii.eqb c "013" || has_cr s'
  end.

End Str.

(** ** Pure paths ([pathlib.PurePosixPath]) *)

Module PurePath.

(** The components of a relative path: empty components and single dots
    are collapsed, double dots are kept. *)
Definition parts (p : string) : list string :=
  filter (fun c => c ≠ "" ∧ c ≠ ".") (Str.split_slash p).

(** [Path(p).name]: the final component, [""] when there is none. *)
Definition name (p : string) : string := List.last (parts p) "".

(** [Path(..).suffix] of a file name: the part from the last dot on, when
    that dot is neither the first nor the last character. *)
Definition suffix (nm : string) : string :=
  match Str.rfind_dot nm with
  | Some i =>
      if ((0 <? i)%nat && (i <? String.length nm - 1)%nat)%bool
      then Str.drop i nm else ""
  | None => ""
  end.

End PurePath.

(** ** Configuration and manifest data *)

(** [Config]: the two pattern lists are all the engine reads of it besides
    the instance directory, which is the root of the modelled file tree. *)
Record Config := {
  modpack_id : string;
  preserved_mods : list string;
  client_only_mods : list string;
}.

(** A JSON object with string values ([env], [hashes]). *)
Abbreviation dict := (gmap string string).

(** One artifact of a registry version: [{filename, url}]. *)
Record VersionFile := {
  vf_filename : string;
  vf_url : string;
}.

(** One version of the registry reply: [{id, version_number, files}]. *)
Record Version := {
  v_id : string;
  v_version_number : string;
  v_files : list VersionFile;
}.

(** A field the script reads with [d.get(key, {})]: the key is absent,
    holds [null], or holds an object. *)
Inductive json_field (A : Type) :=
  | Absent
  | Null
  | Value (a : A).
Arguments Absent {A}.
Arguments Null {A}.
Arguments Value {A} a.

(** [d.get(key, {})]: the default stands in for an absent key only. *)
Definition get_or_empty (f : json_field dict) : option dict :=
  match f with
  | Absent => Some ∅
  | Null => None
  | Value d => Some d
  end.

(** One entry of [modrinth.index.json].  [fe_fileSize], read with
    [.get("fileSize")], is [None] for an absent key and for [null]. *)
Record FileEntry := {
  fe_path : string;
  fe_env : json_field dict;
  fe_downloads : list string;
  fe_fileSize : option Z;
  fe_hashes : json_field dict;
}.

(** A queued download: [(download_url, filename, file_size, file_hashes)]. *)
Record Task := {
  t_url : string;
  t_filename : string;
  t_size : option Z;
  t_hashes : option dict;
}.

(** ** File tree *)

#[warnings="-register-all"]
Inductive node :=
  | File (data : string)
  | Dir (entries : gmap string node).

Definition is_file (n : node) : bool :=
  match n with File _ => true | Dir _ => false end.

Definition is_dir (n : node) : bool :=
  match n with File _ => false | Dir _ => true end.

(** Where [_download_file] is asked to write: [self.mods_dir / filename]
    or [tmpdir / filename]. *)
Inductive dest :=
  | InMods (filename : string)
  | InTmp (filename : string).

(** A file name [f] for which [tmpdir / f] is a file directly inside the
    fresh temporary directory, beside its directory [extracted]: a single
    component that is no dot name and holds no NUL. *)
Definition plain_name (f : string) : bool :=
  negb (Str.contains f "/") && negb (Str.contains f (String "000" ""))
  && negb (bool_decide (f ∈ [""; "."; ".."; "extracted"])).

(** The destinations whose path stays inside the modelled file tree. *)
Definition modelled_dest (d : dest) : Prop :=
  match d with
  | InMods _ => True
  | InTmp f => plain_name f = true
  end.

(** ** Effects *)

Inductive exn :=
  | ValueError
  | IndexError
  | NotADirectoryError
  | IsADirectoryError
  | FileExistsError
  | FileNotFoundError
  | BadZipFile
  | JSONDecodeError.

(** What the script prints, as far as the properties read it. *)
Inductive message :=
  | MsgApiFailed
  | MsgNoVersions
  | MsgAlreadyInstalled (version_num : string)
  | MsgUseForceUpdate
  | MsgInstalling (version_num : string)
  | MsgNoMrpack
  | MsgMissingIndex
  | MsgSizeMismatch (d : dest)
  | MsgSha512Mismatch (d : dest)
  | MsgSha1Mismatch (d : dest)
  | MsgDownloadFailed (d : dest)
  | MsgPreserving (name : string)
  | MsgRemoved (name : string)
  | MsgPreservingUserDir
  | MsgSkipClient (filename : string)
  | MsgDownloaded (filename : string)
  | MsgSkipOverrideClient (name : string)
  | MsgOverride (name : string)
  | MsgSummary (version_num : string)
      (downloaded override_mods skipped_client skipped_other failed : nat).

(** The observable actions of a run, in program order. *)
Inductive event :=
  | ApiRequest
  | Fetch (url : string)
  | WriteBytes (d : dest)
  | Unlink (name : string)
  | CopyMod (name : string)
  | RmTree (name : string)
  | CopyTree (name : string)
  | CopyFile (name : string)
  | SaveVersion (version_id : string)
  | Echo (m : message).

(** The mutable world of one run: the entries of [instance_dir], the files
    of the temporary directory, and the actions so far. *)
Record World := {
  inst : gmap string node;
  tmp : gmap string string;
  log : list event;
}.

Inductive outcome (A : Type) :=
  | Ret (a : A)
  | SysExit (code : Z)
  | Raised (e : exn).
Arguments Ret {A} a.
Arguments SysExit {A} code.
Arguments Raised {A} e.

Definition M (A : Type) : Type := World → outcome A * World.

Definition ret {A} (a : A) : M A := fun w => (Ret a, w).

Definition bind {A B} (m : M A) (k : A → M B) : M B :=
  fun w =>
    match m w with
    | (Ret a, w') => k a w'
    | (SysExit c, w') => (SysExit c, w')
    | (Raised e, w') => (Raised e, w')
    end.

Definition sys_exit {A} (code : Z) : M A := fun w => (SysExit code, w).
Definition raise {A} (e : exn) : M A := fun w => (Raised e, w).

Definition emit (e : event) : M unit :=
  fun w => (Ret tt, {| inst := inst w; tmp := tmp w; log := log w ++ [e] |}).

Definition print (m : message) : M unit := emit (Echo m).

Definition get_inst : M (gmap string node) := fun w => (Ret (inst w), w).

Definition set_inst (i : gmap string node) : M unit :=
  fun w => (Ret tt, {| inst := i; tmp := tmp w; log := log w |}).

Definition get_tmp : M (gmap string string) := fun w => (Ret (tmp w), w).

Definition set_tmp (t : gmap string string) : M unit :=
  fun w => (Ret tt, {| inst := inst w; tmp := t; log := log w |}).

Notation "'do' x <- m ; k" := (bind m (fun x => k))
  (at level 10, x name, m at level 99, k at level 200).
Notation "'do' ' pat <- m ; k" := (bind m (fun x => match x with pat => k end))
  (at level 10, pat pattern, m at level 99, k at level 200).
Notation "m ;; k" := (bind m (fun _ => k))
  (at level 100, k at level 200, right associativity).

(** [for x in l: body(x)] *)
Fixpoint for_each {A} (l : list A) (body : A → M unit) : M unit :=
  match l with
  | [] => ret tt
  | x :: l' => body x ;; for_each l' body
  end.

(** ** What the engine takes from outside *)

(** The library calls of the script.  Their bodies are not part of the
    repository, so the engine is stated over any implementation of them. *)
Class Platform := {
  (** [hashlib.sha512(data).hexdigest()] *)
  sha512_hexdigest : string → string;
  (** [hashlib.sha1(data).hexdigest()] *)
  sha1_hexdigest : string → string;
  (** Whether [urllib.request.Request(url, ...)] constructs: it raises
      [ValueError] (unknown url type) for a URL without a scheme. *)
  request_accepts : string → bool;
  (** [zipfile.ZipFile(path).extractall(dir)]: the extracted tree, [None]
      when the payload is not a zip archive. *)
  extractall : string → option (gmap string node);
  (** [json.load] of the index document followed by
      [index.get("files", [])]; [None] when the document does not parse. *)
  json_load : string → option (list FileEntry);
  (** [Path.iterdir]: the entries of a directory, in an arbitrary order. *)
  iterdir : gmap string node → list (string * node);
  iterdir_perm : ∀ d, iterdir d ≡ₚ map_to_list d;
  (** [as_completed(futures)]: the tasks in the order they complete. *)
  as_completed : list Task → list Task;
  as_completed_perm : ∀ q, as_completed q ≡ₚ q;
  (** [dest.parent.mkdir(parents=True, exist_ok=True); dest.write_bytes(data)]
      for [dest = tmpdir / filename] when the file name is not a plain one:
      an absolute name or one with separators resolves outside the
      temporary directory, or below it, where the file tree is not
      modelled.  Whether both calls succeed, and the world they leave. *)
  write_outside : string → string → World → bool * World;
  (** [ZipFile(tmpdir / filename).extractall(tmpdir / "extracted")] for such
      a file name: the tree then found in [extracted], or what was raised. *)
  extract_outside : string → World → exn + gmap string node;
}.

(** The remote side of one run. *)
Record Remote := {
  (** The registry's reply to [project/{id}/version]; [None] when the
      request fails with [URLError] or [HTTPError]. *)
  api_versions : option (list Version);
  (** [urlopen(req).read()] of a download URL; [None] when it raises. *)
  urlopen_read : string → option string;
}.

(** ** The engine *)

Section Engine.

Context `{Platform}.

(** [self.config] *)
Variable cfg : Config.

Variable remote : Remote.

(** *** ContentFilter *)

(** [for pattern in patterns: if pattern.lower() in filename_lower: return True]
    followed by [return False] *)
Fixpoint any_pattern (filename_lower : string) (patterns : list string) : bool :=
  match patterns with
  | [] => false
  | pattern :: rest =>
      if Str.contains filename_lower (Str.lower pattern) then true
      else any_pattern filename_lower rest
  end.

(** Truth value of a [dict]: non-empty. *)
Definition truthy (d : dict) : bool := negb (bool_decide (d = ∅)).

(** [_is_client_only(filename, env)] *)
Definition is_client_only (filename : string) (env : option dict) : bool :=
  if match env with
     | Some e => truthy e && bool_decide (e !! "server" = Some "unsupported")
     | None => false
     end
  then true
  else any_pattern (Str.lower filename) (client_only_mods cfg).

(** [_is_preserved(filename)] *)
Definition is_preserved (filename : string) : bool :=
  any_pattern (Str.lower filename) (preserved_mods cfg).

(** *** VerifiedFetcher *)

(** [expected_size and len(data) != expected_size] *)
Definition size_mismatch (expected_size : option Z) (data : string) : bool :=
  match expected_size with
  | Some n => negb (n =? 0) && negb (Z.of_nat (String.length data) =? n)
  | None => false
  end.

(** The hash block of [_download_file]: the message of the failing check,
    [None] when the payload passes. *)
Definition hash_mismatch (d : dest) (expected_hashes : option dict)
    (data : string) : option message :=
  match expected_hashes with
  | Some h =>
      if truthy h then
        match h !! "sha512" with
        | Some expected =>
            if bool_decide (sha512_hexdigest data = expected) then None
            else Some (MsgSha512Mismatch d)
        | None =>
            match h !! "sha1" with
            | Some expected =>
                if bool_decide (sha1_hexdigest data = expected) then None
                else Some (MsgSha1Mismatch d)
            | None => None
            end
        end
      else None
  | None => None
  end.

(** [self.mods_dir.mkdir(parents=True, exist_ok=True)] on the entries of the
    instance directory; [None] when [mods] is a regular file. *)
Definition mkdir_mods (i : gmap string node) : option (gmap string node) :=
  match i !! "mods" with
  | None => Some (<["mods" := Dir ∅]> i)
  | Some (Dir _) => Some i
  | Some (File _) => None
  end.

(** [dest.parent.mkdir(parents=True, exist_ok=True); dest.write_bytes(data)]:
    whether both succeed, and the world they leave.  A plain file name
    gives a new file of the temporary directory; for any other name the
    path [tmpdir / filename] is the platform's to resolve. *)
Definition write_dest (d : dest) (data : string) (w : World) : bool * World :=
  match d with
  | InTmp f =>
      if plain_name f then
        (true, {| inst := inst w; tmp := <[f := data]> (tmp w);
                  log := log w ++ [WriteBytes d] |})
      else write_outside f data w
  | InMods f =>
      if bool_decide (f = "" ∨ f = ".") then
        (* [dest] is the mods directory itself *)
        match inst w !! "mods" with
        | Some (Dir _) => (false, w)
        | _ => (true, {| inst := <["mods" := File data]> (inst w); tmp := tmp w;
                         log := log w ++ [WriteBytes d] |})
        end
      else
        match mkdir_mods (inst w) with
        | None => (false, w)
        | Some i =>
            let m := match i !! "mods" with Some (Dir m) => m | _ => ∅ end in
            let unwritable :=
              bool_decide (f = "..") ||
              match m !! f with Some (Dir _) => true | _ => false end in
            if unwritable
            then (false, {| inst := i; tmp := tmp w; log := log w |})
            else (true, {| inst := <["mods" := Dir (<[f := File data]> m)]> i;
                           tmp := tmp w; log := log w ++ [WriteBytes d] |})
        end
  end.

(** [_download_file(url, dest, expected_size, expected_hashes)] *)
Definition download_file (url : string) (d : dest)
    (expected_size : option Z) (expected_hashes : option dict) : M bool :=
  if request_accepts url then
    (* try: *)
    emit (Fetch url) ;;
    match urlopen_read remote url with
    | None => print (MsgDownloadFailed d) ;; ret false
    | Some data =>
        if size_mismatch expected_size data then
          print (MsgSizeMismatch d) ;; ret false
        else
          match hash_mismatch d expected_hashes data with
          | Some m => print m ;; ret false
          | None =>
              fun w =>
                match write_dest d data w with
                | (true, w') => (Ret true, w')
                | (false, w') => (print (MsgDownloadFailed d) ;; ret false) w'
                end
          end
    end
  else raise ValueError.

(** *** Version resolution and installed state *)

(** [_api_request] for the version list *)
Definition api_request : M (list Version) :=
  emit ApiRequest ;;
  match api_versions remote with
  | Some versions => ret versions
  | None => print MsgApiFailed ;; sys_exit 1
  end.

(** [get_latest_version()] *)
Definition get_latest_version : M Version :=
  do versions <- api_request;
  match versions with
  | [] => print MsgNoVersions ;; sys_exit 1
  | latest :: _ => ret latest
  end.

(** Name of [self.version_file] inside the instance directory. *)
Definition version_file : string := ".modpack_version".

(** [get_installed_version()]: [self.version_file.read_text().strip()] *)
Definition get_installed_version : M (option string) :=
  do i <- get_inst;
  match i !! version_file with
  | Some (File text) => ret (Some (Str.strip (Str.universal_newlines text)))
  | Some (Dir _) => raise IsADirectoryError
  | None => ret None
  end.

(** [_save_version(version_id)]: [write_text] stores the id as it is; the
    ownership fix-up that follows does not change any content. *)
Definition save_version (version_id : string) : M unit :=
  do i <- get_inst;
  match i !! version_file with
  | Some (Dir _) => raise IsADirectoryError
  | _ =>
      emit (SaveVersion version_id) ;;
      set_inst (<[version_file := File version_id]> i)
  end.

(** *** Clean step *)

(** [file.unlink()] for an entry of the mods directory *)
Definition unlink_mod (name : string) : M unit :=
  do i <- get_inst;
  match i !! "mods" with
  | Some (Dir m) =>
      emit (Unlink name) ;; set_inst (<["mods" := Dir (delete name m)]> i)
  | _ => raise FileNotFoundError
  end.

(** Body of the loop of [clean_mods] for one entry. *)
Definition clean_entry (keep_preserved : bool) (entry : string * node) : M unit :=
  let '(name, file) := entry in
  if is_file file && bool_decide (PurePath.suffix name = ".jar") then
    if keep_preserved && is_preserved name then print (MsgPreserving name)
    else unlink_mod name ;; print (MsgRemoved name)
  else ret tt.

(** [clean_mods(keep_preserved)] *)
Definition clean_mods (keep_preserved : bool) : M unit :=
  do i <- get_inst;
  match i !! "mods" with
  | None => ret tt
  | Some (File _) => raise NotADirectoryError
  | Some (Dir m) =>
      for_each (iterdir m) (clean_entry keep_preserved) ;;
      do i' <- get_inst;
      match i' !! "mods" with
      | Some (Dir m') =>
          if bool_decide (is_Some (m' !! "user")) then print MsgPreservingUserDir
          else ret tt
      | _ => ret tt
      end
  end.

(** *** Manifest classification *)

(** The loop over [index.get("files", [])] with its accumulators. *)
Fixpoint process_index (entries : list FileEntry) (mods_to_download : list Task)
    (skipped_client skipped_other : nat) : M (list Task * nat * nat) :=
  match entries with
  | [] => ret (mods_to_download, skipped_client, skipped_other)
  | file_entry :: rest =>
      let file_path := fe_path file_entry in
      let env := get_or_empty (fe_env file_entry) in
      if negb (Str.startswith file_path "mods/") then
        process_index rest mods_to_download skipped_client (S skipped_other)
      else
        let filename := PurePath.name file_path in
        if is_client_only filename env then
          print (MsgSkipClient filename) ;;
          process_index rest mods_to_download (S skipped_client) skipped_other
        else
          match fe_downloads file_entry with
          | [] => raise IndexError
          | download_url :: _ =>
              let task := {| t_url := download_url; t_filename := filename;
                             t_size := fe_fileSize file_entry;
                             t_hashes := get_or_empty (fe_hashes file_entry) |} in
              process_index rest (mods_to_download ++ [task])
                skipped_client skipped_other
          end
  end.

(** *** DownloadCoordinator *)

(** The worker pool: every submitted task runs to its end and its future
    keeps what the call returned or raised.  The tasks take effect in
    completion order. *)
Fixpoint run_pool (tasks : list Task) (w : World)
    : list (string * outcome bool) * World :=
  match tasks with
  | [] => ([], w)
  | t :: rest =>
      let '(r, w1) :=
        download_file (t_url t) (InMods (t_filename t)) (t_size t) (t_hashes t) w in
      let '(futures, w2) := run_pool rest w1 in
      ((t_filename t, r) :: futures, w2)
  end.

(** [for future in as_completed(futures)] with the two counters;
    [future.result()] re-raises what the task raised. *)
Fixpoint collect (futures : list (string * outcome bool))
    (downloaded failed : nat) : M (nat * nat) :=
  match futures with
  | [] => ret (downloaded, failed)
  | (filename, result) :: rest =>
      match result with
      | Ret true =>
          print (MsgDownloaded filename) ;; collect rest (S downloaded) failed
      | Ret false => collect rest downloaded (S failed)
      | SysExit c => sys_exit c
      | Raised e => raise e
      end
  end.

(** The download phase of [install]: [(downloaded, failed)]. *)
Definition download_batch (mods_to_download : list Task) : M (nat * nat) :=
  fun w =>
    let '(futures, w1) := run_pool (as_completed mods_to_download) w in
    collect futures 0 0 w1.

(** *** OverrideMerger *)

(** [shutil.copy2(src, dir / name)] on the entries of [dir]: when the
    target is a directory the file goes inside it under the same name;
    [None] when the final target is a directory. *)
Definition copy2_into (data : string) (name : string) (d : gmap string node)
    : option (gmap string node) :=
  match d !! name with
  | Some (Dir sub) =>
      match sub !! name with
      | Some (Dir _) => None
      | _ => Some (<[name := Dir (<[name := File data]> sub)]> d)
      end
  | _ => Some (<[name := File data]> d)
  end.

(** [shutil.copy2(mod_file, self.mods_dir / mod_file.name)] *)
Definition copy2_to_mods (name data : string) : M unit :=
  do i <- get_inst;
  match i !! "mods" with
  | Some (Dir m) =>
      match copy2_into data name m with
      | Some m' => emit (CopyMod name) ;; set_inst (<["mods" := Dir m']> i)
      | None => raise IsADirectoryError
      end
  | Some (File _) => raise NotADirectoryError
  | None => raise FileNotFoundError
  end.

(** The loop over [override_mods_dir.iterdir()] with its two counters. *)
Fixpoint override_mods_loop (listing : list (string * node))
    (override_mods override_skipped : nat) : M (nat * nat) :=
  match listing with
  | [] => ret (override_mods, override_skipped)
  | (name, mod_file) :: rest =>
      match mod_file with
      | File data =>
          if bool_decide (PurePath.suffix name = ".jar") then
            if is_client_only name None then
              print (MsgSkipOverrideClient name) ;;
              override_mods_loop rest override_mods (S override_skipped)
            else
              copy2_to_mods name data ;;
              print (MsgOverride name) ;;
              override_mods_loop rest (S override_mods) override_skipped
          else override_mods_loop rest override_mods override_skipped
      | Dir _ => override_mods_loop rest override_mods override_skipped
      end
  end.

(** Body of the loop over [override_src.iterdir()] for one entry. *)
Definition merge_item (entry : string * node) : M unit :=
  let '(name, item) := entry in
  if bool_decide (name = "mods") then ret tt
  else
    match item with
    | Dir _ =>
        do i <- get_inst;
        match i !! name with
        | Some (Dir _) => emit (RmTree name) ;; set_inst (delete name i)
        | Some (File _) => raise NotADirectoryError
        | None => ret tt
        end ;;
        do i' <- get_inst;
        emit (CopyTree name) ;;
        set_inst (<[name := item]> i') ;;
        print (MsgOverride name)
    | File data =>
        do i <- get_inst;
        match copy2_into data name i with
        | Some i' =>
            emit (CopyFile name) ;; set_inst i' ;; print (MsgOverride name)
        | None => raise IsADirectoryError
        end
    end.

(** One pass of [for override_src in [overrides_dir, server_overrides_dir]]. *)
Definition merge_root (override_src : option node)
    (override_mods override_skipped : nat) : M (nat * nat) :=
  match override_src with
  | None => ret (override_mods, override_skipped)
  | Some (File _) => raise NotADirectoryError
  | Some (Dir d) =>
      do counts <-
        match d !! "mods" with
        | None => ret (override_mods, override_skipped)
        | Some (File _) => raise NotADirectoryError
        | Some (Dir override_mods_dir) =>
            override_mods_loop (iterdir override_mods_dir)
              override_mods override_skipped
        end;
      for_each (iterdir d) merge_item ;;
      ret counts
  end.

(** *** SyncEngine *)

(** [with tempfile.TemporaryDirectory() as tmpdir]: a fresh directory,
    removed on every way out of the block. *)
Definition with_tmpdir {A} (body : M A) : M A :=
  fun w =>
    let '(r, w') := body {| inst := inst w; tmp := ∅; log := log w |} in
    (r, {| inst := inst w'; tmp := ∅; log := log w' |}).

(** [zipfile.ZipFile(mrpack_path).extractall(extract_dir)]: for a plain
    file name the archive is the file of that name in the temporary
    directory and [extracted] holds what it unpacks to. *)
Definition extract (filename : string) : M (gmap string node) :=
  if plain_name filename then
    do t <- get_tmp;
    match t !! filename with
    | None => raise FileNotFoundError
    | Some data =>
        match extractall data with
        | Some tree => ret tree
        | None => raise BadZipFile
        end
    end
  else
    fun w =>
      match extract_outside filename w with
      | inl e => (Raised e, w)
      | inr tree => (Ret tree, w)
      end.

(** [self.mods_dir.mkdir(parents=True, exist_ok=True)] in [install] *)
Definition ensure_mods_dir : M unit :=
  do i <- get_inst;
  match mkdir_mods i with
  | None => raise FileExistsError
  | Some i' => set_inst i'
  end.

(** The part of [install] after the index is parsed. *)
Definition sync (version_id version_num : string)
    (extract_dir : gmap string node) (index : list FileEntry) : M unit :=
  ensure_mods_dir ;;
  clean_mods true ;;
  do '(mods_to_download, skipped_client, skipped_other) <-
    process_index index [] 0%nat 0%nat;
  do '(downloaded, failed) <- download_batch mods_to_download;
  do '(override_mods1, override_skipped1) <-
    merge_root (extract_dir !! "overrides") 0%nat 0%nat;
  do '(override_mods, override_skipped) <-
    merge_root (extract_dir !! "server-overrides")
      override_mods1 override_skipped1;
  save_version version_id ;;
  print (MsgSummary version_num downloaded override_mods
           (skipped_client + override_skipped) skipped_other failed).

(** The body of the [with tempfile.TemporaryDirectory()] block. *)
Definition install_archive (latest : Version) (mrpack_file : VersionFile)
    : M unit :=
  let version_id := v_id latest in
  let version_num := v_version_number latest in
  do ok <- download_file (vf_url mrpack_file)
             (InTmp (vf_filename mrpack_file)) None None;
  if negb ok then sys_exit 1
  else
    do extract_dir <- extract (vf_filename mrpack_file);
    match extract_dir !! "modrinth.index.json" with
    | None => print MsgMissingIndex ;; sys_exit 1
    | Some (Dir _) => raise IsADirectoryError
    | Some (File text) =>
        match json_load text with
        | None => raise JSONDecodeError
        | Some index => sync version_id version_num extract_dir index
        end
    end.

(** The part of [install] past the version comparison. *)
Definition full_sync (latest : Version) : M unit :=
  print (MsgInstalling (v_version_number latest)) ;;
  match List.find (fun f => Str.endswith (vf_filename f) ".mrpack")
                  (v_files latest) with
  | None => print MsgNoMrpack ;; sys_exit 1
  | Some mrpack_file => with_tmpdir (install_archive latest mrpack_file)
  end.

(** [install(force)] *)
Definition install (force : bool) : M unit :=
  do latest <- get_latest_version;
  do installed <- get_installed_version;
  let version_id := v_id latest in
  let version_num := v_version_number latest in
  if bool_decide (installed = Some version_id) && negb force then
    print (MsgAlreadyInstalled version_num) ;; print MsgUseForceUpdate
  else full_sync latest.

(** The commands of [main] that reach the engine. *)
Inductive command := CmdInstall | CmdUpdate | CmdForceUpdate.

Definition run_command (c : command) : M unit :=
  match c with
  | CmdInstall => install false
  | CmdUpdate => install false
  | CmdForceUpdate => install true
  end.

End Engine.

(** ** Vocabulary of the specification *)

(** "The filename case-insensitively contains the pattern": the lowered
    pattern is a contiguous block of the lowered filename. *)
Definition ci_contains (filename pattern : string) : Prop :=
  ∃ pre post, Str.lower filename = pre +:+ Str.lower pattern +:+ post.

(** "The filename matches some configured pattern." *)
Definition matches_some (filename : string) (patterns : list string) : Prop :=
  ∃ pattern, pattern ∈ patterns ∧ ci_contains filename pattern.

(** The runtime-requirement tag of a manifest entry: [env.get("server")]. *)
Definition runtime_tag (env : option dict) : option string :=
  match env with Some e => e !! "server" | None => None end.

(** The entry of the target mods directory under a name. *)
Definition mods_entry (w : World) (name : string) : option node :=
  match inst w !! "mods" with
  | Some (Dir m) => m !! name
  | _ => None
  end.

(** The request constructor accepts the task's URL. *)
Definition url_accepted `{Platform} (t : Task) : Prop :=
  request_accepts (t_url t) = true.

(** The task declares a [sha512] digest and the payload behind its URL has
    another one. *)
Definition sha512_differs `{Platform} (remote : Remote) (t : Task) : Prop :=
  ∃ h expected data,
    t_hashes t = Some h ∧ h !! "sha512" = Some expected
    ∧ urlopen_read remote (t_url t) = Some data
    ∧ sha512_hexdigest data ≠ expected.

Global Instance sha512_differs_dec `{Platform} remote t :
  Decision (sha512_differs remote t).
Proof.
  unfold sha512_differs.
  destruct (t_hashes t) as [h|];
    [|right; intros (? & ? & ? & ? & _); discriminate].
  destruct (h !! "sha512") as [expected|] eqn:Hk;
    [|right; intros (? & ? & ? & [= <-] & ? & _); congruence].
  destruct (urlopen_read remote (t_url t)) as [data|] eqn:Hd;
    [|right; intros (? & ? & ? & _ & _ & ? & _); discriminate].
  destruct (decide (sha512_hexdigest data = expected)) as [He|He].
  - right. intros (? & ? & ? & [= <-] & ? & [= <-] & ?). congruence.
  - left. eauto 10.
Defined.

(** The entries [clean_mods] removes: regular files with suffix [.jar],
    except, when preserved files are kept, those [_is_preserved] accepts. *)
Definition removable (cfg : Config) (keep_preserved : bool)
    (name : string) (n : node) : bool :=
  is_file n && bool_decide (PurePath.suffix name = ".jar")
  && negb (keep_preserved && is_preserved cfg name).

(** What the clean step leaves of one entry of the mods directory. *)
Definition cleaned (cfg : Config) (keep_preserved : bool)
    (name : string) (entry : option node) : option node :=
  match entry with
  | Some n => if removable cfg keep_preserved name n then None else Some n
  | None => None
  end.

(** No file with a client-only name came into the mods directory: under
    each such name the directory holds nothing or what it held before. *)
Definition never_installs (cfg : Config) (w w' : World) : Prop :=
  ∀ k, is_client_only cfg k None = true →
    mods_entry w' k = None ∨ mods_entry w' k = mods_entry w k.

(** The entries of the mods directory under client-only names are what
    they were. *)
Definition keeps_client_only (cfg : Config) (w w' : World) : Prop :=
  ∀ k, is_client_only cfg k None = true → mods_entry w' k = mods_entry w k.

(** What a run of the sync leaves: the commit, when there is one, is the
    last action before the summary, and it is there when the sync returns. *)
Definition committed_last (version_id version_num : string)
    (r : outcome unit) (l : list event) (w' : World) : Prop :=
  match r with
  | Ret _ =>
      ∃ pre downloaded override_mods skipped_client skipped_other failed,
        l = pre ++ [SaveVersion version_id;
                    Echo (MsgSummary version_num downloaded override_mods
                             skipped_client skipped_other failed)]
        ∧ Forall (λ e, ∀ v, e ≠ SaveVersion v) pre
        ∧ inst w' !! ".modpack_version" = Some (File version_id)
  | SysExit _ => False
  | Raised _ => Forall (λ e, ∀ v, e ≠ SaveVersion v) l
  end.

(** What a run of [install] past the version comparison leaves: a fatal
    exit has status 1 and an untouched instance directory, anything else
    is as [committed_last] says. *)
Definition full_sync_shape (latest : Version) (w : World)
    (r : outcome unit) (l : list event) (w' : World) : Prop :=
  match r with
  | SysExit c =>
      c = 1 ∧ inst w' = inst w ∧ Forall (λ e, ∀ v, e ≠ SaveVersion v) l
  | _ => committed_last (v_id latest) (v_version_number latest) r l w'
  end.

(** What a run of [install] leaves.  A fatal exit has status 1 and an
    untouched instance directory; an exception leaves no commit; a run that
    returns either found the pack up to date and did nothing but report,
    or committed last. *)
Definition install_shape (remote : Remote) (force : bool) (w : World)
    (r : outcome unit) (l : list event) (w' : World) : Prop :=
  match r with
  | SysExit c =>
      c = 1 ∧ inst w' = inst w ∧ Forall (λ e, ∀ v, e ≠ SaveVersion v) l
  | Raised _ => Forall (λ e, ∀ v, e ≠ SaveVersion v) l
  | Ret _ =>
      ∃ latest rest,
        api_versions remote = Some (latest :: rest)
        ∧ ((force = false
            ∧ l = [ApiRequest;
                   Echo (MsgAlreadyInstalled (v_version_number latest));
                   Echo MsgUseForceUpdate]
            ∧ inst w' = inst w)
           ∨ committed_last (v_id latest) (v_version_number latest) (Ret tt) l w')
  end.

(** An override entry can be merged onto what the instance directory holds
    under its name: a directory does not meet a regular file, and a file
    that meets a directory finds no directory of its own name inside. *)
Definition mergeable (target : option node) (name : string) (item : node) : Prop :=
  match item, target with
  | Dir _, Some (File _) => False
  | File _, Some (Dir sub) =>
      match sub !! name with Some (Dir _) => False | _ => True end
  | _, _ => True
  end.

(** The event is not the copy of an override mod of that name. *)
Definition no_copy (k : string) (e : event) : Prop := e ≠ CopyMod k.

(** ** Vocabulary of the proofs *)

(** Every run of [m] relates its two worlds by [R], does not leave through
    [sys.exit], and returns only values satisfying [Q]. *)
Definition phase {A} (R : relation World) (Q : A → Prop) (m : M A) : Prop :=
  ∀ w r w', m w = (r, w') →
    R w w' ∧ (∀ c, r ≠ SysExit c) ∧ (∀ a, r = Ret a → Q a).

(** The event is not the commit of the installed version. *)
Definition not_commit (e : event) : Prop := ∀ v, e ≠ SaveVersion v.

Definition log_grows (P : event → Prop) (w w' : World) : Prop :=
  ∃ l, log w' = log w ++ l ∧ Forall P l.

(** A phase whose new events all satisfy [P]. *)
Abbreviation emits P := (phase (log_grows P) (λ _, True)).

(** A phase that does not commit: it neither exits nor saves the version. *)
Abbreviation quiet := (emits not_commit).

(** The relation every phase before the commit keeps. *)
Definition before_commit (cfg : Config) (w w' : World) : Prop :=
  log_grows not_commit w w' ∧ never_installs cfg w w'.

(** ** A concrete platform and run, for evaluation *)

Module Sample.

(** The scheme test of [urllib]: some characters other than [/] and [:],
    then a colon. *)
Fixpoint scheme_end (seen : bool) (s : string) : bool :=
  match s with
  | EmptyString => false
  | String c s' =>
      if Ascii.eqb c ":" then seen
      else if Ascii.eqb c "/" then false
      else scheme_end true s'
  end.

Definition has_scheme (url : string) : bool := scheme_end false url.

Definition index : list FileEntry :=
  [ {| fe_path := "mods/lithium.jar"; fe_env := Absent;
       fe_downloads := ["https://cdn/lithium.jar"]; fe_fileSize := Some 3;
       fe_hashes := Value {[ "sha512" := "512:abc"; "sha1" := "1:zzz" ]} |};
    {| fe_path := "mods/Sodium-Extra.jar"; fe_env := Absent;
       fe_downloads := ["https://cdn/sodium.jar"]; fe_fileSize := None;
       fe_hashes := Absent |};
    {| fe_path := "mods/minimap.jar";
       fe_env := Value {[ "client" := "required"; "server" := "unsupported" ]};
       fe_downloads := ["https://cdn/minimap.jar"]; fe_fileSize := None;
       fe_hashes := Absent |};
    {| fe_path := "mods/bad.jar"; fe_env := Absent;
       fe_downloads := ["https://cdn/bad.jar"]; fe_fileSize := Some 3;
       fe_hashes := Value {[ "sha512" := "512:good" ]} |};
    {| fe_path := "resourcepacks/x.zip"; fe_env := Absent;
       fe_downloads := ["https://cdn/x.zip"]; fe_fileSize := None;
       fe_hashes := Absent |} ].

Definition overrides : gmap string node :=
  {[ "config" := Dir {[ "a.toml" := File "new" ]};
     "mods" := Dir {[ "extra.jar" := File "E";
                      "sodium-client.jar" := File "S" ]} ]}.

Definition tree : gmap string node :=
  {[ "modrinth.index.json" := File "INDEX"; "overrides" := Dir overrides ]}.

Definition platform : Platform := {|
  sha512_hexdigest := fun data => "512:" +:+ data;
  sha1_hexdigest := fun data => "1:" +:+ data;
  request_accepts := has_scheme;
  extractall := fun data => if String.eqb data "PACK" then Some tree else None;
  json_load := fun text => if String.eqb text "INDEX" then Some index else None;
  iterdir := map_to_list;
  iterdir_perm := fun d => reflexivity (map_to_list d);
  as_completed := fun q => q;
  as_completed_perm := fun q => reflexivity q;
  write_outside := fun _ _ w => (false, w);
  extract_outside := fun _ _ => inl FileNotFoundError;
|}.

Definition cfg : Config := {|
  modpack_id := "pack";
  preserved_mods := ["dynmap"];
  client_only_mods := ["sodium"];
|}.

Definition latest : Version := {|
  v_id := "v2"; v_version_number := "2.0";
  v_files := [ {| vf_filename := "pack.mrpack"; vf_url := "https://cdn/pack" |} ];
|}.

Definition remote : Remote := {|
  api_versions := Some [latest];
  urlopen_read := fun url =>
    if String.eqb url "https://cdn/pack" then Some "PACK"
    else if String.eqb url "https://cdn/lithium.jar" then Some "abc"
    else if String.eqb url "https://cdn/bad.jar" then Some "xyz"
    else None;
|}.

Definition mods : gmap string node :=
  {[ "Dynmap-3.jar" := File "D"; "stale.jar" := File "X";
     "notes.txt" := File "N"; "libs.jar" := Dir {[ "a.jar" := File "A" ]};
     "user" := Dir {[ "mine.jar" := File "M" ]} ]}.

Definition world : World := {|
  inst := {[ version_file := File "v1";
             "config" := Dir {[ "old.toml" := File "old" ]};
             "mods" := Dir mods ]};
  tmp := ∅;
  log := [];
|}.


(** The same instance with the latest version already installed. *)
Definition world_current : World := {|
  inst := {[ version_file := File "v2 "; "mods" := Dir mods ]};
  tmp := ∅;
  log := [];
|}.

(** Three queued tasks: one whose payload verifies, one whose payload has
    another [sha512] than declared, one whose URL has no scheme. *)
Definition good_task : Task := {|
  t_url := "https://cdn/lithium.jar"; t_filename := "lithium.jar";
  t_size := Some 3;
  t_hashes := Some {[ "sha512" := "512:abc"; "sha1" := "1:zzz" ]};
|}.

Definition bad_task : Task := {|
  t_url := "https://cdn/bad.jar"; t_filename := "bad.jar";
  t_size := Some 3;
  t_hashes := Some {[ "sha512" := "512:good" ]};
|}.

Definition schemeless_task : Task := {|
  t_url := "cdn/other.jar"; t_filename := "other.jar";
  t_size := None;
  t_hashes := Some ∅;
|}.

End Sample.

(** ** The version report *)

(** The lines [check_versions] prints, in order. *)
Inductive report_line :=
  | LineModpack (modpack_id : string)
  | LineInstalled (shown : string)
  | LineLatest (version_number version_id : string)
  | LineUpToDate
  | LineUpdateAvailable
  | LineRunInstall.

(** Truth value of an optional [str]: present and non-empty. *)
Definition truthy_str (s : option string) : bool :=
  match s with
  | Some text => negb (bool_decide (text = ""))
  | None => false
  end.

(** [installed or 'Not installed'] *)
Definition installed_or_default (installed : option string) : string :=
  match installed with
  | Some text => if truthy_str installed then text else "Not installed"
  | None => "Not installed"
  end.

(** [check_versions()]; the lines it prints are what it returns. *)
Definition check_versions (cfg : Config) (remote : Remote) : M (list report_line) :=
  do installed <- get_installed_version;
  do latest <- get_latest_version remote;
  ret [ LineModpack (modpack_id cfg);
        LineInstalled (installed_or_default installed);
        LineLatest (v_version_number latest) (v_id latest);
        if bool_decide (installed = Some (v_id latest)) then LineUpToDate
        else if truthy_str installed then LineUpdateAvailable
        else LineRunInstall ].

(** ** Reading the manifest loop *)

(** The entry is a mod: its path starts with [mods/]. *)
Definition is_mod_entry (e : FileEntry) : bool :=
  Str.startswith (fe_path e) "mods/".

(** The entry is a mod the client-only decision accepts. *)
Definition client_entry (cfg : Config) (e : FileEntry) : bool :=
  is_mod_entry e
  && is_client_only cfg (PurePath.name (fe_path e)) (get_or_empty (fe_env e)).

(** The entry is a mod the client-only decision rejects. *)
Definition wanted_entry (cfg : Config) (e : FileEntry) : bool :=
  is_mod_entry e
  && negb (is_client_only cfg (PurePath.name (fe_path e))
             (get_or_empty (fe_env e))).

(** The tuple the loop appends for an entry it queues; [None] when the
    entry has no download URL. *)
Definition task_of (e : FileEntry) : option Task :=
  match fe_downloads e with
  | [] => None
  | download_url :: _ =>
      Some {| t_url := download_url; t_filename := PurePath.name (fe_path e);
              t_size := fe_fileSize e;
              t_hashes := get_or_empty (fe_hashes e) |}
  end.

(** What [get_installed_version] reads off a world whose marker path is
    not a directory. *)
Definition installed_of (w : World) : option string :=
  match inst w !! ".modpack_version" with
  | Some (File text) => Some (Str.strip (Str.universal_newlines text))
  | _ => None
  end.

(** The world after the API request of [get_latest_version]. *)
Definition requested (w : World) : World :=
  {| inst := inst w; tmp := tmp w; log := log w ++ [ApiRequest] |}.

(** The world after [install] found the pack up to date. *)
Definition reported_up_to_date (latest : Version) (w : World) : World :=
  {| inst := inst w; tmp := tmp w;
     log := log w ++ [ApiRequest;
                      Echo (MsgAlreadyInstalled (v_version_number latest));
                      Echo MsgUseForceUpdate] |}.

(** What [shutil.copy2] of a file, or the remove-then-[copytree] of a
    directory, leaves under the entry's name, given what was there. *)
Definition merged (target : option node) (name : string) (item : node)
    : option node :=
  match item with
  | Dir _ => Some item
  | File data =>
      match target with
      | Some (Dir sub) => Some (Dir (<[name := File data]> sub))
      | _ => Some (File data)
      end
  end.

(** The entry is an override mod the loop copies: a regular [.jar] file
    the client-only decision rejects. *)
Definition copied_mod (cfg : Config) (entry : string * node) : bool :=
  is_file entry.2 && bool_decide (PurePath.suffix entry.1 = ".jar")
  && negb (is_client_only cfg entry.1 None).

(** The entry is an override mod the loop skips as client-only. *)
Definition skipped_mod (cfg : Config) (entry : string * node) : bool :=
  is_file entry.2 && bool_decide (PurePath.suffix entry.1 = ".jar")
  && is_client_only cfg entry.1 None.

(** What writes under the names [names] leave of a directory: another
    name holds what it held, a directory is still the same directory, and
    no entry is gone. *)
Definition kept_but (names : list string) (m m' : gmap string node) : Prop :=
  (∀ k, k ∉ names → m' !! k = m !! k)
  ∧ (∀ k sub, m !! k = Some (Dir sub) → m' !! k = Some (Dir sub))
  ∧ (∀ k, is_Some (m !! k) → is_Some (m' !! k)).

(** The archive cannot be used: the request for it was made and gave no
    payload, or the payload unpacks to a tree without
    [modrinth.index.json]. *)
Definition archive_unusable `{Platform} (remote : Remote) (f : VersionFile)
    : Prop :=
  request_accepts (vf_url f) = true
  ∧ match urlopen_read remote (vf_url f) with
    | None => True
    | Some data =>
        ∃ tree, extractall data = Some tree
                ∧ tree !! "modrinth.index.json" = None
    end.

(** The situations in which [install] gives up: no version list, an empty
    one, or, with a readable marker and something to do, no [.mrpack] file
    in the latest version or one that cannot be used. *)
Definition gives_up `{Platform} (remote : Remote) (force : bool) (w : World)
    : Prop :=
  match api_versions remote with
  | None | Some [] => True
  | Some (latest :: _) =>
      (∀ sub, inst w !! ".modpack_version" ≠ Some (Dir sub))
      ∧ ¬ (installed_of w = Some (v_id latest) ∧ force = false)
      ∧ match List.find (fun f => Str.endswith (vf_filename f) ".mrpack")
                (v_files latest) with
        | None => True
        | Some f => archive_unusable remote f
        end
  end.

(** An override root copies a mod under the name: its [mods] directory
    holds a regular [.jar] file of that name which the client-only decision
    rejects. *)
Definition override_copies (cfg : Config) (src : option node) (k : string)
    : Prop :=
  ∃ d override_mods_dir data,
    src = Some (Dir d) ∧ d !! "mods" = Some (Dir override_mods_dir)
    ∧ override_mods_dir !! k = Some (File data)
    ∧ PurePath.suffix k = ".jar" ∧ is_client_only cfg k None = false.

(** The filenames of the manifest entries the loop queues. *)
Definition manifest_names (cfg : Config) (index : list FileEntry)
    : list string :=
  (λ e, PurePath.name (fe_path e)) <$> filter (wanted_entry cfg) index.

(** The archive of the latest version has a plain file name. *)
Definition plain_archive (remote : Remote) : Prop :=
  ∀ latest rest f,
    api_versions remote = Some (latest :: rest) →
    List.find (fun f => Str.endswith (vf_filename f) ".mrpack") (v_files latest)
    = Some f →
    plain_name (vf_filename f) = true.

(** The pack the registry serves: the tree the archive of the latest
    version unpacks to, and the manifest read from it. *)
Definition served_pack `{Platform} (remote : Remote)
    : option (gmap string node * list FileEntry) :=
  match api_versions remote with
  | Some (latest :: _) =>
      match List.find (fun f => Str.endswith (vf_filename f) ".mrpack")
              (v_files latest) with
      | Some f =>
          match urlopen_read remote (vf_url f) with
          | Some data =>
              match extractall data with
              | Some tree =>
                  match tree !! "modrinth.index.json" with
                  | Some (File text) =>
                      match json_load text with
                      | Some index => Some (tree, index)
                      | None => None
                      end
                  | _ => None
                  end
              | None => None
              end
          | None => None
          end
      | None => None
      end
  | _ => None
  end.




(** ** More sample data *)

Module Demo.

(** A configuration with an empty pattern in each list. *)
Definition cfg_empty_pattern : Config := {|
  modpack_id := "pack";
  preserved_mods := [""];
  client_only_mods := ["optifine"; ""];
|}.

(** A manifest whose only mod entry has no download URL. *)
Definition index_no_url : list FileEntry :=
  [ {| fe_path := "mods/lithium.jar"; fe_env := Absent; fe_downloads := [];
       fe_fileSize := None; fe_hashes := Absent |} ].

(** Hash sets without [sha512]: one with a wrong [sha1], one with an
    algorithm the script does not know. *)
Definition sha1_only : dict := {[ "sha1" := "1:zzz" ]}.
Definition md5_only : dict := {[ "md5" := "abc" ]}.

(** A second override root, as [server-overrides] would be. *)
Definition server_overrides : gmap string node :=
  {[ "config" := Dir {[ "server.toml" := File "srv" ]};
     "eula.txt" := File "eula=true" ]}.

(** An override root with a directory where the instance has a file. *)
Definition overrides_clash : gmap string node :=
  {[ ".modpack_version" := Dir ∅ ]}.



End Demo.

(** * Properties *)

(** Unfold the monad operations and project the record they rebuild. *)
Ltac mrun :=
  unfold print, bind, emit, ret, raise, sys_exit,
    get_inst, set_inst, get_tmp, set_tmp;
  cbn [inst tmp log].

Tactic Notation "mrun" "in" hyp(H) :=
  unfold print, bind, emit, ret, raise, sys_exit,
    get_inst, set_inst, get_tmp, set_tmp in H;
  cbn [inst tmp log] in H.

(** ** Strings *)

Lemma app_cons (c : ascii) (s t : string) :
  String c s +:+ t = String c (s +:+ t).
Proof. reflexivity. Qed.

Lemma app_nil_l (t : string) : "" +:+ t = t.
Proof. reflexivity. Qed.

Lemma prefix_app (p s : string) :
  String.prefix p s = true ↔ ∃ post, s = p +:+ post.
Proof.
  revert p. induction s as [|b s IH]; intros [|a p]; simpl.
  - split; [exists ""; reflexivity | reflexivity].
  - split; [discriminate | intros [post Hp]; discriminate].
  - split; [intros _; eexists; reflexivity | reflexivity].
  - destruct (ascii_dec a b) as [->|Hne].
    + rewrite IH. split; intros [post Hp]; exists post;
        rewrite app_cons in *; congruence.
    + split; [discriminate|]. intros [post Hp]. rewrite app_cons in Hp.
      congruence.
Qed.

Lemma contains_app (s p : string) :
  Str.contains s p = true ↔ ∃ pre post, s = pre +:+ p +:+ post.
Proof.
  induction s as [|c s IH].
  - change (Str.contains "" p) with (if String.prefix p "" then true else false).
    destruct (String.prefix p "") eqn:Hp.
    + split; [intros _|reflexivity].
      apply prefix_app in Hp as [post Hp]. exists "", post. exact Hp.
    + split; [discriminate|]. intros (pre & post & Heq).
      destruct pre; [|discriminate]. rewrite app_nil_l in Heq.
      assert (String.prefix p "" = true) by (apply prefix_app; eauto).
      congruence.
  - change (Str.contains (String c s) p)
      with (if String.prefix p (String c s) then true else Str.contains s p).
    destruct (String.prefix p (String c s)) eqn:Hp.
    + split; [intros _|reflexivity].
      apply prefix_app in Hp as [post Hp]. exists "", post. exact Hp.
    + rewrite IH. split.
      * intros (pre & post & ->). exists (String c pre), post. reflexivity.
      * intros (pre & post & Heq). destruct pre as [|c' pre].
        -- rewrite app_nil_l in Heq.
           assert (String.prefix p (String c s) = true)
             by (apply prefix_app; eauto).
           congruence.
        -- rewrite app_cons in Heq. exists pre, post. congruence.
Qed.

Example lower_ex : Str.lower "Sodium-Fabric.JAR" = "sodium-fabric.jar".
Proof. reflexivity. Qed.

Example contains_ex :
  Str.contains "sodium-fabric.jar" "fabric" = true
  ∧ Str.contains "sodium-fabric.jar" "forge" = false
  ∧ Str.contains "sodium" "" = true.
Proof. repeat split. Qed.

Example name_ex :
  PurePath.name "mods/sub/./a.jar" = "a.jar"
  ∧ PurePath.name "mods/" = "mods"
  ∧ PurePath.name "mods/.." = "..".
Proof. vm_compute. repeat split. Qed.

Example suffix_ex :
  PurePath.suffix "a.b.jar" = ".jar"
  ∧ PurePath.suffix ".jar" = ""
  ∧ PurePath.suffix "a.jar." = ""
  ∧ PurePath.suffix "A.JAR" = ".JAR".
Proof. repeat split. Qed.

Example strip_ex : Str.strip "  v1.2 " = "v1.2".
Proof. reflexivity. Qed.

Example endswith_ex :
  Str.endswith "pack.mrpack" ".mrpack" = true
  ∧ Str.endswith "pack.zip" ".mrpack" = false.
Proof. repeat split. Qed.

Example has_scheme_ex :
  Sample.has_scheme "https://cdn/x.jar" = true
  ∧ Sample.has_scheme "cdn/x.jar" = false
  ∧ Sample.has_scheme "x.jar" = false.
Proof. repeat split. Qed.

(** ** ContentFilter *)

Section FilterProperties.

Context `{Platform}.
Variable cfg : Config.

Lemma any_pattern_matches (filename : string) (patterns : list string) :
  any_pattern (Str.lower filename) patterns = true
  ↔ matches_some filename patterns.
Proof.
  unfold matches_some, ci_contains.
  induction patterns as [|p ps IH]; simpl.
  - split; [discriminate|]. intros (p & Hin & _). inversion Hin.
  - destruct (Str.contains (Str.lower filename) (Str.lower p)) eqn:Hc.
    + split; [intros _|reflexivity].
      exists p. split; [left|]. by apply contains_app.
    + rewrite IH. split.
      * intros (q & Hin & Hq). exists q. split; [by right|done].
      * intros (q & Hin & Hq). apply elem_of_cons in Hin as [->|Hin].
        -- apply contains_app in Hq. congruence.
        -- exists q. done.
Qed.

Lemma is_preserved_matches (filename : string) :
  is_preserved cfg filename = true
  ↔ matches_some filename (preserved_mods cfg).
Proof. apply any_pattern_matches. Qed.

Lemma server_unsupported_tag (env : option dict) :
  match env with
  | Some e => truthy e && bool_decide (e !! "server" = Some "unsupported")
  | None => false
  end = true ↔ runtime_tag env = Some "unsupported".
Proof.
  destruct env as [e|]; simpl; [|split; discriminate].
  rewrite andb_true_iff, bool_decide_eq_true. unfold truthy.
  rewrite negb_true_iff, bool_decide_eq_false.
  split; [tauto|]. intros He. split; [|done].
  intros ->. rewrite lookup_empty in He. discriminate.
Qed.

Lemma is_client_only_iff (filename : string) (env : option dict) :
  is_client_only cfg filename env = true
  ↔ runtime_tag env = Some "unsupported"
    ∨ matches_some filename (client_only_mods cfg).
Proof.
  unfold is_client_only. rewrite <- server_unsupported_tag.
  rewrite <- any_pattern_matches.
  destruct (match env with Some _ => _ | None => _ end); [tauto|].
  split; [tauto|]. intros [?|?]; [discriminate|done].
Qed.

End FilterProperties.

(** ** VerifiedFetcher *)

Section FetchProperties.

Context `{Platform}.
Variable remote : Remote.

Lemma world_eta (w : World) :
  {| inst := inst w; tmp := tmp w; log := log w |} = w.
Proof. by destruct w. Qed.

Lemma truthy_lookup (h : dict) (k v : string) : h !! k = Some v → truthy h = true.
Proof.
  intros Hk. unfold truthy. apply negb_true_iff, bool_decide_eq_false.
  intros ->. by rewrite lookup_empty in Hk.
Qed.

(** With a [sha512] entry the hash block reads nothing else of the dict. *)
Lemma hash_mismatch_sha512 (d : dest) (h : dict) (expected data : string) :
  h !! "sha512" = Some expected →
  hash_mismatch d (Some h) data =
    if bool_decide (sha512_hexdigest data = expected) then None
    else Some (MsgSha512Mismatch d).
Proof.
  intros Hk. unfold hash_mismatch. by rewrite (truthy_lookup _ _ _ Hk), Hk.
Qed.

(** A call either raises [ValueError] before the [try], leaving the world
    as it was, or returns a boolean. *)
Lemma download_file_outcome url d size hashes w :
  (request_accepts url = false
   ∧ download_file remote url d size hashes w = (Raised ValueError, w))
  ∨ (request_accepts url = true
     ∧ ∃ b w', download_file remote url d size hashes w = (Ret b, w')).
Proof.
  unfold download_file. destruct (request_accepts url); [right|left; done].
  split; [done|]. mrun.
  destruct (urlopen_read remote url) as [data|]; [|eauto].
  destruct (size_mismatch size data); [eauto|].
  destruct (hash_mismatch d hashes data); [eauto|].
  destruct (write_dest d data _) as [[] w']; eauto.
Qed.

(** A retrieved payload that fails the size check or the hash block is
    reported and nothing is written. *)
Lemma download_file_rejected url d size hashes data w :
  request_accepts url = true →
  urlopen_read remote url = Some data →
  size_mismatch size data = true ∨ is_Some (hash_mismatch d hashes data) →
  ∃ m, download_file remote url d size hashes w =
         (Ret false, {| inst := inst w; tmp := tmp w;
                        log := log w ++ [Fetch url; Echo m] |}).
Proof.
  intros Hreq Hdata Hrej. unfold download_file. rewrite Hreq, Hdata.
  destruct (size_mismatch size data).
  - mrun. eexists. by rewrite <- app_assoc.
  - destruct Hrej as [?|[m Hm]]; [done|]. rewrite Hm.
    mrun. eexists. by rewrite <- app_assoc.
Qed.

(** The size check does not fire for an expected size of zero. *)
Lemma size_mismatch_zero (data : string) : size_mismatch (Some 0) data = false.
Proof. reflexivity. Qed.

Lemma size_mismatch_nonzero (n : Z) (data : string) :
  n ≠ 0 → Z.of_nat (String.length data) ≠ n →
  size_mismatch (Some n) data = true.
Proof.
  intros Hn Hlen. unfold size_mismatch.
  apply Z.eqb_neq in Hn, Hlen. by rewrite Hn, Hlen.
Qed.

(** The size check for a non-zero expected size: a payload of another
    length is rejected and nothing is written. *)
Lemma download_file_size_nonzero url d n hashes data w :
  request_accepts url = true →
  urlopen_read remote url = Some data →
  n ≠ 0 → Z.of_nat (String.length data) ≠ n →
  download_file remote url d (Some n) hashes w =
    (Ret false, {| inst := inst w; tmp := tmp w;
                   log := log w ++ [Fetch url; Echo (MsgSizeMismatch d)] |}).
Proof.
  intros Hreq Hdata Hn Hlen. unfold download_file. rewrite Hreq, Hdata.
  rewrite size_mismatch_nonzero by done. mrun. by rewrite <- app_assoc.
Qed.

End FetchProperties.

(** ** DownloadCoordinator *)

Section BatchProperties.

Context `{Platform}.
Variable remote : Remote.

(** When every URL is accepted, each future holds a boolean, the loop
    counts each of them once, and a task whose [sha512] differs is among
    the failed ones. *)
Lemma pool_collect_counts (tasks : list Task) :
  Forall url_accepted tasks →
  ∀ w futures w1, run_pool remote tasks w = (futures, w1) →
  ∀ downloaded failed w2,
    ∃ downloaded' failed' w3,
      collect futures downloaded failed w2 = (Ret (downloaded', failed'), w3)
      ∧ inst w3 = inst w2
      ∧ (downloaded' + failed' = downloaded + failed + length tasks)%nat
      ∧ (failed + length (filter (sha512_differs remote) tasks) ≤ failed')%nat.
Proof.
  induction 1 as [|t rest Hacc _ IH]; intros w futures w1 Hrun d f w2.
  - injection Hrun as <- <-. exists d, f, w2. simpl. repeat split; lia.
  - cbn [run_pool] in Hrun.
    destruct (download_file_outcome remote (t_url t) (InMods (t_filename t))
                (t_size t) (t_hashes t) w) as [[Hrej _]|[_ (b & wt & Hdl)]];
      [unfold url_accepted in Hacc; congruence|].
    rewrite Hdl in Hrun.
    destruct (run_pool remote rest wt) as [futs wr] eqn:Hrest.
    injection Hrun as <- <-. cbn [collect].
    rewrite filter_cons. destruct (decide (sha512_differs remote t)) as [Hbad|Hok].
    + assert (b = false) as ->.
      { destruct Hbad as (h & expected & data & Hh & Hk & Hdata & Hne).
        destruct (download_file_rejected remote (t_url t)
                    (InMods (t_filename t)) (t_size t) (t_hashes t) data w)
          as [m Hm]; [done..| |congruence].
        right. rewrite Hh, (hash_mismatch_sha512 _ _ _ _ Hk).
        rewrite bool_decide_eq_false_2 by done. eauto. }
      destruct (IH _ _ _ Hrest d (S f) w2) as (d' & f' & w3 & Hc & Hi & Hsum & Hbadc).
      exists d', f', w3. rewrite Hc. cbn [length]. repeat split; [done|lia..].
    + destruct b.
      * mrun.
        destruct (IH _ _ _ Hrest (S d) f
                    {| inst := inst w2; tmp := tmp w2;
                       log := log w2 ++ [Echo (MsgDownloaded (t_filename t))] |})
          as (d' & f' & w3 & Hc & Hi & Hsum & Hbadc).
        exists d', f', w3. rewrite Hc. cbn [length]. repeat split; [done|lia..].
      * destruct (IH _ _ _ Hrest d (S f) w2) as (d' & f' & w3 & Hc & Hi & Hsum & Hbadc).
        exists d', f', w3. rewrite Hc. cbn [length]. repeat split; [done|lia..].
Qed.

(** When the request constructor rejects some URL, the exception stored in
    that future leaves the counting loop. *)
Lemma pool_collect_raises (tasks : list Task) :
  Exists (λ t, request_accepts (t_url t) = false) tasks →
  ∀ w futures w1, run_pool remote tasks w = (futures, w1) →
  ∀ downloaded failed w2,
    ∃ w3, collect futures downloaded failed w2 = (Raised ValueError, w3).
Proof.
  induction tasks as [|t rest IH]; intros Hex w futures w1 Hrun d f w2.
  - inversion Hex.
  - cbn [run_pool] in Hrun.
    destruct (download_file_outcome remote (t_url t) (InMods (t_filename t))
                (t_size t) (t_hashes t) w) as [[Hrej Hdl]|[Hacc (b & wt & Hdl)]];
      rewrite Hdl in Hrun;
      destruct (run_pool remote rest _) as [futs wr] eqn:Hrest;
      injection Hrun as <- <-; cbn [collect].
    + eexists. reflexivity.
    + apply Exists_cons in Hex as [Hhd|Htl]; [congruence|].
      destruct b; mrun; eapply IH; eauto.
Qed.

(** The batch with every URL accepted: the two counters add up to the
    number of queued tasks. *)
Lemma download_batch_counts (queue : list Task) (w : World) :
  Forall url_accepted queue →
  ∃ downloaded failed w',
    download_batch remote queue w = (Ret (downloaded, failed), w')
    ∧ (downloaded + failed = length queue)%nat
    ∧ (length (filter (sha512_differs remote) queue) ≤ failed)%nat.
Proof.
  intros Hacc. unfold download_batch.
  destruct (run_pool remote (as_completed queue) w) as [futs w1] eqn:Hrun.
  pose proof (as_completed_perm queue) as Hperm.
  rewrite <- Hperm in Hacc.
  destruct (pool_collect_counts _ Hacc _ _ _ Hrun 0%nat 0%nat w1)
    as (d & f & w3 & Hc & _ & Hsum & Hbad).
  exists d, f, w3. rewrite Hperm in Hsum, Hbad. repeat split; [done|lia..].
Qed.

(** The batch with some URL rejected: the exception leaves the loop. *)
Lemma download_batch_raises (queue : list Task) (w : World) :
  Exists (λ t, request_accepts (t_url t) = false) queue →
  ∃ w', download_batch remote queue w = (Raised ValueError, w').
Proof.
  intros Hex. unfold download_batch.
  destruct (run_pool remote (as_completed queue) w) as [futs w1] eqn:Hrun.
  rewrite <- (as_completed_perm queue) in Hex.
  eapply pool_collect_raises; eauto.
Qed.

(** The batch returns its counts exactly when every URL is accepted. *)
Lemma download_batch_returns (queue : list Task) (w : World) counts w' :
  download_batch remote queue w = (Ret counts, w') →
  Forall url_accepted queue.
Proof.
  intros Hrun. apply Forall_forall. intros t Ht. unfold url_accepted.
  destruct (request_accepts (t_url t)) eqn:Hreq; [done|].
  destruct (download_batch_raises queue w) as [w1 Hraise]; [|congruence].
  apply Exists_exists. eauto.
Qed.

End BatchProperties.

(** ** Verification of downloads *)

(** What holds of the hash verification.  With a [sha512] entry in the
    expected hashes the fetch depends on nothing else of the hash set (a
    [sha1] entry is not read).  When the digest computed from the retrieved payload
    differs from that entry, the fetch returns [False] and writes nothing
    (the world changes by two log lines only); whenever a batch holding
    the task produces its counts the task is among the failed ones; and
    the batch does produce them when the request constructor accepts every
    queued URL. *)
Theorem sha512_verification `{Platform} (remote : Remote) :
  (∀ url d size (h h' : dict) expected w,
      h !! "sha512" = Some expected → h' !! "sha512" = Some expected →
      download_file remote url d size (Some h) w
      = download_file remote url d size (Some h') w)
  ∧ (∀ (t : Task) (h : dict) expected data,
      url_accepted t →
      urlopen_read remote (t_url t) = Some data →
      t_hashes t = Some h → h !! "sha512" = Some expected →
      sha512_hexdigest data ≠ expected →
      (∀ d w, ∃ m,
          download_file remote (t_url t) d (t_size t) (t_hashes t) w
          = (Ret false, {| inst := inst w; tmp := tmp w;
                           log := log w ++ [Fetch (t_url t); Echo m] |}))
      ∧ (∀ queue w, t ∈ queue →
          (∀ downloaded failed w',
              download_batch remote queue w = (Ret (downloaded, failed), w') →
              (downloaded + failed = length queue)%nat
              ∧ (1 ≤ failed)%nat
              ∧ (length (filter (sha512_differs remote) queue) ≤ failed)%nat)
          ∧ (Forall url_accepted queue →
              ∃ downloaded failed w',
                download_batch remote queue w = (Ret (downloaded, failed), w')))).
Proof.
  split.
  - intros url d size h h' expected w Hh Hh'. unfold download_file.
    destruct (request_accepts url); [|done]. mrun.
    destruct (urlopen_read remote url) as [data|]; [|done].
    destruct (size_mismatch size data); [done|].
    by rewrite (hash_mismatch_sha512 _ _ _ _ Hh), (hash_mismatch_sha512 _ _ _ _ Hh').
  - intros t h expected data Hacc Hdata Hh Hk Hne. split.
    + intros d w. apply (download_file_rejected remote _ _ _ _ data); [done..|].
      right. rewrite Hh, (hash_mismatch_sha512 _ _ _ _ Hk).
      rewrite bool_decide_eq_false_2 by done. eauto.
    + intros queue w Hin.
      assert (1 ≤ length (filter (sha512_differs remote) queue))%nat as Hone.
      { assert (t ∈ filter (sha512_differs remote) queue) as Hmem.
        { apply list_elem_of_filter. split; [|done]. exists h, expected, data. done. }
        destruct (filter (sha512_differs remote) queue); [inversion Hmem|].
        cbn [length]. lia. }
      split.
      * intros dl fl w' Hrun.
        destruct (download_batch_counts remote queue w)
          as (dl' & fl' & w1 & Hrun' & Hsum & Hbad);
          [by eapply download_batch_returns|].
        rewrite Hrun in Hrun'. injection Hrun' as <- <- <-.
        split_and!; [done|lia|done].
      * intros Hall.
        destruct (download_batch_counts remote queue w Hall)
          as (dl & fl & w' & Hrun & _). eauto.
Qed.

Lemma sha512_verification_witness :
  @url_accepted Sample.platform Sample.bad_task
  ∧ urlopen_read Sample.remote (t_url Sample.bad_task) = Some "xyz"
  ∧ t_hashes Sample.bad_task = Some {[ "sha512" := "512:good" ]}
  ∧ ({[ "sha512" := "512:good" ]} : dict) !! "sha512" = Some "512:good"
  ∧ @sha512_hexdigest Sample.platform "xyz" ≠ "512:good"
  ∧ Sample.bad_task ∈ [Sample.good_task; Sample.bad_task]
  ∧ Forall (@url_accepted Sample.platform) [Sample.good_task; Sample.bad_task]
  ∧ ∃ downloaded failed w',
      @download_batch Sample.platform Sample.remote
        [Sample.good_task; Sample.bad_task] Sample.world
      = (Ret (downloaded, failed), w')
      ∧ (downloaded + failed = 2)%nat ∧ (1 ≤ failed)%nat.
Proof.
  assert (@url_accepted Sample.platform Sample.bad_task) as H1
    by reflexivity.
  assert (urlopen_read Sample.remote (t_url Sample.bad_task) = Some "xyz") as H2
    by reflexivity.
  assert (t_hashes Sample.bad_task = Some {[ "sha512" := "512:good" ]}) as H3
    by reflexivity.
  assert (({[ "sha512" := "512:good" ]} : dict) !! "sha512" = Some "512:good")
    as H4 by (vm_compute; reflexivity).
  assert (@sha512_hexdigest Sample.platform "xyz" ≠ "512:good") as H5
    by (vm_compute; discriminate).
  assert (Sample.bad_task ∈ [Sample.good_task; Sample.bad_task]) as H6
    by (right; left).
  assert (Forall (@url_accepted Sample.platform)
            [Sample.good_task; Sample.bad_task]) as H7
    by (repeat constructor).
  repeat (split; [assumption|]).
  destruct (proj2 (@sha512_verification Sample.platform Sample.remote)
              Sample.bad_task _ _ _ H1 H2 H3 H4 H5) as [_ Hbatch].
  destruct (Hbatch _ Sample.world H6) as [Hcounted Hreturns].
  destruct (Hreturns H7) as (dl & fl & w' & Hrun).
  destruct (Hcounted _ _ _ Hrun) as (Hsum & Hone & _).
  exists dl, fl, w'. repeat split; assumption.
Defined.

(** C2. Hash verification: a payload whose [sha512] digest differs is
    rejected by the fetch, which returns [False] and writes nothing, but it
    is not always counted as failed.  When the request constructor rejects
    the URL of another queued task, the [ValueError] raised before the
    [try] of [_download_file] leaves the counting loop through
    [future.result()]: the batch yields no counts, so the rejected payload
    is in no failed count and no summary. *)
Theorem sha512_mismatch_uncounted `{Platform} (remote : Remote)
    (queue : list Task) (t : Task) (w : World) :
  t ∈ queue →
  url_accepted t →
  sha512_differs remote t →
  Exists (λ t', request_accepts (t_url t') = false) queue →
  (∀ d w0, ∃ m,
      download_file remote (t_url t) d (t_size t) (t_hashes t) w0
      = (Ret false, {| inst := inst w0; tmp := tmp w0;
                       log := log w0 ++ [Fetch (t_url t); Echo m] |}))
  ∧ ∃ w', download_batch remote queue w = (Raised ValueError, w').
Proof.
  intros _ Hacc (h & expected & data & Hh & Hk & Hdata & Hne) Hex. split.
  - intros d w0. apply (download_file_rejected remote _ _ _ _ data); [done..|].
    right. rewrite Hh, (hash_mismatch_sha512 _ _ _ _ Hk).
    rewrite bool_decide_eq_false_2 by done. eauto.
  - by apply download_batch_raises.
Qed.

Lemma sha512_mismatch_uncounted_witness :
  let queue := [Sample.bad_task; Sample.schemeless_task] in
  Sample.bad_task ∈ queue
  ∧ @url_accepted Sample.platform Sample.bad_task
  ∧ @sha512_differs Sample.platform Sample.remote Sample.bad_task
  ∧ Exists (λ t', @request_accepts Sample.platform (t_url t') = false) queue
  ∧ ∃ w', @download_batch Sample.platform Sample.remote queue Sample.world
          = (Raised ValueError, w').
Proof.
  intros queue.
  assert (Sample.bad_task ∈ queue) as H1 by left.
  assert (@url_accepted Sample.platform Sample.bad_task) as H2 by reflexivity.
  assert (@sha512_differs Sample.platform Sample.remote Sample.bad_task) as H3.
  { exists {[ "sha512" := "512:good" ]}, "512:good", "xyz".
    split_and!; [reflexivity|vm_compute; reflexivity|reflexivity
                |vm_compute; discriminate]. }
  assert (Exists (λ t', @request_accepts Sample.platform (t_url t') = false)
            queue) as H4 by (right; left; reflexivity).
  repeat (split; [assumption|]).
  exact (proj2 (@sha512_mismatch_uncounted Sample.platform Sample.remote queue
                  Sample.bad_task Sample.world H1 H2 H3 H4)).
Defined.

(** C3. Size verification at an expected size of zero: the check is not
    made.  A fetch with [expected_size = 0] behaves as one without expected
    size, and a three-byte payload declared with size zero is written to
    the destination with [True] returned. *)
Theorem size_zero_is_not_checked :
  (∀ `{Platform} (remote : Remote) url d hashes w,
      download_file remote url d (Some 0) hashes w
      = download_file remote url d None hashes w)
  ∧ ∃ w',
      @download_file Sample.platform Sample.remote "https://cdn/lithium.jar"
        (InMods "lithium.jar") (Some 0) None Sample.world = (Ret true, w')
      ∧ mods_entry w' "lithium.jar" = Some (File "abc").
Proof.
  split; [reflexivity|].
  eexists. split; [vm_compute; reflexivity|]. vm_compute. reflexivity.
Qed.

(** C5. Batch completeness fails when the request constructor rejects a
    queued URL: the [ValueError] raised before the [try] of
    [_download_file] is stored in the future and re-raised by
    [future.result()], so the counting loop is left and no counts exist. *)
Theorem batch_aborts_on_rejected_url `{Platform} (remote : Remote)
    (queue : list Task) (w : World) :
  Exists (λ t, request_accepts (t_url t) = false) queue →
  ∃ w', download_batch remote queue w = (Raised ValueError, w').
Proof. apply download_batch_raises. Qed.

Lemma batch_aborts_on_rejected_url_witness :
  Exists (λ t, @request_accepts Sample.platform (t_url t) = false)
    [Sample.good_task; Sample.schemeless_task; Sample.bad_task]
  ∧ ∃ w', @download_batch Sample.platform Sample.remote
            [Sample.good_task; Sample.schemeless_task; Sample.bad_task]
            Sample.world = (Raised ValueError, w').
Proof.
  assert (Exists (λ t, @request_accepts Sample.platform (t_url t) = false)
            [Sample.good_task; Sample.schemeless_task; Sample.bad_task]) as Hex
    by (right; left; reflexivity).
  split; [exact Hex|].
  exact (@batch_aborts_on_rejected_url Sample.platform Sample.remote _
           Sample.world Hex).
Defined.

(** ** Clean step *)

Section CleanProperties.

Context `{Platform}.
Variable cfg : Config.

Lemma clean_entry_cases keep name file :
  clean_entry cfg keep (name, file) =
    if removable cfg keep name file
    then unlink_mod name ;; print (MsgRemoved name)
    else if is_file file && bool_decide (PurePath.suffix name = ".jar")
         then print (MsgPreserving name) else ret tt.
Proof.
  unfold clean_entry, removable.
  destruct (is_file file && bool_decide (PurePath.suffix name = ".jar")); [|done].
  by destruct (keep && is_preserved cfg name).
Qed.

(** The loop of [clean_mods] over any listing: it ends, and an entry is
    gone exactly when the listing names it with a removable node. *)
Lemma clean_loop keep (l : list (string * node)) :
  ∀ w m0, inst w !! "mods" = Some (Dir m0) →
    ∃ w' m',
      for_each l (clean_entry cfg keep) w = (Ret tt, w')
      ∧ inst w' = <["mods" := Dir m']> (inst w)
      ∧ tmp w' = tmp w
      ∧ ∀ k, m' !! k =
             if decide (Exists (λ e, e.1 = k ∧ removable cfg keep e.1 e.2 = true) l)
             then None else m0 !! k.
Proof.
  induction l as [|[name file] l IH]; intros w m0 Hmods.
  - exists w, m0. cbn [for_each]. split_and!; [done| |done|].
    + by rewrite insert_id.
    + intros k. destruct (decide _) as [Hex|]; [inversion Hex|done].
  - cbn [for_each]. rewrite clean_entry_cases.
    destruct (removable cfg keep name file) eqn:Hrem.
    + unfold unlink_mod. mrun. rewrite Hmods. mrun.
      match goal with |- context [for_each l _ ?w1] => set (w1' := w1) end.
      destruct (IH w1' (delete name m0)) as (w' & m' & Hrun & Hinst & Htmp & Hlk).
      { subst w1'. cbn [inst]. apply lookup_insert_eq. }
      exists w', m'. rewrite Hrun. split_and!; [done| |done|].
      * rewrite Hinst. subst w1'. cbn [inst]. apply insert_insert_eq.
      * intros k. rewrite Hlk.
        destruct (decide (Exists _ l)) as [Hex|Hnex].
        -- rewrite decide_True by (by right). done.
        -- destruct (decide (name = k)) as [->|Hne].
           ++ rewrite decide_True by (by left). apply lookup_delete_eq.
           ++ rewrite lookup_delete_ne by done.
              rewrite decide_False; [done|].
              intros Hex. apply Exists_cons in Hex as [[? _]|?]; done.
    + assert (∃ w1, (if is_file file && bool_decide (PurePath.suffix name = ".jar")
                     then print (MsgPreserving name) else ret tt) w = (Ret tt, w1)
                    ∧ inst w1 = inst w ∧ tmp w1 = tmp w) as (w1 & Hstep & Hi1 & Ht1).
      { destruct (is_file file && _); mrun; eauto. }
      unfold bind. rewrite Hstep.
      destruct (IH w1 m0) as (w' & m' & Hrun & Hinst & Htmp & Hlk); [congruence|].
      exists w', m'. rewrite Hrun. split_and!; [done|congruence..|].
      intros k. rewrite Hlk.
      destruct (decide (Exists _ l)) as [Hex|Hnex].
      * rewrite decide_True by (by right). done.
      * rewrite decide_False; [done|].
        intros Hex. apply Exists_cons in Hex as [[<- ?]|?]; [|done].
        cbn [fst snd] in *. congruence.
Qed.

Lemma iterdir_lookup (d : gmap string node) (k : string) (n : node) :
  (k, n) ∈ iterdir d ↔ d !! k = Some n.
Proof. rewrite (iterdir_perm d). apply elem_of_map_to_list. Qed.

Lemma iterdir_NoDup (d : gmap string node) : NoDup (iterdir d).*1.
Proof. rewrite (iterdir_perm d). apply NoDup_fst_map_to_list. Qed.

(** [clean_mods] on an existing mods directory: it returns, and each entry
    is either removed (a removable node) or left as it was. *)
Lemma clean_mods_dir keep (w : World) (m : gmap string node) :
  inst w !! "mods" = Some (Dir m) →
  ∃ w' m',
    clean_mods cfg keep w = (Ret tt, w')
    ∧ inst w' = <["mods" := Dir m']> (inst w)
    ∧ tmp w' = tmp w
    ∧ ∀ k, m' !! k = cleaned cfg keep k (m !! k).
Proof.
  intros Hmods. unfold clean_mods. mrun. rewrite Hmods.
  destruct (clean_loop keep (iterdir m) w m Hmods)
    as (w1 & m' & Hrun & Hinst & Htmp & Hlk).
  unfold bind in *. rewrite Hrun. rewrite Hinst, lookup_insert_eq.
  assert (∀ k, m' !! k = cleaned cfg keep k (m !! k)) as Hlk'.
  { intros k. rewrite Hlk. unfold cleaned.
    destruct (decide _) as [Hex|Hnex].
    - apply Exists_exists in Hex as ([k' n] & Hin & <- & Hrem).
      apply iterdir_lookup in Hin. cbn [fst snd] in *.
      by rewrite Hin, Hrem.
    - destruct (m !! k) as [n|] eqn:Hk; [|done].
      destruct (removable cfg keep k n) eqn:Hrem; [|done].
      exfalso. apply Hnex, Exists_exists. exists (k, n).
      split; [|done]. by apply iterdir_lookup. }
  destruct (bool_decide (is_Some (m' !! "user"))); mrun;
    eexists _, m'; (split; [reflexivity|]); cbn [inst tmp]; by rewrite <- Hinst.
Qed.

End CleanProperties.

(** C7. Clean preservation.  On an existing mods directory the clean step
    of [install] returns; every entry present before whose name
    case-insensitively contains a preserved pattern is present after with
    the same content; and for either value of [keep_preserved] the entry
    [user] is what it was. *)
Theorem clean_preserves `{Platform} (cfg : Config) (w : World)
    (m : gmap string node) :
  inst w !! "mods" = Some (Dir m) →
  (∃ w' m',
      clean_mods cfg true w = (Ret tt, w')
      ∧ inst w' !! "mods" = Some (Dir m')
      ∧ ∀ name n, m !! name = Some n →
                  matches_some name (preserved_mods cfg) →
                  m' !! name = Some n)
  ∧ (∀ keep, ∃ w' m',
      clean_mods cfg keep w = (Ret tt, w')
      ∧ inst w' !! "mods" = Some (Dir m')
      ∧ m' !! "user" = m !! "user").
Proof.
  intros Hmods. split.
  - destruct (clean_mods_dir cfg true w m Hmods) as (w' & m' & Hrun & Hinst & _ & Hlk).
    exists w', m'. split_and!; [done|by rewrite Hinst, lookup_insert_eq|].
    intros name n Hn Hmatch. rewrite Hlk, Hn. unfold cleaned, removable.
    apply is_preserved_matches in Hmatch. rewrite Hmatch.
    by rewrite andb_true_l, andb_false_r.
  - intros keep.
    destruct (clean_mods_dir cfg keep w m Hmods) as (w' & m' & Hrun & Hinst & _ & Hlk).
    exists w', m'. split_and!; [done|by rewrite Hinst, lookup_insert_eq|].
    rewrite Hlk. unfold cleaned, removable.
    destruct (m !! "user") as [n|]; [|done].
    replace (bool_decide (PurePath.suffix "user" = ".jar")) with false
      by (vm_compute; reflexivity).
    by rewrite andb_false_r.
Qed.

Lemma clean_preserves_witness :
  inst Sample.world !! "mods" = Some (Dir Sample.mods)
  ∧ matches_some "Dynmap-3.jar" (preserved_mods Sample.cfg)
  ∧ ∃ w' m',
      @clean_mods Sample.platform Sample.cfg true Sample.world = (Ret tt, w')
      ∧ inst w' !! "mods" = Some (Dir m')
      ∧ m' !! "Dynmap-3.jar" = Some (File "D").
Proof.
  assert (inst Sample.world !! "mods" = Some (Dir Sample.mods)) as Hmods
    by (vm_compute; reflexivity).
  assert (matches_some "Dynmap-3.jar" (preserved_mods Sample.cfg)) as Hmatch.
  { exists "dynmap". split; [left|]. exists "", "-3.jar". reflexivity. }
  split; [exact Hmods|]. split; [exact Hmatch|].
  destruct (proj1 (@clean_preserves Sample.platform Sample.cfg Sample.world
                     Sample.mods Hmods)) as (w' & m' & Hrun & Hdir & Hkeep).
  exists w', m'. split; [exact Hrun|]. split; [exact Hdir|].
  apply Hkeep; [vm_compute; reflexivity|exact Hmatch].
Defined.

(** C10. The clean step touches only top-level [.jar] files.  Without a
    mods directory it changes nothing at all.  On an existing one it
    returns, changes no other entry of the instance directory, adds and
    alters no entry of the mods directory, leaves every directory and
    every file whose suffix is not [.jar] in place, and an entry that is
    gone was a regular file with suffix [.jar]. *)
Theorem clean_touches_only_jar_files `{Platform} (cfg : Config)
    (keep : bool) (w : World) :
  (inst w !! "mods" = None → clean_mods cfg keep w = (Ret tt, w))
  ∧ (∀ m, inst w !! "mods" = Some (Dir m) →
      ∃ w' m',
        clean_mods cfg keep w = (Ret tt, w')
        ∧ inst w' = <["mods" := Dir m']> (inst w)
        ∧ tmp w' = tmp w
        ∧ (∀ name n, m' !! name = Some n → m !! name = Some n)
        ∧ (∀ name n, m !! name = Some n →
             is_file n = false ∨ PurePath.suffix name ≠ ".jar" →
             m' !! name = Some n)
        ∧ (∀ name n, m !! name = Some n → m' !! name = None →
             ∃ data, n = File data ∧ PurePath.suffix name = ".jar")).
Proof.
  split.
  - intros Hnone. unfold clean_mods. mrun. by rewrite Hnone.
  - intros m Hmods.
    destruct (clean_mods_dir cfg keep w m Hmods) as (w' & m' & Hrun & Hinst & Htmp & Hlk).
    exists w', m'. split_and!; [done..| | |].
    + intros name n. rewrite Hlk. unfold cleaned.
      destruct (m !! name) as [n0|]; [|done]. by destruct (removable _ _ _ _).
    + intros name n Hn Hkind. rewrite Hlk, Hn. unfold cleaned, removable.
      destruct Hkind as [->|Hsuf]; [done|].
      by rewrite (bool_decide_eq_false_2 _ Hsuf), andb_false_r.
    + intros name n Hn. rewrite Hlk, Hn. unfold cleaned, removable.
      destruct n as [data|entries]; [|done]. cbn [is_file].
      destruct (bool_decide (PurePath.suffix name = ".jar")) eqn:Hsuf; [|done].
      apply bool_decide_eq_true in Hsuf. eauto.
Qed.

Lemma clean_touches_only_jar_files_witness :
  inst Sample.world !! "mods" = Some (Dir Sample.mods)
  ∧ ∃ w' m',
      @clean_mods Sample.platform Sample.cfg true Sample.world = (Ret tt, w')
      ∧ inst w' = <["mods" := Dir m']> (inst Sample.world)
      ∧ m' !! "notes.txt" = Some (File "N")
      ∧ m' !! "libs.jar" = Some (Dir {[ "a.jar" := File "A" ]}).
Proof.
  assert (inst Sample.world !! "mods" = Some (Dir Sample.mods)) as Hmods
    by (vm_compute; reflexivity).
  split; [exact Hmods|].
  destruct (proj2 (@clean_touches_only_jar_files Sample.platform Sample.cfg
                     true Sample.world) Sample.mods Hmods)
    as (w' & m' & Hrun & Hinst & _ & _ & Hkeep & _).
  exists w', m'. split; [exact Hrun|]. split; [exact Hinst|]. split.
  - apply Hkeep; [vm_compute; reflexivity|]. right. vm_compute. discriminate.
  - apply Hkeep; [vm_compute; reflexivity|]. left. reflexivity.
Defined.

(** ** Reasoning about runs *)

Lemma bind_inv {A B} (m : M A) (k : A → M B) w r w' :
  bind m k w = (r, w') →
  (∃ a w1, m w = (Ret a, w1) ∧ k a w1 = (r, w'))
  ∨ (∃ c, m w = (SysExit c, w') ∧ r = SysExit c)
  ∨ (∃ e, m w = (Raised e, w') ∧ r = Raised e).
Proof.
  unfold bind. destruct (m w) as [[a|c|e] w1]; intros Hk.
  - left. eauto.
  - right. left. injection Hk as <- <-. eauto.
  - right. right. injection Hk as <- <-. eauto.
Qed.

Section Phase.

Context (R : relation World) `{!PreOrder R}.

Lemma phase_ret {A} (Q : A → Prop) (a : A) : Q a → phase R Q (ret a).
Proof.
  intros Ha w r w' [= <- <-]. split_and!; [done|done|]. by intros ? [= <-].
Qed.

Lemma phase_raise {A} (Q : A → Prop) (e : exn) : phase R Q (raise e).
Proof. intros w r w' [= <- <-]. split_and!; done. Qed.

Lemma phase_get_inst (Q : gmap string node → Prop) :
  (∀ i, Q i) → phase R Q get_inst.
Proof.
  intros HQ w r w' [= <- <-]. split_and!; [done|done|]. by intros ? [= <-].
Qed.

Lemma phase_get_tmp (Q : gmap string string → Prop) :
  (∀ t, Q t) → phase R Q get_tmp.
Proof.
  intros HQ w r w' [= <- <-]. split_and!; [done|done|]. by intros ? [= <-].
Qed.

Lemma phase_bind {A B} (Q : A → Prop) (Q' : B → Prop) (m : M A) (k : A → M B) :
  phase R Q m → (∀ a, Q a → phase R Q' (k a)) → phase R Q' (bind m k).
Proof.
  intros Hm Hk w r w' Hrun.
  apply bind_inv in Hrun as [(a & w1 & H1 & H2)|[(c & H1 & ->)|(e & H1 & ->)]].
  - destruct (Hm _ _ _ H1) as (HR1 & _ & HQ).
    destruct (Hk a (HQ a eq_refl) _ _ _ H2) as (HR2 & Hne & HQ').
    split_and!; [by etrans|done..].
  - destruct (Hm _ _ _ H1) as (_ & Hne & _). by destruct (Hne c).
  - destruct (Hm _ _ _ H1) as (HR1 & _ & _). split_and!; done.
Qed.

Lemma phase_weaken {A} (Q Q' : A → Prop) (m : M A) :
  (∀ a, Q a → Q' a) → phase R Q m → phase R Q' m.
Proof.
  intros HQ Hm w r w' Hrun. destruct (Hm _ _ _ Hrun) as (HR & Hne & Ha).
  split_and!; [done..|]. intros a ->. apply HQ. by apply Ha.
Qed.

Lemma phase_for_each {A} (l : list A) (body : A → M unit) :
  (∀ x, x ∈ l → phase R (λ _, True) (body x)) →
  phase R (λ _, True) (for_each l body).
Proof.
  induction l as [|x l IH]; intros Hbody; cbn [for_each].
  - by apply phase_ret.
  - eapply phase_bind; [apply Hbody; left|].
    intros _ _. apply IH. intros y Hy. apply Hbody. by right.
Qed.

End Phase.

Lemma phase_and {A} (R1 R2 : relation World) (Q1 Q2 : A → Prop) (m : M A) :
  phase R1 Q1 m → phase R2 Q2 m →
  phase (λ w w', R1 w w' ∧ R2 w w') (λ a, Q1 a ∧ Q2 a) m.
Proof.
  intros H1 H2 w r w' Hrun.
  destruct (H1 _ _ _ Hrun) as (? & ? & ?), (H2 _ _ _ Hrun) as (? & _ & ?).
  split_and!; [done..|]. intros a ->. split; eauto.
Qed.

(** *** The log only grows, and the commit is not in what a phase adds *)

Global Instance log_grows_preorder P : PreOrder (log_grows P).
Proof.
  split.
  - intros w. exists []. by rewrite app_nil_r.
  - intros w1 w2 w3 (l1 & H1 & HP1) (l2 & H2 & HP2). exists (l1 ++ l2).
    split; [by rewrite H2, H1, app_assoc|by apply Forall_app].
Qed.

Section Emits.

Variable P : event → Prop.

Lemma emits_emit (e : event) : P e → emits P (emit e).
Proof.
  intros He w r w' [= <- <-]. split_and!; [|done..].
  exists [e]. split; [done|]. by constructor.
Qed.

Lemma emits_print (m : message) : P (Echo m) → emits P (print m).
Proof. apply emits_emit. Qed.

Lemma emits_set_inst i : emits P (set_inst i).
Proof.
  intros w r w' [= <- <-]. split_and!; [|done..].
  exists []. by rewrite app_nil_r.
Qed.

Lemma emits_set_tmp t : emits P (set_tmp t).
Proof.
  intros w r w' [= <- <-]. split_and!; [|done..].
  exists []. by rewrite app_nil_r.
Qed.

Lemma emits_ret {A} (a : A) : emits P (ret a).
Proof. by apply phase_ret; [apply _|]. Qed.

Lemma emits_raise {A} (e : exn) : emits P (@raise A e).
Proof. apply phase_raise, _. Qed.

Lemma emits_get_inst : emits P get_inst.
Proof. by apply phase_get_inst; [apply _|]. Qed.

Lemma emits_get_tmp : emits P get_tmp.
Proof. by apply phase_get_tmp; [apply _|]. Qed.

Lemma emits_bind {A B} (m : M A) (k : A → M B) :
  emits P m → (∀ a, emits P (k a)) → emits P (bind m k).
Proof.
  intros Hm Hk. eapply phase_bind; [apply _|exact Hm|]. intros a _. apply Hk.
Qed.

Lemma emits_for_each {A} (l : list A) (body : A → M unit) :
  (∀ x, emits P (body x)) → emits P (for_each l body).
Proof. intros Hbody. apply phase_for_each; [apply _|]. intros x _. apply Hbody. Qed.

End Emits.

(** Structural steps of an [emits] goal; [tac] proves [P] of an event. *)
Ltac emits_step tac :=
  lazymatch goal with
  | |- phase _ _ (ret _) => apply emits_ret
  | |- phase _ _ (raise _) => apply emits_raise
  | |- phase _ _ get_inst => apply emits_get_inst
  | |- phase _ _ get_tmp => apply emits_get_tmp
  | |- phase _ _ (set_inst _) => apply emits_set_inst
  | |- phase _ _ (set_tmp _) => apply emits_set_tmp
  | |- phase _ _ (print _) => apply emits_print; tac
  | |- phase _ _ (emit _) => apply emits_emit; tac
  | |- phase _ _ (bind _ _) => apply emits_bind; [|intros ?]
  | |- phase _ _ (for_each _ _) => apply emits_for_each; intros ?
  | |- phase _ _ (match ?x with _ => _ end) => destruct x
  end.

Ltac quiet_step := emits_step ltac:(by intros ?).

Section QuietPhases.

Context `{Platform}.
Variable cfg : Config.
Variable remote : Remote.

Lemma write_dest_log d data w :
  modelled_dest d →
  log_grows not_commit w (write_dest d data w).2.
Proof.
  intros Hd.
  assert (not_commit (WriteBytes d)) as Hw by (by intros v).
  assert (∀ i t, log_grows not_commit w
                   {| inst := i; tmp := t; log := log w ++ [WriteBytes d] |}) as Hlog.
  { intros i t. exists [WriteBytes d]. split; [done|]. by constructor. }
  assert (∀ i t, log_grows not_commit w {| inst := i; tmp := t; log := log w |})
    as Hsame.
  { intros i t. exists []. by rewrite app_nil_r. }
  unfold write_dest. destruct d as [f|f];
    [|cbn [modelled_dest] in Hd; rewrite Hd; apply Hlog].
  destruct (bool_decide (f = "" ∨ f = ".")).
  - destruct (inst w !! "mods") as [[|]|]; cbn [snd]; [apply Hlog|reflexivity|apply Hlog].
  - destruct (mkdir_mods (inst w)); cbn [snd]; [|reflexivity].
    destruct (_ || _); cbn [snd]; [apply Hsame|apply Hlog].
Qed.

Lemma download_file_quiet url d size hashes :
  modelled_dest d →
  quiet (download_file remote url d size hashes).
Proof.
  intros Hd. unfold download_file. destruct (request_accepts url); [|apply emits_raise].
  quiet_step; [quiet_step|].
  destruct (urlopen_read remote url) as [data|]; [|repeat quiet_step].
  destruct (size_mismatch size data); [repeat quiet_step|].
  destruct (hash_mismatch d hashes data); [repeat quiet_step|].
  intros w r w' Hrun. pose proof (write_dest_log d data w Hd) as Hlog.
  destruct (write_dest d data w) as [[] w1]; cbn [snd] in Hlog.
  - injection Hrun as <- <-. split_and!; done.
  - assert (quiet (print (MsgDownloadFailed d) ;; ret false)) as Hq
      by repeat quiet_step.
    destruct (Hq _ _ _ Hrun) as (Hl & Hne & _). split_and!; [by etrans|done..].
Qed.

Lemma run_pool_quiet (tasks : list Task) :
  ∀ w futures w1, run_pool remote tasks w = (futures, w1) →
    log_grows not_commit w w1 ∧ Forall (λ fut, ∀ c, fut.2 ≠ SysExit c) futures.
Proof.
  induction tasks as [|t rest IH]; intros w futures w1 Hrun; cbn [run_pool] in Hrun.
  - injection Hrun as <- <-. split; [reflexivity|constructor].
  - destruct (download_file remote _ _ _ _ w) as [r wt] eqn:Hdl.
    destruct (run_pool remote rest wt) as [futs wr] eqn:Hrest.
    injection Hrun as <- <-.
    destruct (download_file_quiet _ (InMods _) _ _ I _ _ _ Hdl) as (Hl & Hne & _).
    destruct (IH _ _ _ Hrest) as [Hl' Hfuts].
    split; [by etrans|]. by constructor.
Qed.

Lemma collect_quiet (futures : list (string * outcome bool)) :
  Forall (λ fut, ∀ c, fut.2 ≠ SysExit c) futures →
  ∀ downloaded failed, quiet (collect futures downloaded failed).
Proof.
  induction 1 as [|[filename r] rest Hr _ IH]; intros d f; cbn [collect].
  - apply emits_ret.
  - destruct r as [[]|c|e]; [repeat quiet_step; apply IH|apply IH| |apply emits_raise].
    by destruct (Hr c).
Qed.

Lemma download_batch_quiet (queue : list Task) :
  quiet (download_batch remote queue).
Proof.
  intros w r w' Hrun. unfold download_batch in Hrun.
  destruct (run_pool remote (as_completed queue) w) as [futs w1] eqn:Hpool.
  destruct (run_pool_quiet _ _ _ _ Hpool) as [Hl Hfuts].
  destruct (collect_quiet _ Hfuts _ _ _ _ _ Hrun) as (Hl' & Hne & _).
  split_and!; [by etrans|done..].
Qed.

Lemma clean_entry_quiet keep entry : quiet (clean_entry cfg keep entry).
Proof.
  destruct entry as [name file]. unfold clean_entry, unlink_mod.
  destruct (is_file file && _); [|apply emits_ret].
  destruct (keep && _); repeat quiet_step.
Qed.

Lemma clean_mods_quiet keep : quiet (clean_mods cfg keep).
Proof.
  unfold clean_mods. apply emits_bind; [apply emits_get_inst|]. intros i.
  destruct (i !! "mods") as [[data|m]|]; [apply emits_raise| |apply emits_ret].
  apply emits_bind; [apply emits_for_each, clean_entry_quiet|]. intros _.
  apply emits_bind; [apply emits_get_inst|]. intros i'.
  destruct (i' !! "mods") as [[|m']|]; [apply emits_ret| |apply emits_ret].
  destruct (bool_decide _); [apply emits_print; by intros ?|apply emits_ret].
Qed.

Lemma process_index_quiet (entries : list FileEntry) :
  ∀ q sc so, quiet (process_index cfg entries q sc so).
Proof.
  induction entries as [|e rest IH]; intros q sc so; cbn [process_index].
  - apply emits_ret.
  - destruct (negb _); [apply IH|].
    destruct (is_client_only _ _ _); [repeat quiet_step; apply IH|].
    destruct (fe_downloads e); [apply emits_raise|apply IH].
Qed.

Lemma copy2_to_mods_quiet name data : quiet (copy2_to_mods name data).
Proof. unfold copy2_to_mods. repeat quiet_step. Qed.

Lemma override_mods_loop_quiet (listing : list (string * node)) :
  ∀ om os, quiet (override_mods_loop cfg listing om os).
Proof.
  induction listing as [|[name [data|sub]] rest IH]; intros om os;
    cbn [override_mods_loop]; [apply emits_ret| |apply IH].
  destruct (bool_decide _); [|apply IH].
  destruct (is_client_only _ _ _).
  - repeat quiet_step. apply IH.
  - quiet_step; [apply copy2_to_mods_quiet|]. repeat quiet_step. apply IH.
Qed.

Lemma merge_item_quiet (entry : string * node) : quiet (merge_item entry).
Proof.
  destruct entry as [name item]. unfold merge_item.
  destruct (bool_decide _); [apply emits_ret|].
  destruct item; repeat quiet_step.
Qed.

Lemma merge_root_quiet src om os : quiet (merge_root cfg src om os).
Proof.
  unfold merge_root. destruct src as [[data|d]|]; [apply emits_raise| |apply emits_ret].
  quiet_step.
  - destruct (d !! "mods") as [[|mods]|];
      [apply emits_raise|apply override_mods_loop_quiet|apply emits_ret].
  - quiet_step; [|apply emits_ret].
    apply emits_for_each, merge_item_quiet.
Qed.

End QuietPhases.

(** *** Client-only names stay out of the mods directory *)

Section ClientOnlyFrame.

Context `{Platform}.
Variable cfg : Config.
Variable remote : Remote.

Global Instance never_installs_preorder : PreOrder (never_installs cfg).
Proof.
  split.
  - intros w k _. by right.
  - intros w1 w2 w3 H12 H23 k Hk.
    destruct (H23 k Hk) as [?|H3]; [by left|]. rewrite H3. by apply H12.
Qed.

Global Instance keeps_client_only_preorder : PreOrder (keeps_client_only cfg).
Proof.
  split.
  - by intros w k _.
  - intros w1 w2 w3 H12 H23 k Hk. by rewrite (H23 k Hk), (H12 k Hk).
Qed.

Lemma keeps_never w w' : keeps_client_only cfg w w' → never_installs cfg w w'.
Proof. intros Hk k Hc. right. by apply Hk. Qed.

Lemma same_mods_keeps w w' :
  inst w' !! "mods" = inst w !! "mods" → keeps_client_only cfg w w'.
Proof. intros Hm k _. unfold mods_entry. by rewrite Hm. Qed.

(** A name the pattern list rejects is rejected whatever the [env]. *)
Lemma is_client_only_no_env filename env :
  is_client_only cfg filename env = false →
  is_client_only cfg filename None = false.
Proof.
  unfold is_client_only. by destruct (match env with Some _ => _ | None => _ end).
Qed.

Lemma copy2_into_other data name d d' k :
  copy2_into data name d = Some d' → k ≠ name → d' !! k = d !! k.
Proof.
  unfold copy2_into. intros Hc Hk.
  destruct (d !! name) as [[|sub]|].
  - injection Hc as <-. by rewrite lookup_insert_ne.
  - destruct (sub !! name) as [[|]|]; [|done|];
      injection Hc as <-; by rewrite lookup_insert_ne.
  - injection Hc as <-. by rewrite lookup_insert_ne.
Qed.

Lemma write_dest_never f data w :
  is_client_only cfg f None = false →
  never_installs cfg w (write_dest (InMods f) data w).2.
Proof.
  intros Hf k Hk. assert (f ≠ k) as Hne by (intros ->; congruence).
  unfold write_dest, mkdir_mods, mods_entry.
  destruct (bool_decide (f = "" ∨ f = ".")).
  - destruct (inst w !! "mods") as [[|m]|] eqn:Hm; cbn [snd inst].
    + rewrite lookup_insert_eq. by left.
    + rewrite Hm. by right.
    + rewrite lookup_insert_eq. by left.
  - destruct (inst w !! "mods") as [[|m]|] eqn:Hm; cbn [snd inst].
    + rewrite Hm. by right.
    + rewrite Hm. destruct (_ || _); cbn [snd inst].
      * rewrite Hm. by right.
      * rewrite lookup_insert_eq, lookup_insert_ne by done. by right.
    + rewrite lookup_insert_eq. destruct (_ || _); cbn [snd inst].
      * rewrite lookup_insert_eq, lookup_empty. by left.
      * rewrite lookup_insert_eq, lookup_insert_ne, lookup_empty by done. by left.
Qed.

(** Whatever a fetch changes of the instance directory, [write_dest] did. *)
Lemma download_file_inst url d size hashes w r w' :
  modelled_dest d →
  download_file remote url d size hashes w = (r, w') →
  inst w' = inst w ∨ ∃ data, inst w' = inst (write_dest d data w).2.
Proof.
  intros Hd. unfold download_file. destruct (request_accepts url); [|intros [= <- <-]; by left].
  mrun. destruct (urlopen_read remote url) as [data|]; [|intros [= <- <-]; by left].
  destruct (size_mismatch size data); [intros [= <- <-]; by left|].
  destruct (hash_mismatch d hashes data); [intros [= <- <-]; by left|].
  match goal with |- context [write_dest d data ?w1] => set (w1' := w1) end.
  assert (inst (write_dest d data w1').2 = inst (write_dest d data w).2) as Hsame.
  { subst w1'. unfold write_dest. destruct d as [f|f];
      [|cbn [modelled_dest] in Hd; by rewrite Hd]. cbn [inst].
    destruct (bool_decide _).
    - by destruct (inst w !! "mods") as [[|]|].
    - destruct (mkdir_mods (inst w)); [|done]. by destruct (_ || _). }
  destruct (write_dest d data w1') as [[] w2]; cbn [snd] in Hsame;
    intros [= <- <-]; right; exists data; done.
Qed.

Lemma download_file_never url f size hashes w r w' :
  is_client_only cfg f None = false →
  download_file remote url (InMods f) size hashes w = (r, w') →
  never_installs cfg w w'.
Proof.
  intros Hf Hrun. apply download_file_inst in Hrun as [Hi|[data Hi]]; [| |exact I].
  - apply keeps_never, same_mods_keeps. by rewrite Hi.
  - pose proof (write_dest_never f data w Hf) as Hn.
    intros k Hk. specialize (Hn k Hk). unfold mods_entry in *. by rewrite Hi.
Qed.

Lemma run_pool_never (tasks : list Task) :
  Forall (λ t, is_client_only cfg (t_filename t) None = false) tasks →
  ∀ w futures w1, run_pool remote tasks w = (futures, w1) →
    never_installs cfg w w1.
Proof.
  induction 1 as [|t rest Ht _ IH]; intros w futures w1 Hrun; cbn [run_pool] in Hrun.
  - injection Hrun as <- <-. reflexivity.
  - destruct (download_file remote _ _ _ _ w) as [r wt] eqn:Hdl.
    destruct (run_pool remote rest wt) as [futs wr] eqn:Hrest.
    injection Hrun as <- <-.
    etrans; [by eapply download_file_never|by eapply IH].
Qed.

Lemma collect_inst (futures : list (string * outcome bool)) :
  ∀ downloaded failed w r w',
    collect futures downloaded failed w = (r, w') → inst w' = inst w.
Proof.
  induction futures as [|[filename res] rest IH]; intros d f w r w'; cbn [collect].
  - by intros [= <- <-].
  - destruct res as [[]|c|e]; [|apply IH|by intros [= <- <-]..].
    mrun. intros Hrun. by apply IH in Hrun.
Qed.

Lemma download_batch_never (queue : list Task) w r w' :
  Forall (λ t, is_client_only cfg (t_filename t) None = false) queue →
  download_batch remote queue w = (r, w') → never_installs cfg w w'.
Proof.
  intros Hq Hrun. unfold download_batch in Hrun.
  destruct (run_pool remote (as_completed queue) w) as [futs w1] eqn:Hpool.
  rewrite <- (as_completed_perm queue) in Hq.
  pose proof (run_pool_never _ Hq _ _ _ Hpool) as Hn.
  apply collect_inst in Hrun. intros k Hk. specialize (Hn k Hk).
  unfold mods_entry in *. by rewrite Hrun.
Qed.

End ClientOnlyFrame.

(** ** Manifest classification and override merge *)

Section MergeProperties.

Context `{Platform}.
Variable cfg : Config.

(** The classification loop changes no file, queues only names the
    client-only decision rejects, and prints the skip of every mod entry
    the decision accepts. *)
Lemma process_index_run (entries : list FileEntry) :
  ∀ q sc so w r w', process_index cfg entries q sc so w = (r, w') →
    inst w' = inst w ∧ tmp w' = tmp w
    ∧ ∀ q' sc' so', r = Ret (q', sc', so') →
        (∀ t, t ∈ q' →
           t ∈ q ∨ is_client_only cfg (t_filename t) None = false)
        ∧ (∀ e, e ∈ entries →
             Str.startswith (fe_path e) "mods/" = true →
             is_client_only cfg (PurePath.name (fe_path e))
               (get_or_empty (fe_env e)) = true →
             Echo (MsgSkipClient (PurePath.name (fe_path e))) ∈ log w')
        ∧ ∃ l, log w' = log w ++ l.
Proof.
  induction entries as [|e rest IH]; intros q sc so w r w'; cbn [process_index].
  - intros [= <- <-]. split_and!; [done..|]. intros q' sc' so' [= <- <- <-].
    split_and!; [by left| |exists []; by rewrite app_nil_r].
    intros e He. inversion He.
  - destruct (Str.startswith (fe_path e) "mods/") eqn:Hmods; cbn [negb].
    + destruct (is_client_only cfg _ _) eqn:Hclient.
      * mrun. intros Hrun. apply IH in Hrun as (Hi & Ht & Hq).
        split_and!; [done..|]. intros q' sc' so' ->.
        destruct (Hq _ _ _ eq_refl) as (Hqueue & Hskip & l & Hl).
        cbn [log] in Hl. split_and!; [done| |].
        -- intros e' He'. apply elem_of_cons in He' as [->|He']; [|by apply Hskip].
           intros _ _. rewrite Hl, <- app_assoc. apply elem_of_app. right. by left.
        -- rewrite Hl, <- app_assoc. eauto.
      * destruct (fe_downloads e) as [|url urls].
        { intros [= <- <-]. split_and!; done. }
        intros Hrun. apply IH in Hrun as (Hi & Ht & Hq).
        split_and!; [done..|]. intros q' sc' so' ->.
        destruct (Hq _ _ _ eq_refl) as (Hqueue & Hskip & Hl).
        split_and!; [| |done].
        -- intros t Hin. destruct (Hqueue t Hin) as [Hold|?]; [|by right].
           apply elem_of_app in Hold as [?|Hnew]; [by left|].
           apply list_elem_of_singleton in Hnew as ->. right. cbn [t_filename].
           by eapply is_client_only_no_env.
        -- intros e' He'. apply elem_of_cons in He' as [->|He']; [|by apply Hskip].
           congruence.
    + intros Hrun. apply IH in Hrun as (Hi & Ht & Hq).
      split_and!; [done..|]. intros q' sc' so' ->.
      destruct (Hq _ _ _ eq_refl) as (Hqueue & Hskip & Hl).
      split_and!; [done| |done].
      intros e' He'. apply elem_of_cons in He' as [->|He']; [|by apply Hskip].
      congruence.
Qed.

Lemma copy2_to_mods_keeps name data :
  is_client_only cfg name None = false →
  phase (keeps_client_only cfg) (λ _, True) (copy2_to_mods name data).
Proof.
  intros Hname w r w'. unfold copy2_to_mods. mrun.
  destruct (inst w !! "mods") as [[|m]|] eqn:Hm;
    [intros [= <- <-]; split_and!; done| |intros [= <- <-]; split_and!; done].
  destruct (copy2_into data name m) as [m'|] eqn:Hc;
    [|intros [= <- <-]; split_and!; done].
  intros [= <- <-]. split_and!; [|done..].
  intros k Hk. unfold mods_entry. cbn [inst]. rewrite lookup_insert_eq, Hm.
  eapply copy2_into_other; [done|]. intros ->. congruence.
Qed.

Lemma keeps_print (m : message) :
  phase (keeps_client_only cfg) (λ _, True) (print m).
Proof. intros w r w' [= <- <-]. split_and!; done. Qed.

Lemma override_mods_loop_keeps (listing : list (string * node)) :
  ∀ om os,
    phase (keeps_client_only cfg) (λ _, True)
      (override_mods_loop cfg listing om os).
Proof.
  induction listing as [|[name [data|sub]] rest IH]; intros om os;
    cbn [override_mods_loop]; [by apply phase_ret; [apply _|]| |apply IH].
  destruct (bool_decide _); [|apply IH].
  destruct (is_client_only cfg name None) eqn:Hclient.
  - eapply phase_bind; [apply _|apply keeps_print|]. intros _ _. apply IH.
  - eapply phase_bind; [apply _|by apply copy2_to_mods_keeps|]. intros _ _.
    eapply phase_bind; [apply _|apply keeps_print|]. intros _ _. apply IH.
Qed.

(** An entry other than [mods] leaves the mods directory alone. *)
Lemma merge_item_mods (entry : string * node) w r w' :
  merge_item entry w = (r, w') →
  inst w' !! "mods" = inst w !! "mods" ∧ ∀ c, r ≠ SysExit c.
Proof.
  destruct entry as [name item]. unfold merge_item.
  destruct (bool_decide (name = "mods")) eqn:Hname; [by intros [= <- <-]|].
  apply bool_decide_eq_false in Hname. mrun. destruct item as [data|sub].
  - destruct (copy2_into data name (inst w)) as [i'|] eqn:Hc;
      intros [= <- <-]; [|done]. cbn [inst]. split; [|done].
    by eapply copy2_into_other.
  - destruct (inst w !! name) as [[|old]|]; intros [= <- <-]; cbn [inst];
      (split; [|done]); rewrite ?lookup_insert_ne, ?lookup_delete_ne by done; done.
Qed.

Lemma merge_item_keeps (entry : string * node) :
  phase (keeps_client_only cfg) (λ _, True) (merge_item entry).
Proof.
  intros w r w' Hrun. apply merge_item_mods in Hrun as [Hm Hne].
  split_and!; [by apply same_mods_keeps|done..].
Qed.

(** An override root copies nothing under a client-only name. *)
Lemma merge_root_keeps src om os :
  phase (keeps_client_only cfg) (λ _, True) (merge_root cfg src om os).
Proof.
  unfold merge_root.
  destruct src as [[data|d]|];
    [apply phase_raise, _| |by apply phase_ret; [apply _|]].
  eapply phase_bind with (Q := λ _, True); [apply _| |].
  - destruct (d !! "mods") as [[|mods]|];
      [apply phase_raise, _|apply override_mods_loop_keeps
      |by apply phase_ret; [apply _|]].
  - intros counts _. eapply phase_bind with (Q := λ _, True); [apply _| |].
    + apply phase_for_each; [apply _|]. intros x _. apply merge_item_keeps.
    + intros _ _. by apply phase_ret; [apply _|].
Qed.

End MergeProperties.

(** ** SyncEngine *)

Section SyncProperties.

Context `{Platform}.
Variable cfg : Config.
Variable remote : Remote.

Global Instance before_commit_preorder : PreOrder (before_commit cfg).
Proof.
  split.
  - intros w. split; reflexivity.
  - intros w1 w2 w3 [? ?] [? ?]. split; by etrans.
Qed.

Lemma before_commit_intro {A} (m : M A) (Q : A → Prop) :
  quiet m →
  (∀ w r w', m w = (r, w') →
     never_installs cfg w w' ∧ ∀ a, r = Ret a → Q a) →
  phase (before_commit cfg) Q m.
Proof.
  intros Hq Hn w r w' Hrun.
  destruct (Hq _ _ _ Hrun) as (Hl & Hne & _), (Hn _ _ _ Hrun) as [Hni HQ].
  split_and!; [by split|done..].
Qed.

Lemma ensure_mods_dir_phase : phase (before_commit cfg) (λ _, True) ensure_mods_dir.
Proof.
  apply before_commit_intro.
  - unfold ensure_mods_dir. repeat quiet_step.
  - intros w r w'. unfold ensure_mods_dir, mkdir_mods. mrun.
    destruct (inst w !! "mods") as [[|m]|] eqn:Hm; intros [= <- <-];
      (split; [|done]).
    + reflexivity.
    + apply keeps_never, same_mods_keeps. done.
    + intros k _. left. unfold mods_entry. cbn [inst].
      by rewrite lookup_insert_eq, lookup_empty.
Qed.

Lemma clean_mods_phase keep : phase (before_commit cfg) (λ _, True) (clean_mods cfg keep).
Proof.
  apply before_commit_intro; [apply clean_mods_quiet|].
  intros w r w' Hrun. split; [|done].
  destruct (inst w !! "mods") as [[data|m]|] eqn:Hm.
  - unfold clean_mods in Hrun. mrun in Hrun. rewrite Hm in Hrun.
    injection Hrun as <- <-. reflexivity.
  - destruct (clean_mods_dir cfg keep w m Hm) as (w1 & m' & Hrun' & Hi & _ & Hlk).
    rewrite Hrun' in Hrun. injection Hrun as <- <-.
    intros k _. unfold mods_entry. rewrite Hi, lookup_insert_eq, Hm, Hlk.
    unfold cleaned. destruct (m !! k); [|by left].
    destruct (removable _ _ _ _); [by left|by right].
  - unfold clean_mods in Hrun. mrun in Hrun. rewrite Hm in Hrun.
    injection Hrun as <- <-. reflexivity.
Qed.

Lemma process_index_phase (index : list FileEntry) :
  phase (before_commit cfg)
    (λ '(q, _, _), Forall (λ t, is_client_only cfg (t_filename t) None = false) q)
    (process_index cfg index [] 0%nat 0%nat).
Proof.
  apply before_commit_intro.
  - intros w r w' Hrun.
    destruct (process_index_quiet cfg _ _ _ _ _ _ _ Hrun) as (? & ? & _). done.
  - intros w r w' Hrun. apply process_index_run in Hrun as (Hi & _ & Hq).
    split; [apply keeps_never, same_mods_keeps; by rewrite Hi|].
    intros [[q sc] so] ->. destruct (Hq _ _ _ eq_refl) as (Hqueue & _).
    apply Forall_forall. intros t Ht.
    destruct (Hqueue t Ht) as [Hnil|?]; [inversion Hnil|done].
Qed.

Lemma download_batch_phase (queue : list Task) :
  Forall (λ t, is_client_only cfg (t_filename t) None = false) queue →
  phase (before_commit cfg) (λ _, True) (download_batch remote queue).
Proof.
  intros Hq. apply before_commit_intro; [apply download_batch_quiet|].
  intros w r w' Hrun. split; [|done]. by eapply download_batch_never.
Qed.

Lemma merge_root_phase src om os :
  phase (before_commit cfg) (λ _, True) (merge_root cfg src om os).
Proof.
  apply before_commit_intro; [apply merge_root_quiet|].
  intros w r w' Hrun. split; [|done].
  apply keeps_never. by eapply merge_root_keeps.
Qed.

(** The commit and the summary, the last two steps of the sync. *)
Lemma commit_run version_id (m : message) w r w' :
  (save_version version_id ;; print m) w = (r, w') →
  (r = Raised IsADirectoryError ∧ w' = w)
  ∨ (r = Ret tt
     ∧ inst w' = <[version_file := File version_id]> (inst w)
     ∧ log w' = log w ++ [SaveVersion version_id; Echo m]).
Proof.
  unfold save_version. mrun.
  destruct (inst w !! version_file) as [[|]|]; intros [= <- <-];
    [right|by left|right]; cbn [inst log]; by rewrite <- app_assoc.
Qed.

(** A run of the part of [install] after the index is parsed. *)
Lemma sync_run version_id version_num extract_dir index w r w' :
  sync cfg remote version_id version_num extract_dir index w = (r, w') →
  never_installs cfg w w'
  ∧ ∃ l, log w' = log w ++ l ∧ committed_last version_id version_num r l w'.
Proof.
  assert (∀ A (m : M A) (Q : A → Prop) (k : A → M unit) w r w',
            phase (before_commit cfg) Q m →
            (∀ a w1, Q a → k a w1 = (r, w') →
               never_installs cfg w1 w'
               ∧ ∃ l, log w' = log w1 ++ l
                      ∧ committed_last version_id version_num r l w') →
            bind m k w = (r, w') →
            never_installs cfg w w'
            ∧ ∃ l, log w' = log w ++ l
                   ∧ committed_last version_id version_num r l w') as Hstep.
  { intros A m Q k w0 r0 w0' Hm Hk Hrun.
    apply bind_inv in Hrun as [(a & w1 & H1 & H2)|[(c & H1 & ->)|(e & H1 & ->)]].
    - destruct (Hm _ _ _ H1) as ([(l1 & Hl1 & Hnc1) Hn1] & _ & HQ).
      destruct (Hk a w1 (HQ a eq_refl) H2) as (Hn2 & l2 & Hl2 & Hpost).
      split; [by etrans|]. exists (l1 ++ l2).
      split; [by rewrite Hl2, Hl1, app_assoc|].
      destruct r0 as [[]|c|e]; cbn [committed_last] in *; [|done|by apply Forall_app].
      destruct Hpost as (pre & d & om & sc & so & f & -> & Hpre & Hv).
      exists (l1 ++ pre), d, om, sc, so, f.
      split_and!; [by rewrite app_assoc|by apply Forall_app|done].
    - destruct (Hm _ _ _ H1) as (_ & Hne & _). by destruct (Hne c).
    - destruct (Hm _ _ _ H1) as ([(l1 & Hl1 & Hnc1) Hn1] & _ & _).
      split; [done|]. exists l1. done. }
  unfold sync. intros Hrun.
  eapply Hstep in Hrun; [exact Hrun|apply ensure_mods_dir_phase|].
  clear Hrun w. intros _ w _ Hrun.
  eapply Hstep in Hrun; [exact Hrun|apply (clean_mods_phase true)|].
  clear Hrun w. intros _ w _ Hrun.
  eapply Hstep in Hrun; [exact Hrun|apply process_index_phase|].
  clear Hrun w. intros [[queue sc] so] w Hqueue Hrun.
  eapply Hstep in Hrun; [exact Hrun|by apply download_batch_phase|].
  clear Hrun w. intros [downloaded failed] w _ Hrun.
  eapply Hstep in Hrun; [exact Hrun|apply merge_root_phase|].
  clear Hrun w. intros [om1 os1] w _ Hrun.
  eapply Hstep in Hrun; [exact Hrun|apply merge_root_phase|].
  clear Hrun w. intros [om os] w _ Hrun.
  apply commit_run in Hrun as [[-> ->]|(-> & Hi & Hl)].
  - split; [reflexivity|]. exists []. split; [by rewrite app_nil_r|constructor].
  - split.
    + apply keeps_never, same_mods_keeps. by rewrite Hi, lookup_insert_ne.
    + eexists. split; [exact Hl|]. exists [], downloaded, om, (sc + os)%nat, so, failed.
      split_and!; [done|constructor|]. by rewrite Hi, lookup_insert_eq.
Qed.

Lemma download_archive_run url f w r w' :
  plain_name f = true →
  download_file remote url (InTmp f) None None w = (r, w') →
  inst w' = inst w ∧ log_grows not_commit w w' ∧ ∀ c, r ≠ SysExit c.
Proof.
  intros Hf Hrun.
  destruct (download_file_quiet remote _ (InTmp f) _ _ Hf _ _ _ Hrun)
    as (Hl & Hne & _).
  split_and!; [|done..].
  apply download_file_inst in Hrun as [?|[data Hi]]; [done| |exact Hf].
  cbn [write_dest] in Hi. by rewrite Hf in Hi.
Qed.

(** A run of the block that fetches, extracts and installs the archive. *)
Lemma install_archive_run latest mrpack_file w r w' :
  plain_name (vf_filename mrpack_file) = true →
  install_archive cfg remote latest mrpack_file w = (r, w') →
  never_installs cfg w w'
  ∧ ∃ l, log w' = log w ++ l ∧ full_sync_shape latest w r l w'.
Proof.
  unfold install_archive. intros Hplain Hrun.
  apply bind_inv in Hrun as [(ok & w1 & H1 & H2)|[(c & H1 & ->)|(e & H1 & ->)]];
    apply (download_archive_run _ _ _ _ _ Hplain) in H1
      as (Hi1 & (l1 & Hl1 & Hnc1) & Hne1);
    [|by destruct (Hne1 c)|].
  2:{ split; [apply keeps_never, same_mods_keeps; by rewrite Hi1|]. by exists l1. }
  assert (never_installs cfg w w1) as Hn1
    by (apply keeps_never, same_mods_keeps; by rewrite Hi1).
  destruct ok; cbn [negb] in H2.
  2:{ injection H2 as <- <-. split; [done|]. exists l1. done. }
  unfold extract in H2. rewrite Hplain in H2. mrun in H2.
  destruct (tmp w1 !! vf_filename mrpack_file) as [data|].
  2:{ injection H2 as <- <-. split; [done|]. exists l1. done. }
  destruct (extractall data) as [tree|].
  2:{ injection H2 as <- <-. split; [done|]. exists l1. done. }
  destruct (tree !! "modrinth.index.json") as [[text|sub]|].
  - destruct (json_load text) as [index|].
    2:{ injection H2 as <- <-. split; [done|]. exists l1. done. }
    apply sync_run in H2 as (Hn2 & l2 & Hl2 & Hpost).
    split; [by etrans|]. exists (l1 ++ l2). split; [by rewrite Hl2, Hl1, app_assoc|].
    destruct r as [[]|c|e]; cbn [full_sync_shape committed_last] in *;
      [|done|by apply Forall_app].
    destruct Hpost as (pre & d & om & sc & so & f & -> & Hpre & Hv).
    exists (l1 ++ pre), d, om, sc, so, f.
    split_and!; [by rewrite app_assoc|by apply Forall_app|done].
  - injection H2 as <- <-. split; [done|]. exists l1. done.
  - injection H2 as <- <-. split; [done|]. cbn [inst log].
    exists (l1 ++ [Echo MsgMissingIndex]). rewrite Hl1, app_assoc.
    split; [done|]. cbn [full_sync_shape inst]. split_and!; [done|exact Hi1|].
    apply Forall_app. split; [done|].
    constructor; [by intros v|constructor].
Qed.

(** A run of [install] past the version comparison. *)
Lemma full_sync_run latest w r w' :
  (∀ f, List.find (fun f => Str.endswith (vf_filename f) ".mrpack")
          (v_files latest) = Some f → plain_name (vf_filename f) = true) →
  full_sync cfg remote latest w = (r, w') →
  never_installs cfg w w'
  ∧ ∃ l, log w' = log w ++ l ∧ full_sync_shape latest w r l w'.
Proof.
  intros Hplain. unfold full_sync. mrun.
  destruct (List.find _ (v_files latest)) as [mrpack_file|].
  - specialize (Hplain mrpack_file eq_refl).
    unfold with_tmpdir. cbn [inst log].
    match goal with |- context [install_archive _ _ _ _ ?w0] => set (w0' := w0) end.
    destruct (install_archive cfg remote latest mrpack_file w0') as [r1 w1] eqn:Hbody.
    intros [= <- <-].
    apply (install_archive_run _ _ _ _ _ Hplain) in Hbody as (Hn & l & Hl & Hshape).
    subst w0'. cbn [inst log] in *. split; [exact Hn|].
    exists (Echo (MsgInstalling (v_version_number latest)) :: l).
    split; [by rewrite Hl, <- app_assoc|].
    assert (not_commit (Echo (MsgInstalling (v_version_number latest)))) as Hp
      by (by intros v).
    destruct r1 as [[]|c|e]; cbn [full_sync_shape committed_last] in *.
    + destruct Hshape as (pre & d & om & sc & so & f & -> & Hpre & Hv).
      exists (Echo (MsgInstalling (v_version_number latest)) :: pre), d, om, sc, so, f.
      split_and!; [done|by constructor|done].
    + destruct Hshape as (-> & Hi & Hnc). split_and!; [done..|by constructor].
    + by constructor.
  - intros [= <- <-]. cbn [inst log].
    split; [by apply keeps_never, same_mods_keeps|].
    eexists. rewrite <- app_assoc. split; [reflexivity|].
    cbn [full_sync_shape]. split_and!; [done..|].
    repeat constructor; by intros v.
Qed.

(** A run of [install]. *)
Lemma install_run force w r w' :
  plain_archive remote →
  install cfg remote force w = (r, w') →
  never_installs cfg w w'
  ∧ ∃ l, log w' = log w ++ l ∧ install_shape remote force w r l w'.
Proof.
  intros Hplain.
  assert (∀ latest rest w0,
            api_versions remote = Some (latest :: rest) →
            inst w0 = inst w → log w0 = log w ++ [ApiRequest] →
            full_sync cfg remote latest w0 = (r, w') →
            never_installs cfg w w'
            ∧ ∃ l, log w' = log w ++ l ∧ install_shape remote force w r l w')
    as Hfull.
  { intros latest rest w0 Hapi Hi0 Hl0 Hrun.
    apply full_sync_run in Hrun as (Hn & l & Hl & Hshape);
      [|intros f Hfind; by eapply Hplain].
    split.
    - intros k Hk. specialize (Hn k Hk). unfold mods_entry in *. by rewrite <- Hi0.
    - exists (ApiRequest :: l). split; [by rewrite Hl, Hl0, <- app_assoc|].
      assert (not_commit ApiRequest) as Hp by (by intros v).
      destruct r as [[]|c|e]; cbn [install_shape full_sync_shape committed_last] in *.
      + exists latest, rest. split; [done|]. right.
        destruct Hshape as (pre & d & om & sc & so & f & -> & Hpre & Hv).
        exists (ApiRequest :: pre), d, om, sc, so, f.
        split_and!; [done|by constructor|done].
      + destruct Hshape as (-> & Hi & Hnc). split_and!; [done|congruence|by constructor].
      + by constructor. }
  unfold install, get_latest_version, api_request, get_installed_version. mrun.
  destruct (api_versions remote) as [[|latest rest]|] eqn:Hapi; cbn [inst tmp log].
  - intros Hrun. inversion Hrun; subst; clear Hrun.
    split; [by apply keeps_never, same_mods_keeps|].
    eexists. cbn [log]. rewrite <- app_assoc. split; [reflexivity|].
    cbn [install_shape inst]. split_and!; [done..|]. repeat constructor; by intros v.
  - destruct (inst w !! version_file) as [[text|sub]|] eqn:Hv; cbn [inst tmp log].
    + destruct (bool_decide (Some (Str.strip (Str.universal_newlines text))
                             = Some (v_id latest)) && negb force) eqn:Hc.
      * intros Hrun. inversion Hrun; subst; clear Hrun.
        split; [by apply keeps_never, same_mods_keeps|].
        eexists. cbn [log]. rewrite <- !app_assoc. split; [reflexivity|].
        cbn [install_shape inst]. exists latest, rest. split; [done|]. left.
        apply andb_true_iff in Hc as [_ Hf]. apply negb_true_iff in Hf. done.
      * intros Hrun. refine (Hfull latest rest _ eq_refl _ _ Hrun); done.
    + intros Hrun. inversion Hrun; subst; clear Hrun.
      split; [by apply keeps_never, same_mods_keeps|].
      exists [ApiRequest]. split; [done|]. repeat constructor. by intros v.
    + rewrite bool_decide_eq_false_2 by done. cbn [andb].
      intros Hrun. refine (Hfull latest rest _ eq_refl _ _ Hrun); done.
  - intros Hrun. inversion Hrun; subst; clear Hrun.
    split; [by apply keeps_never, same_mods_keeps|].
    eexists. cbn [log]. rewrite <- app_assoc. split; [reflexivity|].
    cbn [install_shape inst]. split_and!; [done..|]. repeat constructor; by intros v.
Qed.

End SyncProperties.

(** ** OverrideMerger *)

Section OverrideProperties.

Context `{Platform}.
Variable cfg : Config.

(** An override entry changes the instance directory under its own name
    only. *)
Lemma merge_item_other (entry : string * node) k w r w' :
  merge_item entry w = (r, w') → k ≠ entry.1 → inst w' !! k = inst w !! k.
Proof.
  destruct entry as [name item]. unfold merge_item. cbn [fst]. intros Hrun Hk.
  destruct (bool_decide (name = "mods")); [by injection Hrun as <- <-|].
  mrun in Hrun. destruct item as [data|sub].
  - destruct (copy2_into data name (inst w)) as [i'|] eqn:Hc;
      injection Hrun as <- <-; [|done]. cbn [inst]. by eapply copy2_into_other.
  - destruct (inst w !! name) as [[|old]|]; injection Hrun as <- <-; cbn [inst];
      rewrite ?lookup_insert_ne, ?lookup_delete_ne by done; done.
Qed.

Lemma merge_items_other (l : list (string * node)) k :
  k ∉ l.*1 →
  ∀ w r w', for_each l merge_item w = (r, w') → inst w' !! k = inst w !! k.
Proof.
  induction l as [|entry l IH]; intros Hk w r w'; cbn [for_each].
  - by intros [= <- <-].
  - rewrite fmap_cons, not_elem_of_cons in Hk. destruct Hk as [Hne Hk].
    intros Hrun.
    apply bind_inv in Hrun as [(a & w1 & H1 & H2)|[(c & H1 & ->)|(e & H1 & ->)]].
    + rewrite (IH Hk _ _ _ H2). by eapply merge_item_other.
    + by eapply merge_item_other.
    + by eapply merge_item_other.
Qed.

(** One directory entry of an override root: an existing target directory
    is removed, then the override directory is copied; a regular file in
    its place makes [shutil.rmtree] raise. *)
Lemma merge_dir_item (name : string) (sub : gmap string node) (w : World) :
  name ≠ "mods" →
  merge_item (name, Dir sub) w =
    match inst w !! name with
    | Some (Dir _) =>
        (Ret tt, {| inst := <[name := Dir sub]> (inst w); tmp := tmp w;
                    log := log w ++ [RmTree name; CopyTree name;
                                     Echo (MsgOverride name)] |})
    | Some (File _) => (Raised NotADirectoryError, w)
    | None =>
        (Ret tt, {| inst := <[name := Dir sub]> (inst w); tmp := tmp w;
                    log := log w ++ [CopyTree name; Echo (MsgOverride name)] |})
    end.
Proof.
  intros Hname. unfold merge_item. rewrite bool_decide_eq_false_2 by done. mrun.
  destruct (inst w !! name) as [[|old]|]; cbn [inst tmp log]; [done| |].
  - by rewrite insert_delete_eq, <- !app_assoc.
  - by rewrite <- !app_assoc.
Qed.

(** After the loop over an override root returns, every directory entry
    other than [mods] is in the instance directory as the root has it. *)
Lemma merge_items_dirs (l : list (string * node)) :
  NoDup l.*1 →
  ∀ w w', for_each l merge_item w = (Ret tt, w') →
    ∀ name sub, (name, Dir sub) ∈ l → name ≠ "mods" →
      inst w' !! name = Some (Dir sub).
Proof.
  induction l as [|[n item] l IH]; intros Hnd w w' Hrun name sub Hin Hname.
  - inversion Hin.
  - rewrite fmap_cons in Hnd. apply NoDup_cons in Hnd as [Hfresh Hnd].
    cbn [fst] in Hfresh.
    cbn [for_each] in Hrun.
    apply bind_inv in Hrun as [(a & w1 & H1 & H2)|[(c & _ & ?)|(e & _ & ?)]];
      [|done..].
    apply elem_of_cons in Hin as [[= <- <-]|Hin]; [|by eapply IH].
    rewrite (merge_items_other _ _ Hfresh _ _ _ H2).
    rewrite merge_dir_item in H1 by done.
    destruct (inst w !! name) as [[|old]|]; [done|..];
      injection H1 as _ <-; cbn [inst]; apply lookup_insert_eq.
Qed.

(** The loop over an override root returns when every entry is mergeable
    onto the instance directory. *)
Lemma merge_items_total (l : list (string * node)) :
  NoDup l.*1 →
  ∀ w, (∀ name item, (name, item) ∈ l → name ≠ "mods" →
          mergeable (inst w !! name) name item) →
    ∃ w', for_each l merge_item w = (Ret tt, w').
Proof.
  induction l as [|[n item] l IH]; intros Hnd w Hok; cbn [for_each].
  - by exists w.
  - rewrite fmap_cons in Hnd. apply NoDup_cons in Hnd as [Hfresh Hnd].
    cbn [fst] in Hfresh.
    assert (∃ w1, merge_item (n, item) w = (Ret tt, w1)) as [w1 H1].
    { destruct (decide (n = "mods")) as [->|Hn].
      - exists w. unfold merge_item. by rewrite bool_decide_eq_true_2.
      - specialize (Hok n item (list_elem_of_here _ _) Hn).
        destruct item as [data|sub].
        + unfold merge_item, copy2_into. rewrite bool_decide_eq_false_2 by done.
          mrun. unfold mergeable in Hok.
          destruct (inst w !! n) as [[|old]|]; [eauto| |eauto].
          destruct (old !! n) as [[|]|]; [eauto|done|eauto].
        + rewrite merge_dir_item by done. unfold mergeable in Hok.
          destruct (inst w !! n) as [[|old]|]; [done|eauto..]. }
    unfold bind. rewrite H1. apply IH; [done|].
    intros name item' Hin Hname.
    rewrite (merge_item_other _ name _ _ _ H1).
    + apply Hok; [by right|done].
    + cbn [fst]. intros ->. apply Hfresh.
      apply list_elem_of_fmap. by exists (n, item').
Qed.

(** The loop over the override mods touches the mods directory only. *)
Lemma override_mods_loop_other (listing : list (string * node)) k :
  k ≠ "mods" →
  ∀ om os w r w',
    override_mods_loop cfg listing om os w = (r, w') →
    inst w' !! k = inst w !! k.
Proof.
  intros Hk.
  induction listing as [|[name [data|sub]] rest IH]; intros om os w r w';
    cbn [override_mods_loop]; [by intros [= <- <-]| |apply IH].
  destruct (bool_decide _); [|apply IH].
  destruct (is_client_only cfg name None).
  - mrun. intros Hrun. by apply IH in Hrun.
  - unfold copy2_to_mods. mrun.
    destruct (inst w !! "mods") as [[|m]|]; [by intros [= <- <-]| |by intros [= <- <-]].
    destruct (copy2_into data name m); [|by intros [= <- <-]].
    intros Hrun. apply IH in Hrun. cbn [inst] in Hrun.
    by rewrite Hrun, lookup_insert_ne.
Qed.

(** No override mod with a client-only name is copied. *)
Lemma override_mods_loop_no_copy (listing : list (string * node)) k :
  is_client_only cfg k None = true →
  ∀ om os, emits (no_copy k) (override_mods_loop cfg listing om os).
Proof.
  intros Hk.
  induction listing as [|[name [data|sub]] rest IH]; intros om os;
    cbn [override_mods_loop]; [apply emits_ret| |apply IH].
  destruct (bool_decide _); [|apply IH].
  destruct (is_client_only cfg name None) eqn:Hname.
  - emits_step ltac:(done); [emits_step ltac:(done)|apply IH].
  - assert (name ≠ k) as Hne by (intros ->; congruence).
    unfold copy2_to_mods.
    repeat emits_step ltac:(unfold no_copy; congruence). apply IH.
Qed.

Lemma merge_root_no_copy src om os k :
  is_client_only cfg k None = true →
  emits (no_copy k) (merge_root cfg src om os).
Proof.
  intros Hk. unfold merge_root.
  destruct src as [[data|d]|]; [apply emits_raise| |apply emits_ret].
  apply emits_bind.
  - destruct (d !! "mods") as [[|mods]|];
      [apply emits_raise|by apply override_mods_loop_no_copy|apply emits_ret].
  - intros counts. apply emits_bind; [|intros _; apply emits_ret].
    apply emits_for_each. intros [name item]. unfold merge_item.
    destruct (bool_decide _); [apply emits_ret|].
    destruct item; repeat emits_step ltac:(done).
Qed.

End OverrideProperties.

(** ** Reaching the sync *)

Section ReachSync.

Context `{Platform}.
Variable cfg : Config.
Variable remote : Remote.

(** The branch [install] takes once the registry answered. *)
Lemma install_decision force w latest rest :
  api_versions remote = Some (latest :: rest) →
  (∀ sub, inst w !! version_file ≠ Some (Dir sub)) →
  install cfg remote force w =
    if bool_decide (installed_of w = Some (v_id latest)) && negb force
    then (Ret tt, reported_up_to_date latest w)
    else full_sync cfg remote latest (requested w).
Proof.
  intros Hapi Hfile.
  unfold install, get_latest_version, api_request, get_installed_version,
    installed_of, reported_up_to_date, requested.
  mrun. rewrite Hapi. cbn [inst tmp log]. fold version_file.
  destruct (inst w !! version_file) as [[text|sub]|] eqn:Hv;
    [|destruct (Hfile sub eq_refl)|]; cbn [inst tmp log].
  - destruct (bool_decide _ && negb force); [|done].
    cbn [inst tmp log]. by rewrite <- !app_assoc.
  - rewrite (bool_decide_eq_false_2 (None = Some (v_id latest))) by done. done.
Qed.

Lemma install_marker_readable force w res w' :
  api_versions remote ≠ None →
  install cfg remote force w = (Ret res, w') →
  ∀ sub, inst w !! version_file ≠ Some (Dir sub).
Proof.
  intros Hapi Hrun sub Hv.
  unfold install, get_latest_version, api_request, get_installed_version in Hrun.
  mrun in Hrun. destruct (api_versions remote) as [[|latest rest]|]; [done| |done].
  cbn [inst tmp log] in Hrun. by rewrite Hv in Hrun.
Qed.


(** A run of the archive block either leaves the instance directory as it
    was, or reaches the sync with the tree and manifest of the archive. *)
Lemma install_archive_reaches latest f w r w' :
  plain_name (vf_filename f) = true →
  install_archive cfg remote latest f w = (r, w') →
  inst w' = inst w
  ∨ ∃ data tree text index w0,
      urlopen_read remote (vf_url f) = Some data
      ∧ extractall data = Some tree
      ∧ tree !! "modrinth.index.json" = Some (File text)
      ∧ json_load text = Some index
      ∧ inst w0 = inst w
      ∧ sync cfg remote (v_id latest) (v_version_number latest) tree index w0
        = (r, w').
Proof.
  intros Hplain. unfold install_archive, download_file, extract. rewrite Hplain.
  destruct (request_accepts (vf_url f)); [|mrun; intros [= <- <-]; by left].
  mrun. destruct (urlopen_read remote (vf_url f)) as [data|] eqn:Hdata;
    [|mrun; intros [= <- <-]; by left].
  cbn [size_mismatch hash_mismatch write_dest]. rewrite Hplain.
  mrun. cbn [negb inst tmp log].
  rewrite lookup_insert_eq. destruct (extractall data) as [tree|] eqn:Htree;
    [|intros [= <- <-]; by left].
  destruct (tree !! "modrinth.index.json") as [[text|sub]|] eqn:Hindex;
    [|intros [= <- <-]; by left..].
  destruct (json_load text) as [index|] eqn:Hjson; [|intros [= <- <-]; by left].
  intros Hrun. right.
  match type of Hrun with
  | sync _ _ _ _ _ _ ?w0 = _ => exists data, tree, text, index, w0
  end.
  by split_and!.
Qed.

Lemma install_reaches force w r w' :
  plain_archive remote →
  install cfg remote force w = (r, w') →
  inst w' = inst w
  ∨ ∃ latest tree index w0 w1,
      served_pack remote = Some (tree, index)
      ∧ inst w0 = inst w
      ∧ sync cfg remote (v_id latest) (v_version_number latest) tree index w0
        = (r, w1)
      ∧ inst w' = inst w1.
Proof.
  intros Hplain Hrun. unfold served_pack.
  pose proof Hplain as Hplain'. unfold plain_archive in Hplain'.
  destruct (api_versions remote) as [[|latest rest]|] eqn:Hapi.
  - unfold install, get_latest_version, api_request in Hrun. mrun in Hrun.
    rewrite Hapi in Hrun. injection Hrun as _ <-. by left.
  - assert (full_sync cfg remote latest (requested w) = (r, w') →
            inst w' = inst w
            ∨ ∃ latest0 tree index w0 w1,
                match List.find (λ f, Str.endswith (vf_filename f) ".mrpack")
                        (v_files latest) with
                | Some f =>
                    match urlopen_read remote (vf_url f) with
                    | Some data =>
                        match extractall data with
                        | Some tree =>
                            match tree !! "modrinth.index.json" with
                            | Some (File text) =>
                                match json_load text with
                                | Some index => Some (tree, index)
                                | None => None
                                end
                            | _ => None
                            end
                        | None => None
                        end
                    | None => None
                    end
                | None => None
                end = Some (tree, index)
                ∧ inst w0 = inst w
                ∧ sync cfg remote (v_id latest0) (v_version_number latest0)
                    tree index w0 = (r, w1)
                ∧ inst w' = inst w1) as Hfull.
    { unfold full_sync. mrun.
      destruct (List.find _ (v_files latest)) as [f|] eqn:Hfind;
        [|intros [= <- <-]; by left].
      pose proof (Hplain' latest rest f eq_refl Hfind) as Hf.
      unfold with_tmpdir. cbn [inst log].
      match goal with
      | |- context [install_archive _ _ _ _ ?w0] => set (w0' := w0)
      end.
      destruct (install_archive cfg remote latest f w0') as [r1 w1] eqn:Harch.
      intros [= <- <-]. cbn [inst].
      apply install_archive_reaches in Harch
        as [Hi|(data & tree & text & index & w0 & Hd & Ht & Hx & Hj & Hi & Hs)];
        [| |exact Hf].
      - by left.
      - right. exists latest, tree, index, w0, w1.
        rewrite Hd, Ht, Hx, Hj. split_and!; done. }
    destruct (inst w !! version_file) as [[text|sub]|] eqn:Hv.
    + rewrite (install_decision force w latest rest Hapi) in Hrun
        by (intros sub; congruence).
      destruct (bool_decide _ && negb force);
        [injection Hrun as _ <-; by left|by apply Hfull].
    + unfold install, get_latest_version, api_request, get_installed_version
        in Hrun.
      mrun in Hrun. rewrite Hapi in Hrun. cbn [inst tmp log] in Hrun.
      rewrite Hv in Hrun. injection Hrun as _ <-. by left.
    + rewrite (install_decision force w latest rest Hapi) in Hrun
        by (intros sub; congruence).
      destruct (bool_decide _ && negb force);
        [injection Hrun as _ <-; by left|by apply Hfull].
  - unfold install, get_latest_version, api_request in Hrun. mrun in Hrun.
    rewrite Hapi in Hrun. injection Hrun as _ <-. by left.
Qed.

(** A full sync that returns has committed: the marker holds the id. *)
Lemma full_sync_returned_marker latest w w' :
  full_sync cfg remote latest w = (Ret tt, w') →
  inst w' !! version_file = Some (File (v_id latest)).
Proof.
  unfold full_sync. mrun.
  destruct (List.find _ (v_files latest)) as [f|]; [|done].
  unfold with_tmpdir. cbn [inst log].
  match goal with
  | |- context [install_archive _ _ _ _ ?w0] => set (w0' := w0)
  end.
  destruct (install_archive cfg remote latest f w0') as [r1 w1] eqn:Harch.
  intros [= -> <-]. cbn [inst]. unfold install_archive in Harch.
  apply bind_inv in Harch as [(ok & w2 & _ & H2)|[(c & _ & ?)|(e & _ & ?)]];
    [|done..].
  destruct ok; cbn [negb] in H2; [|done].
  apply bind_inv in H2 as [(tree & w3 & _ & H3)|[(c & _ & ?)|(e & _ & ?)]];
    [|done..].
  destruct (tree !! "modrinth.index.json") as [[text|sub]|]; [|done..].
  destruct (json_load text) as [index|]; [|done].
  apply (sync_run cfg remote) in H3 as (_ & l & _ & Hpost).
  by destruct Hpost as (pre & d & om & sc & so & fl & _ & _ & Hv).
Qed.

End ReachSync.

(** ** The marker outside the commit *)

Section MarkerFrame.

Context `{Platform}.
Variable cfg : Config.
Variable remote : Remote.









End MarkerFrame.

(** The sample registry names its archive plainly. *)
Lemma sample_archive_plain : plain_archive Sample.remote.
Proof.
  intros latest rest f Hapi Hfind. vm_compute in Hapi. injection Hapi as <- <-.
  vm_compute in Hfind. injection Hfind as <-. reflexivity.
Qed.

(** * The claims of the specification *)

(** C4 as stated fails on the literal: an entry whose runtime tag is the
    string [unsupported-on-server], with a name no pattern matches, is not
    client-only for the code. *)
Lemma runtime_tag_literal_counterexample :
  let filename := "lithium.jar" in
  let tag := "unsupported-on-server" in
  ¬ (is_client_only Sample.cfg filename (Some {[ "server" := tag ]}) = true
     ↔ tag = "unsupported-on-server"
       ∨ matches_some filename (client_only_mods Sample.cfg)).
Proof.
  intros filename tag [_ Hback].
  specialize (Hback (or_introl eq_refl)). vm_compute in Hback. discriminate.
Qed.

(** C4, amended.  Client-only decision: for every filename and [env], the
    predicate returns true if and only if the runtime tag, [env.server],
    equals [unsupported], or the filename case-insensitively contains at
    least one configured client-only pattern. *)
Theorem client_only_decision (cfg : Config) (filename : string)
    (env : option dict) :
  is_client_only cfg filename env = true
  ↔ runtime_tag env = Some "unsupported"
    ∨ matches_some filename (client_only_mods cfg).
Proof. apply is_client_only_iff. Qed.

(** C1. Filtering symmetry.  For a filename that case-insensitively
    contains a configured client-only pattern: the decision is true
    whatever the [env]; the manifest loop queues no task of that name and
    prints the skip of every mod entry of that name; a pass over an
    override root leaves the entry of that name in the target mods
    directory as it was and copies no mod of that name; and after any run
    of [install] on an archive with a plain file name the target mods
    directory holds under that name nothing or what it held before. *)
Theorem filtering_symmetry `{Platform} (cfg : Config) (filename : string) :
  matches_some filename (client_only_mods cfg) →
  (∀ env, is_client_only cfg filename env = true)
  ∧ (∀ index w queue sc so w',
       process_index cfg index [] 0%nat 0%nat w = (Ret (queue, sc, so), w') →
       (∀ t, t ∈ queue → t_filename t ≠ filename)
       ∧ (∀ e, e ∈ index →
            Str.startswith (fe_path e) "mods/" = true →
            PurePath.name (fe_path e) = filename →
            Echo (MsgSkipClient filename) ∈ log w'))
  ∧ (∀ src om os w r w',
       merge_root cfg src om os w = (r, w') →
       mods_entry w' filename = mods_entry w filename
       ∧ ∃ l, log w' = log w ++ l ∧ CopyMod filename ∉ l)
  ∧ (∀ remote force w r w',
       plain_archive remote →
       install cfg remote force w = (r, w') →
       mods_entry w' filename = None
       ∨ mods_entry w' filename = mods_entry w filename).
Proof.
  intros Hmatch.
  assert (∀ env, is_client_only cfg filename env = true) as Hclient.
  { intros env. apply is_client_only_iff. by right. }
  split_and!; [done| | |].
  - intros index w queue sc so w' Hrun.
    apply process_index_run in Hrun as (_ & _ & Hq).
    destruct (Hq _ _ _ eq_refl) as (Hqueue & Hskip & _). split.
    + intros t Ht Hname. destruct (Hqueue t Ht) as [Hnil|Hno]; [inversion Hnil|].
      rewrite Hname, Hclient in Hno. discriminate.
    + intros e He Hmods Hname. rewrite <- Hname. apply Hskip; [done..|].
      by rewrite Hname.
  - intros src om os w r w' Hrun. split.
    + by eapply merge_root_keeps.
    + destruct (merge_root_no_copy cfg src om os filename (Hclient None) _ _ _ Hrun)
        as ((l & Hl & Hall) & _).
      exists l. split; [done|]. intros Hin.
      by apply (proj1 (Forall_forall _ _) Hall _ Hin).
  - intros remote force w r w' Hplain Hrun.
    apply install_run in Hrun as [Hnever _]; [|done]. by apply Hnever.
Qed.

Lemma filtering_symmetry_witness :
  let run :=
    @install Sample.platform Sample.cfg Sample.remote false Sample.world in
  matches_some "sodium-client.jar" (client_only_mods Sample.cfg)
  ∧ (mods_entry run.2 "sodium-client.jar" = None
     ∨ mods_entry run.2 "sodium-client.jar"
       = mods_entry Sample.world "sodium-client.jar").
Proof.
  intros run.
  assert (matches_some "sodium-client.jar" (client_only_mods Sample.cfg)) as Hmatch.
  { exists "sodium". split; [left|]. exists "", "-client.jar". reflexivity. }
  split; [exact Hmatch|].
  exact (proj2 (proj2 (proj2 (@filtering_symmetry Sample.platform Sample.cfg
                                "sodium-client.jar" Hmatch)))
           Sample.remote false Sample.world run.1 run.2
           sample_archive_plain (surjective_pairing run)).
Defined.




(** C8. Override directory replacement.  For a directory entry of an
    override root other than [mods]: when the target directory of that
    name exists, it is removed and then the override directory is copied,
    and the target is then exactly the override directory; the loop over a
    root whose entries are mergeable returns with every such directory
    exactly as the root has it; and so does every pass over an override
    root that returns. *)
Theorem override_directory_replacement `{Platform} (cfg : Config) :
  (∀ name sub old w,
      name ≠ "mods" → inst w !! name = Some (Dir old) →
      merge_item (name, Dir sub) w =
        (Ret tt, {| inst := <[name := Dir sub]> (inst w); tmp := tmp w;
                    log := log w ++ [RmTree name; CopyTree name;
                                     Echo (MsgOverride name)] |}))
  ∧ (∀ d w,
      (∀ name item, d !! name = Some item → name ≠ "mods" →
         mergeable (inst w !! name) name item) →
      ∃ w', for_each (iterdir d) merge_item w = (Ret tt, w')
            ∧ ∀ name sub, d !! name = Some (Dir sub) → name ≠ "mods" →
                inst w' !! name = Some (Dir sub))
  ∧ (∀ d om os w counts w',
      merge_root cfg (Some (Dir d)) om os w = (Ret counts, w') →
      ∀ name sub, d !! name = Some (Dir sub) → name ≠ "mods" →
        inst w' !! name = Some (Dir sub)).
Proof.
  split_and!.
  - intros name sub old w Hname Hold. rewrite merge_dir_item by done. by rewrite Hold.
  - intros d w Hok.
    destruct (merge_items_total (iterdir d) (iterdir_NoDup d) w) as [w' Hrun].
    { intros name item Hin. apply Hok. by apply iterdir_lookup. }
    exists w'. split; [done|]. intros name sub Hd Hname.
    eapply merge_items_dirs; [apply iterdir_NoDup|done| |done].
    by apply iterdir_lookup.
  - intros d om os w counts w' Hrun name sub Hd Hname. unfold merge_root in Hrun.
    apply bind_inv in Hrun as [(c1 & w1 & H1 & H2)|[(c & _ & ?)|(e & _ & ?)]];
      [|done..].
    apply bind_inv in H2 as [([] & w2 & H2 & H3)|[(c & _ & ?)|(e & _ & ?)]];
      [|done..].
    injection H3 as _ <-.
    eapply merge_items_dirs; [apply iterdir_NoDup|done| |done].
    by apply iterdir_lookup.
Qed.

Lemma override_directory_replacement_witness :
  "config" ≠ "mods"
  ∧ inst Sample.world !! "config" = Some (Dir {[ "old.toml" := File "old" ]})
  ∧ merge_item ("config", Dir {[ "a.toml" := File "new" ]}) Sample.world =
      (Ret tt,
       {| inst := <["config" := Dir {[ "a.toml" := File "new" ]}]>
                    (inst Sample.world);
          tmp := tmp Sample.world;
          log := log Sample.world ++ [RmTree "config"; CopyTree "config";
                                      Echo (MsgOverride "config")] |})
  ∧ (∀ name item, Sample.overrides !! name = Some item → name ≠ "mods" →
       mergeable (inst Sample.world !! name) name item)
  ∧ ∃ w', for_each (@iterdir Sample.platform Sample.overrides) merge_item
            Sample.world = (Ret tt, w')
          ∧ inst w' !! "config" = Some (Dir {[ "a.toml" := File "new" ]}).
Proof.
  assert ("config" ≠ "mods") as Hname by discriminate.
  assert (inst Sample.world !! "config"
          = Some (Dir {[ "old.toml" := File "old" ]})) as Hold
    by (vm_compute; reflexivity).
  assert (∀ name item, Sample.overrides !! name = Some item → name ≠ "mods" →
            mergeable (inst Sample.world !! name) name item) as Hok.
  { intros name item Hlk Hne. unfold Sample.overrides in Hlk.
    destruct (decide (name = "config")) as [->|Hcfg].
    - rewrite lookup_insert_eq in Hlk. injection Hlk as <-. rewrite Hold. exact I.
    - rewrite lookup_insert_ne, lookup_singleton_ne in Hlk by done. discriminate. }
  split; [exact Hname|]. split; [exact Hold|]. split.
  { exact (proj1 (@override_directory_replacement Sample.platform Sample.cfg)
             "config" _ _ Sample.world Hname Hold). }
  split; [exact Hok|].
  destruct (proj1 (proj2 (@override_directory_replacement Sample.platform
                            Sample.cfg)) Sample.overrides Sample.world Hok)
    as (w' & Hrun & Hdirs).
  exists w'. split; [exact Hrun|].
  apply Hdirs; [vm_compute; reflexivity|exact Hname].
Defined.



(** Scenario 3 of the specification: [force-update] on an instance that is
    up to date fetches the archive and the mods again and commits. *)
Example force_update_resyncs :
  ∃ w',
    @run_command Sample.platform Sample.cfg Sample.remote CmdForceUpdate
      Sample.world_current = (Ret tt, w')
    ∧ Fetch "https://cdn/pack" ∈ log w'
    ∧ Fetch "https://cdn/lithium.jar" ∈ log w'
    ∧ SaveVersion "v2" ∈ log w'
    ∧ inst w' !! version_file = Some (File "v2").
Proof.
  exists (@run_command Sample.platform Sample.cfg Sample.remote CmdForceUpdate
            Sample.world_current).2.
  split_and!; [vm_compute; reflexivity| | | |vm_compute; reflexivity].
  - vm_compute. do 2 right. left.
  - vm_compute. do 10 right. left.
  - vm_compute. do 20 right. left.
Qed.

(** * Further properties of the code *)

(** ** Patterns and names *)

Lemma lower_ascii_idemp (c : ascii) :
  Str.lower_ascii (Str.lower_ascii c) = Str.lower_ascii c.
Proof. destruct c as [[] [] [] [] [] [] [] []]; reflexivity. Qed.

Lemma lower_idemp (s : string) : Str.lower (Str.lower s) = Str.lower s.
Proof.
  induction s as [|c s IH]; [done|]. cbn [Str.lower].
  by rewrite lower_ascii_idemp, IH.
Qed.

Lemma any_pattern_lower (fl : string) (patterns : list string) :
  any_pattern fl (Str.lower <$> patterns) = any_pattern fl patterns.
Proof.
  induction patterns as [|p ps IH]; [done|]. cbn [fmap list_fmap any_pattern].
  rewrite lower_idemp. by rewrite <- IH.
Qed.

(** X1. An empty pattern matches every filename: with [""] among the
    client-only patterns every mod is client-only, and with [""] among the
    preserved patterns every file is preserved. *)
Theorem empty_pattern_matches_all (cfg : Config) :
  ("" ∈ client_only_mods cfg → ∀ filename env,
      is_client_only cfg filename env = true)
  ∧ ("" ∈ preserved_mods cfg → ∀ filename, is_preserved cfg filename = true).
Proof.
  assert (∀ filename patterns, "" ∈ patterns →
            any_pattern (Str.lower filename) patterns = true) as Hany.
  { intros filename patterns Hin. apply any_pattern_matches.
    exists "". split; [done|]. exists "", (Str.lower filename). reflexivity. }
  split.
  - intros Hin filename env. unfold is_client_only.
    destruct (match env with Some _ => _ | None => _ end); [done|]. by apply Hany.
  - intros Hin filename. by apply Hany.
Qed.

Lemma empty_pattern_matches_all_witness :
  "" ∈ client_only_mods Demo.cfg_empty_pattern
  ∧ "" ∈ preserved_mods Demo.cfg_empty_pattern
  ∧ is_client_only Demo.cfg_empty_pattern "lithium.jar" None = true
  ∧ is_preserved Demo.cfg_empty_pattern "lithium.jar" = true.
Proof.
  assert ("" ∈ client_only_mods Demo.cfg_empty_pattern) as H1 by (right; left).
  assert ("" ∈ preserved_mods Demo.cfg_empty_pattern) as H2 by left.
  split; [exact H1|]. split; [exact H2|]. split.
  - exact (proj1 (empty_pattern_matches_all Demo.cfg_empty_pattern) H1
             "lithium.jar" None).
  - exact (proj2 (empty_pattern_matches_all Demo.cfg_empty_pattern) H2
             "lithium.jar").
Defined.

(** X2. Both filter decisions ignore case: lowering the filename, or
    lowering every configured pattern, changes neither. *)
Theorem filter_ignores_case (cfg : Config) (filename : string)
    (env : option dict) :
  is_client_only cfg (Str.lower filename) env = is_client_only cfg filename env
  ∧ is_preserved cfg (Str.lower filename) = is_preserved cfg filename
  ∧ is_client_only
      {| modpack_id := modpack_id cfg;
         preserved_mods := preserved_mods cfg;
         client_only_mods := Str.lower <$> client_only_mods cfg |} filename env
    = is_client_only cfg filename env
  ∧ is_preserved
      {| modpack_id := modpack_id cfg;
         preserved_mods := Str.lower <$> preserved_mods cfg;
         client_only_mods := client_only_mods cfg |} filename
    = is_preserved cfg filename.
Proof.
  unfold is_client_only, is_preserved. cbn [client_only_mods preserved_mods].
  rewrite lower_idemp, !any_pattern_lower. done.
Qed.

Lemma contains_slash_cons (c : ascii) (w : string) :
  Ascii.eqb c "/" = false →
  Str.contains (String c w) "/" = Str.contains w "/".
Proof.
  intros Hc. apply Ascii.eqb_neq in Hc.
  change (Str.contains (String c w) "/")
    with (if String.prefix "/" (String c w) then true else Str.contains w "/").
  cbn [String.prefix]. destruct (ascii_dec "/" c) as [<-|_]; done.
Qed.

Lemma split_slash_no_slash (s : string) :
  Forall (λ c, Str.contains c "/" = false) (Str.split_slash s).
Proof.
  induction s as [|c s IH]; cbn [Str.split_slash].
  - by repeat constructor.
  - destruct (Ascii.eqb c "/") eqn:Hc; [by constructor|].
    destruct (Str.split_slash s) as [|w ws].
    + constructor; [|done]. by rewrite contains_slash_cons.
    + inversion IH; subst. constructor; [|done]. by rewrite contains_slash_cons.
Qed.

Lemma last_elem_of {A} (l : list A) (d : A) : l ≠ [] → List.last l d ∈ l.
Proof.
  induction l as [|x [|y l] IH]; intros Hl; [done|by left|].
  right. by apply IH.
Qed.

Lemma parts_mods_prefix (p : string) :
  Str.startswith p "mods/" = true → PurePath.parts p ≠ [].
Proof.
  intros Hp. apply prefix_app in Hp as [post ->]. unfold PurePath.parts.
  change (Str.split_slash ("mods/" +:+ post))
    with ("mods" :: Str.split_slash post).
  rewrite filter_cons_True; [done|]. split; discriminate.
Qed.

(** X3. [Path(p).name] is a single path component: it holds no [/] and is
    not [.]; for a path that starts with [mods/] it is not empty either.
    So the destination of a queued download is an entry of the mods
    directory itself. *)
Theorem name_is_single_component (p : string) :
  Str.contains (PurePath.name p) "/" = false
  ∧ PurePath.name p ≠ "."
  ∧ (Str.startswith p "mods/" = true → PurePath.name p ≠ "").
Proof.
  unfold PurePath.name.
  destruct (decide (PurePath.parts p = [])) as [Hnil|Hne].
  - rewrite Hnil. cbn [List.last]. split_and!; [done|done|].
    intros Hp. by destruct (parts_mods_prefix p Hp).
  - pose proof (last_elem_of _ "" Hne) as Hin. unfold PurePath.parts in Hin.
    apply list_elem_of_filter in Hin as [[Hempty Hdot] Hin].
    split_and!; [|done|done].
    by apply (proj1 (Forall_forall _ _) (split_slash_no_slash p)).
Qed.

Lemma name_is_single_component_witness :
  Str.startswith "mods/sub/a.jar" "mods/" = true
  ∧ PurePath.name "mods/sub/a.jar" ≠ "".
Proof.
  assert (Str.startswith "mods/sub/a.jar" "mods/" = true) as Hp by reflexivity.
  split; [exact Hp|].
  exact (proj2 (proj2 (name_is_single_component "mods/sub/a.jar")) Hp).
Defined.

(** ** The manifest loop *)

Section IndexProperties.

Context `{Platform}.
Variable cfg : Config.

(** The loop as a whole: with a URL on every wanted entry it returns the
    queue extended by the wanted entries' tasks and the counters advanced
    by the two kinds of skipped entries; otherwise it raises. *)
Lemma process_index_summary (entries : list FileEntry) :
  ∀ q sc so w,
    (Forall (λ e, wanted_entry cfg e → fe_downloads e ≠ []) entries →
     ∃ w', process_index cfg entries q sc so w =
             (Ret (q ++ omap task_of (filter (wanted_entry cfg) entries),
                   (sc + length (filter (client_entry cfg) entries))%nat,
                   (so + length (filter (λ e, ¬ is_mod_entry e) entries))%nat), w'))
    ∧ (¬ Forall (λ e, wanted_entry cfg e → fe_downloads e ≠ []) entries →
       ∃ w', process_index cfg entries q sc so w = (Raised IndexError, w')).
Proof.
  induction entries as [|e rest IH]; intros q sc so w.
  - split; [|intros Hn; by destruct Hn].
    intros _. exists w. cbn. by rewrite app_nil_r, !Nat.add_0_r.
  - cbn [process_index].
    destruct (Str.startswith (fe_path e) "mods/") eqn:Hmods; cbn [negb].
    + destruct (is_client_only cfg _ _) eqn:Hclient.
      * assert (wanted_entry cfg e = false) as Hw
          by (unfold wanted_entry, is_mod_entry; by rewrite Hmods, Hclient).
        assert (client_entry cfg e = true) as Hc
          by (unfold client_entry, is_mod_entry; by rewrite Hmods, Hclient).
        assert (is_mod_entry e = true) as Hm by done.
        mrun.
        match goal with |- context [process_index _ _ _ _ _ ?w1] => set (w1' := w1) end.
        destruct (IH q (S sc) so w1') as [Hret Hraise]. split.
        -- intros Hall. apply Forall_cons in Hall as [_ Hall].
           destruct (Hret Hall) as [w' Hrun]. exists w'. rewrite Hrun.
           rewrite filter_cons_False by (rewrite Hw; intros []).
           rewrite filter_cons_True by (rewrite Hc; exact I).
           rewrite filter_cons_False by (rewrite Hm; intros Hn; by apply Hn).
           cbn [length]. by rewrite Nat.add_succ_comm.
        -- intros Hn. apply Hraise. intros Hall. apply Hn.
           constructor; [|done]. rewrite Hw. intros [].
      * assert (wanted_entry cfg e = true) as Hw
          by (unfold wanted_entry, is_mod_entry; by rewrite Hmods, Hclient).
        assert (client_entry cfg e = false) as Hc
          by (unfold client_entry, is_mod_entry; by rewrite Hmods, Hclient).
        assert (is_mod_entry e = true) as Hm by done.
        destruct (fe_downloads e) as [|url urls] eqn:Hurls.
        -- split; [|eauto]. intros Hall. apply Forall_cons in Hall as [He _].
           rewrite Hw, Hurls in He. by destruct (He I).
        -- destruct (IH (q ++ [{| t_url := url;
                                 t_filename := PurePath.name (fe_path e);
                                 t_size := fe_fileSize e;
                                 t_hashes := get_or_empty (fe_hashes e) |}])
                       sc so w) as [Hret Hraise]. split.
           ++ intros Hall. apply Forall_cons in Hall as [_ Hall].
              destruct (Hret Hall) as [w' Hrun]. exists w'. rewrite Hrun.
              rewrite filter_cons_True by (rewrite Hw; exact I).
              rewrite filter_cons_False by (rewrite Hc; intros []).
              rewrite filter_cons_False by (rewrite Hm; intros Hn; by apply Hn).
              assert (task_of e = Some {| t_url := url;
                                          t_filename := PurePath.name (fe_path e);
                                          t_size := fe_fileSize e;
                                          t_hashes := get_or_empty (fe_hashes e) |})
                as Htask by (unfold task_of; by rewrite Hurls).
              cbn [omap list_omap]. rewrite Htask. by rewrite <- app_assoc.
           ++ intros Hn. apply Hraise. intros Hall. apply Hn.
              constructor; [|done]. intros _. by rewrite Hurls.
    + assert (wanted_entry cfg e = false) as Hw
        by (unfold wanted_entry, is_mod_entry; by rewrite Hmods).
      assert (client_entry cfg e = false) as Hc
        by (unfold client_entry, is_mod_entry; by rewrite Hmods).
      assert (is_mod_entry e = false) as Hm by done.
      destruct (IH q sc (S so) w) as [Hret Hraise]. split.
      * intros Hall. apply Forall_cons in Hall as [_ Hall].
        destruct (Hret Hall) as [w' Hrun]. exists w'. rewrite Hrun.
        rewrite filter_cons_False by (rewrite Hw; intros []).
        rewrite filter_cons_False by (rewrite Hc; intros []).
        rewrite filter_cons_True by (rewrite Hm; intros []).
        cbn [length]. by rewrite Nat.add_succ_comm.
      * intros Hn. apply Hraise. intros Hall. apply Hn.
        constructor; [|done]. rewrite Hw. intros [].
Qed.

Lemma entries_partition (entries : list FileEntry) :
  (length (filter (wanted_entry cfg) entries)
   + length (filter (client_entry cfg) entries)
   + length (filter (λ e, ¬ is_mod_entry e) entries) = length entries)%nat.
Proof.
  induction entries as [|e rest IH]; [done|].
  rewrite !filter_cons. unfold wanted_entry, client_entry in *.
  destruct (is_mod_entry e); cbn [andb negb].
  - destruct (is_client_only cfg _ _); cbn [negb];
      repeat case_decide; try done; try naive_solver; cbn [length]; lia.
  - repeat case_decide; try done; try naive_solver; cbn [length]; lia.
Qed.

Lemma omap_task_of_length (entries : list FileEntry) :
  Forall (λ e, fe_downloads e ≠ []) entries →
  length (omap task_of entries) = length entries.
Proof.
  induction 1 as [|e rest He _ IH]; [done|]. cbn [omap list_omap].
  unfold task_of at 1. destruct (fe_downloads e); [done|]. cbn [length].
  by rewrite IH.
Qed.

Lemma omap_task_of_fields (entries : list FileEntry) :
  Forall (λ e, fe_downloads e ≠ []) entries →
  Forall2 (λ e t,
             head (fe_downloads e) = Some (t_url t)
             ∧ t_filename t = PurePath.name (fe_path e)
             ∧ t_size t = fe_fileSize e
             ∧ t_hashes t = get_or_empty (fe_hashes e))
    entries (omap task_of entries).
Proof.
  induction 1 as [|e rest He _ IH]; [constructor|].
  cbn [omap list_omap]. unfold task_of at 1.
  destruct (fe_downloads e) as [|url urls] eqn:Hurls; [done|].
  constructor; [|exact IH]. rewrite Hurls. split_and!; reflexivity.
Qed.

(** A run that returns had a URL on every wanted entry. *)
Lemma process_index_returned entries q sc so w res w' :
  process_index cfg entries q sc so w = (Ret res, w') →
  Forall (λ e, wanted_entry cfg e → fe_downloads e ≠ []) entries.
Proof.
  intros Hrun.
  destruct (decide (Forall (λ e, wanted_entry cfg e → fe_downloads e ≠ []) entries))
    as [Hall|Hn]; [done|].
  destruct (proj2 (process_index_summary entries q sc so w) Hn) as [w1 Hraise].
  congruence.
Qed.

End IndexProperties.

(** X4. The manifest loop classifies every entry exactly once: when it
    returns, the queue length and the two skip counters add up to the
    number of manifest entries; the client counter is the number of mod
    entries the client-only decision accepts and the other counter the
    number of entries outside [mods/]. *)
Theorem manifest_entries_counted_once `{Platform} (cfg : Config)
    (entries : list FileEntry) (w : World) queue sc so w' :
  process_index cfg entries [] 0%nat 0%nat w = (Ret (queue, sc, so), w') →
  (length queue + sc + so = length entries)%nat
  ∧ sc = length (filter (client_entry cfg) entries)
  ∧ so = length (filter (λ e, ¬ is_mod_entry e) entries).
Proof.
  intros Hrun. pose proof (process_index_returned cfg _ _ _ _ _ _ _ Hrun) as Hall.
  destruct (proj1 (process_index_summary cfg entries [] 0%nat 0%nat w) Hall)
    as [w1 Hsum].
  rewrite Hrun in Hsum. injection Hsum as -> -> -> _.
  split_and!; [|done..]. cbn [app Nat.add].
  rewrite omap_task_of_length; [apply entries_partition|].
  apply Forall_forall. intros e He. apply list_elem_of_filter in He as [Hw He].
  by apply (proj1 (Forall_forall _ _) Hall).
Qed.

Lemma manifest_entries_counted_once_witness :
  let run :=
    @process_index Sample.cfg Sample.index [] 0%nat 0%nat Sample.world in
  run = (Ret ([Sample.good_task; Sample.bad_task], 2%nat, 1%nat), run.2)
  ∧ (length [Sample.good_task; Sample.bad_task] + 2 + 1
     = length Sample.index)%nat.
Proof.
  intros run.
  assert (run = (Ret ([Sample.good_task; Sample.bad_task], 2%nat, 1%nat), run.2))
    as Hrun by (vm_compute; reflexivity).
  split; [exact Hrun|].
  exact (proj1 (@manifest_entries_counted_once Sample.platform Sample.cfg
                  Sample.index Sample.world _ _ _ _ Hrun)).
Defined.

(** X5. The queue follows the manifest: when the loop returns, the queued
    tasks are, in manifest order, one per mod entry the client-only
    decision rejects, each with the first download URL, the final component
    of the path as filename, the declared size, and the hashes as
    [file_entry.get("hashes", {})] gives them: the declared object, an
    empty dict when the key is absent, [None] when it holds [null]. *)
Theorem manifest_queue_in_order `{Platform} (cfg : Config)
    (entries : list FileEntry) (w : World) queue sc so w' :
  process_index cfg entries [] 0%nat 0%nat w = (Ret (queue, sc, so), w') →
  Forall2 (λ e t,
             head (fe_downloads e) = Some (t_url t)
             ∧ t_filename t = PurePath.name (fe_path e)
             ∧ t_size t = fe_fileSize e
             ∧ t_hashes t = get_or_empty (fe_hashes e))
    (filter (wanted_entry cfg) entries) queue.
Proof.
  intros Hrun. pose proof (process_index_returned cfg _ _ _ _ _ _ _ Hrun) as Hall.
  destruct (proj1 (process_index_summary cfg entries [] 0%nat 0%nat w) Hall)
    as [w1 Hsum].
  rewrite Hrun in Hsum. injection Hsum as -> _ _ _. cbn [app].
  assert (Forall (λ e, fe_downloads e ≠ []) (filter (wanted_entry cfg) entries))
    as Hurls.
  { apply Forall_forall. intros e He. apply list_elem_of_filter in He as [Hw He].
    by apply (proj1 (Forall_forall _ _) Hall). }
  by apply omap_task_of_fields.
Qed.

Lemma manifest_queue_in_order_witness :
  let entry :=
    {| fe_path := "mods/plain.jar"; fe_env := Null;
       fe_downloads := ["https://cdn/plain.jar"]; fe_fileSize := None;
       fe_hashes := Null |} in
  let task :=
    {| t_url := "https://cdn/plain.jar"; t_filename := "plain.jar";
       t_size := None; t_hashes := None |} in
  let run :=
    @process_index Sample.cfg (Sample.index ++ [entry]) [] 0%nat 0%nat
      Sample.world in
  run = (Ret ([Sample.good_task; Sample.bad_task; task], 2%nat, 1%nat), run.2)
  ∧ Forall2 (λ e t,
               head (fe_downloads e) = Some (t_url t)
               ∧ t_filename t = PurePath.name (fe_path e)
               ∧ t_size t = fe_fileSize e
               ∧ t_hashes t = get_or_empty (fe_hashes e))
      (filter (wanted_entry Sample.cfg) (Sample.index ++ [entry]))
      [Sample.good_task; Sample.bad_task; task].
Proof.
  intros entry task run.
  assert (run = (Ret ([Sample.good_task; Sample.bad_task; task], 2%nat, 1%nat),
                 run.2))
    as Hrun by (vm_compute; reflexivity).
  split; [exact Hrun|].
  exact (@manifest_queue_in_order Sample.platform Sample.cfg
           (Sample.index ++ [entry]) Sample.world _ _ _ _ Hrun).
Defined.

(** X6. The manifest loop returns exactly when every mod entry it wants
    has at least one download URL; otherwise [downloads][0] raises
    [IndexError].  Either way it changes no file. *)
Theorem manifest_loop_index_error `{Platform} (cfg : Config)
    (entries : list FileEntry) (w : World) :
  ((∃ res w', process_index cfg entries [] 0%nat 0%nat w = (Ret res, w'))
   ↔ Forall (λ e, wanted_entry cfg e → fe_downloads e ≠ []) entries)
  ∧ ((∃ w', process_index cfg entries [] 0%nat 0%nat w = (Raised IndexError, w'))
     ↔ ¬ Forall (λ e, wanted_entry cfg e → fe_downloads e ≠ []) entries)
  ∧ ∀ r w', process_index cfg entries [] 0%nat 0%nat w = (r, w') →
            inst w' = inst w ∧ tmp w' = tmp w.
Proof.
  destruct (process_index_summary cfg entries [] 0%nat 0%nat w) as [Hret Hraise].
  split_and!.
  - split.
    + intros (res & w' & Hrun). by eapply process_index_returned.
    + intros Hall. destruct (Hret Hall) as [w' Hrun]. eauto.
  - split.
    + intros [w' Hrun] Hall. destruct (Hret Hall) as [w1 Hrun']. congruence.
    + apply Hraise.
  - intros r w' Hrun. by apply process_index_run in Hrun as (? & ? & _).
Qed.

Lemma manifest_loop_index_error_witness :
  ¬ Forall (λ e, wanted_entry Sample.cfg e → fe_downloads e ≠ [])
      Demo.index_no_url
  ∧ ∃ w', @process_index Sample.cfg Demo.index_no_url [] 0%nat 0%nat
            Sample.world = (Raised IndexError, w').
Proof.
  assert (¬ Forall (λ e, wanted_entry Sample.cfg e → fe_downloads e ≠ [])
              Demo.index_no_url) as Hn.
  { intros Hall. apply Forall_cons in Hall as [He _]. by apply He. }
  split; [exact Hn|].
  exact (proj2 (proj1 (proj2 (@manifest_loop_index_error Sample.platform
                                Sample.cfg Demo.index_no_url Sample.world)))
           Hn).
Defined.

(** ** The fetcher *)

Section FetcherExtras.

Context `{Platform}.
Variable remote : Remote.

(** The part of [_download_file] after the checks, for a given payload. *)
Lemma download_file_checked url d size hashes data w :
  request_accepts url = true →
  urlopen_read remote url = Some data →
  size_mismatch size data = false →
  hash_mismatch d hashes data = None →
  download_file remote url d size hashes w =
    download_file remote url d None None w.
Proof.
  intros Hreq Hdata Hsize Hhash. unfold download_file.
  rewrite Hreq, Hdata, Hsize, Hhash. done.
Qed.

End FetcherExtras.

(** X7. Size check for a given non-zero size.  When the payload is
    retrieved and the expected size is not zero, a payload of another
    length makes the fetch return [False] with nothing written, and a
    payload of that length makes the size play no further part. *)
Theorem size_check_nonzero `{Platform} (remote : Remote) url d (n : Z)
    hashes data w :
  request_accepts url = true →
  urlopen_read remote url = Some data →
  n ≠ 0 →
  (Z.of_nat (String.length data) ≠ n →
     download_file remote url d (Some n) hashes w =
       (Ret false, {| inst := inst w; tmp := tmp w;
                      log := log w ++ [Fetch url; Echo (MsgSizeMismatch d)] |}))
  ∧ (Z.of_nat (String.length data) = n →
     download_file remote url d (Some n) hashes w =
       download_file remote url d None hashes w).
Proof.
  intros Hreq Hdata Hn. split.
  - intros Hlen. by apply (download_file_size_nonzero remote _ _ _ _ data).
  - intros Hlen. unfold download_file. rewrite Hreq, Hdata.
    unfold size_mismatch. by rewrite (proj2 (Z.eqb_eq _ _) Hlen), andb_false_r.
Qed.

Lemma size_check_nonzero_witness :
  @request_accepts Sample.platform "https://cdn/lithium.jar" = true
  ∧ urlopen_read Sample.remote "https://cdn/lithium.jar" = Some "abc"
  ∧ 5 ≠ 0
  ∧ Z.of_nat (String.length "abc") ≠ 5
  ∧ @download_file Sample.platform Sample.remote "https://cdn/lithium.jar"
      (InMods "lithium.jar") (Some 5) None Sample.world =
      (Ret false,
       {| inst := inst Sample.world; tmp := tmp Sample.world;
          log := log Sample.world
                 ++ [Fetch "https://cdn/lithium.jar";
                     Echo (MsgSizeMismatch (InMods "lithium.jar"))] |}).
Proof.
  assert (@request_accepts Sample.platform "https://cdn/lithium.jar" = true)
    as H1 by reflexivity.
  assert (urlopen_read Sample.remote "https://cdn/lithium.jar" = Some "abc")
    as H2 by reflexivity.
  assert (5 ≠ 0) as H3 by lia.
  assert (Z.of_nat (String.length "abc") ≠ 5) as H4 by (vm_compute; discriminate).
  repeat (split; [assumption|]).
  exact (proj1 (@size_check_nonzero Sample.platform Sample.remote _
                  (InMods "lithium.jar") 5 None _ Sample.world H1 H2 H3) H4).
Defined.

(** X8. [sha1] is the fallback.  Without a [sha512] entry and with a
    [sha1] entry, a retrieved payload that passed the size check is
    rejected, with nothing written, when its [sha1] digest differs from the
    entry, and is treated as one without expected hashes when it agrees. *)
Theorem sha1_fallback `{Platform} (remote : Remote) url d size (h : dict)
    expected data w :
  request_accepts url = true →
  urlopen_read remote url = Some data →
  size_mismatch size data = false →
  h !! "sha512" = None → h !! "sha1" = Some expected →
  (sha1_hexdigest data ≠ expected →
     download_file remote url d size (Some h) w =
       (Ret false, {| inst := inst w; tmp := tmp w;
                      log := log w ++ [Fetch url; Echo (MsgSha1Mismatch d)] |}))
  ∧ (sha1_hexdigest data = expected →
     download_file remote url d size (Some h) w =
       download_file remote url d None None w).
Proof.
  intros Hreq Hdata Hsize H512 H1.
  assert (hash_mismatch d (Some h) data =
            if bool_decide (sha1_hexdigest data = expected) then None
            else Some (MsgSha1Mismatch d)) as Hhash.
  { unfold hash_mismatch. by rewrite (truthy_lookup _ _ _ H1), H512, H1. }
  split; intros Hdigest.
  - unfold download_file. rewrite Hreq, Hdata, Hsize, Hhash.
    rewrite bool_decide_eq_false_2 by done. mrun. by rewrite <- app_assoc.
  - apply (download_file_checked remote _ _ _ _ data); [done..|].
    by rewrite Hhash, bool_decide_eq_true_2.
Qed.

Lemma sha1_fallback_witness :
  @request_accepts Sample.platform "https://cdn/lithium.jar" = true
  ∧ urlopen_read Sample.remote "https://cdn/lithium.jar" = Some "abc"
  ∧ @size_mismatch None "abc" = false
  ∧ Demo.sha1_only !! "sha512" = None
  ∧ Demo.sha1_only !! "sha1" = Some "1:zzz"
  ∧ @sha1_hexdigest Sample.platform "abc" ≠ "1:zzz"
  ∧ @download_file Sample.platform Sample.remote "https://cdn/lithium.jar"
      (InMods "lithium.jar") None (Some Demo.sha1_only) Sample.world =
      (Ret false,
       {| inst := inst Sample.world; tmp := tmp Sample.world;
          log := log Sample.world
                 ++ [Fetch "https://cdn/lithium.jar";
                     Echo (MsgSha1Mismatch (InMods "lithium.jar"))] |}).
Proof.
  assert (@request_accepts Sample.platform "https://cdn/lithium.jar" = true)
    as H1 by reflexivity.
  assert (urlopen_read Sample.remote "https://cdn/lithium.jar" = Some "abc")
    as H2 by reflexivity.
  assert (@size_mismatch None "abc" = false) as H3 by reflexivity.
  assert (Demo.sha1_only !! "sha512" = None) as H4 by (vm_compute; reflexivity).
  assert (Demo.sha1_only !! "sha1" = Some "1:zzz") as H5
    by (vm_compute; reflexivity).
  assert (@sha1_hexdigest Sample.platform "abc" ≠ "1:zzz") as H6
    by (vm_compute; discriminate).
  repeat (split; [assumption|]).
  exact (proj1 (@sha1_fallback Sample.platform Sample.remote _
                  (InMods "lithium.jar") None _ _ _ Sample.world
                  H1 H2 H3 H4 H5) H6).
Defined.

(** X9. Verification is skipped without a known algorithm: expected hashes
    that are absent, empty, or hold neither [sha512] nor [sha1] make the
    fetch behave as one without expected hashes. *)
Theorem unknown_hashes_skip_verification `{Platform} (remote : Remote)
    url d size (h : dict) w :
  h !! "sha512" = None → h !! "sha1" = None →
  download_file remote url d size (Some h) w =
    download_file remote url d size None w.
Proof.
  intros H512 H1. unfold download_file.
  destruct (request_accepts url); [|done].
  destruct (urlopen_read remote url) as [data|]; [|done].
  destruct (size_mismatch size data); [done|].
  unfold hash_mismatch. rewrite H512, H1. by destruct (truthy h).
Qed.

Lemma unknown_hashes_skip_verification_witness :
  Demo.md5_only !! "sha512" = None
  ∧ Demo.md5_only !! "sha1" = None
  ∧ @download_file Sample.platform Sample.remote "https://cdn/lithium.jar"
      (InMods "lithium.jar") None (Some Demo.md5_only) Sample.world =
    @download_file Sample.platform Sample.remote "https://cdn/lithium.jar"
      (InMods "lithium.jar") None None Sample.world.
Proof.
  assert (Demo.md5_only !! "sha512" = None) as H1 by (vm_compute; reflexivity).
  assert (Demo.md5_only !! "sha1" = None) as H2 by (vm_compute; reflexivity).
  split; [exact H1|]. split; [exact H2|].
  exact (@unknown_hashes_skip_verification Sample.platform Sample.remote _ _ _
           _ Sample.world H1 H2).
Defined.

(** X10. A fetch into an existing mods directory is all or nothing.  For a
    filename other than the empty one and [.], the call either raises
    [ValueError] for a rejected URL and leaves the world as it was, or
    returns [False] and leaves the instance directory as it was, or
    returns [True] having stored exactly the retrieved and verified payload
    under that filename, every other entry being what it was.  The
    temporary directory is never touched. *)
Theorem fetch_all_or_nothing `{Platform} (remote : Remote) url f size hashes
    (w : World) (m : gmap string node) r w' :
  inst w !! "mods" = Some (Dir m) → f ≠ "" → f ≠ "." →
  download_file remote url (InMods f) size hashes w = (r, w') →
  tmp w' = tmp w
  ∧ ((r = Raised ValueError ∧ request_accepts url = false ∧ w' = w)
     ∨ (r = Ret false ∧ inst w' = inst w)
     ∨ (r = Ret true
        ∧ ∃ data,
            urlopen_read remote url = Some data
            ∧ size_mismatch size data = false
            ∧ hash_mismatch (InMods f) hashes data = None
            ∧ inst w' = <["mods" := Dir (<[f := File data]> m)]> (inst w))).
Proof.
  intros Hmods Hf1 Hf2. unfold download_file.
  destruct (request_accepts url) eqn:Hreq.
  2:{ intros Hrun. inversion Hrun; subst; clear Hrun. split; [done|]. by left. }
  mrun. destruct (urlopen_read remote url) as [data|].
  2:{ intros Hrun. inversion Hrun; subst; clear Hrun.
      split; [done|]. right. left. by split. }
  destruct (size_mismatch size data) eqn:Hsize.
  { intros Hrun. inversion Hrun; subst; clear Hrun.
    split; [done|]. right. left. by split. }
  destruct (hash_mismatch (InMods f) hashes data) eqn:Hhash.
  { intros Hrun. inversion Hrun; subst; clear Hrun.
    split; [done|]. right. left. by split. }
  unfold write_dest, mkdir_mods. cbn [inst tmp log].
  rewrite bool_decide_eq_false_2 by (intros [?|?]; done). rewrite Hmods.
  destruct (_ || _); cbn [inst tmp log]; intros Hrun;
    inversion Hrun; subst; clear Hrun; cbn [inst tmp]; (split; [done|]).
  - right. left. by split.
  - right. right. split; [done|]. exists data. rewrite Hmods. by split_and!.
Qed.

Lemma fetch_all_or_nothing_witness :
  let run :=
    @download_file Sample.platform Sample.remote "https://cdn/lithium.jar"
      (InMods "lithium.jar") (Some 3) None Sample.world in
  inst Sample.world !! "mods" = Some (Dir Sample.mods)
  ∧ "lithium.jar" ≠ "" ∧ "lithium.jar" ≠ "."
  ∧ run = (Ret true, run.2)
  ∧ tmp run.2 = tmp Sample.world.
Proof.
  intros run.
  assert (inst Sample.world !! "mods" = Some (Dir Sample.mods)) as H1
    by (vm_compute; reflexivity).
  assert ("lithium.jar" ≠ "") as H2 by discriminate.
  assert ("lithium.jar" ≠ ".") as H3 by discriminate.
  assert (run = (Ret true, run.2)) as H4 by (vm_compute; reflexivity).
  repeat (split; [assumption|]).
  exact (proj1 (@fetch_all_or_nothing Sample.platform Sample.remote _ _ _ _
                  Sample.world Sample.mods _ _ H1 H2 H3 H4)).
Defined.

(** ** Installed state *)

Lemma rstrip_idemp (s : string) : Str.rstrip (Str.rstrip s) = Str.rstrip s.
Proof.
  induction s as [|c s IH]; [done|]. cbn [Str.rstrip].
  destruct (Str.rstrip s) as [|c2 r2] eqn:Hr.
  - destruct (Str.is_space c) eqn:Hc; [done|]. cbn [Str.rstrip]. by rewrite Hc.
  - cbn [Str.rstrip]. cbn [Str.rstrip] in IH. by rewrite IH.
Qed.

Lemma lstrip_head (s : string) :
  match Str.lstrip s with
  | EmptyString => True
  | String c _ => Str.is_space c = false
  end.
Proof.
  induction s as [|c s IH]; [done|]. cbn [Str.lstrip].
  by destruct (Str.is_space c) eqn:Hc.
Qed.

Lemma lstrip_rstrip (s : string) :
  match s with
  | EmptyString => True
  | String c _ => Str.is_space c = false
  end →
  Str.lstrip (Str.rstrip s) = Str.rstrip s.
Proof.
  destruct s as [|c s]; [done|]. intros Hc. cbn [Str.rstrip].
  destruct (Str.rstrip s); [rewrite Hc|]; cbn [Str.lstrip]; by rewrite Hc.
Qed.

Lemma strip_idemp (s : string) : Str.strip (Str.strip s) = Str.strip s.
Proof.
  unfold Str.strip. rewrite (lstrip_rstrip _ (lstrip_head s)).
  apply rstrip_idemp.
Qed.

Lemma universal_newlines_no_cr (s : string) :
  Str.has_cr s = false → Str.universal_newlines s = s.
Proof.
  induction s as [|c s IH]; [done|]. cbn [Str.has_cr Str.universal_newlines].
  intros [Hc Hs]%orb_false_elim. rewrite Hc. by rewrite IH.
Qed.

Lemma has_cr_universal_newlines (s : string) :
  Str.has_cr (Str.universal_newlines s) = false.
Proof.
  enough (Str.has_cr (Str.universal_newlines s) = false
          ∧ ∀ c, Str.has_cr (Str.universal_newlines (String c s)) = false)
    as [? _] by done.
  induction s as [|c' s [IH1 IH2]].
  - split; [done|]. intros c. cbn [Str.universal_newlines].
    destruct (Ascii.eqb c "013") eqn:Hc; cbn [Str.has_cr]; [done|].
    by rewrite Hc.
  - split; [apply IH2|]. intros c.
    change (Str.universal_newlines (String c (String c' s)))
      with (if Ascii.eqb c "013"
            then String "010"
                   (if Ascii.eqb c' "010" then Str.universal_newlines s
                    else Str.universal_newlines (String c' s))
            else String c (Str.universal_newlines (String c' s))).
    destruct (Ascii.eqb c "013") eqn:Hc; cbn [Str.has_cr].
    + cbn [Ascii.eqb Bool.eqb andb orb]. by destruct (Ascii.eqb c' "010").
    + by rewrite Hc, IH2.
Qed.

Lemma has_cr_lstrip (s : string) :
  Str.has_cr s = false → Str.has_cr (Str.lstrip s) = false.
Proof.
  induction s as [|c s IH]; [done|]. cbn [Str.lstrip].
  destruct (Str.is_space c); [|done].
  cbn [Str.has_cr]. intros [_ Hs]%orb_false_elim. by apply IH.
Qed.

Lemma has_cr_rstrip (s : string) :
  Str.has_cr s = false → Str.has_cr (Str.rstrip s) = false.
Proof.
  induction s as [|c s IH]; [done|]. cbn [Str.has_cr Str.rstrip].
  intros [Hc Hs]%orb_false_elim. specialize (IH Hs).
  destruct (Str.rstrip s) as [|c2 r2].
  - destruct (Str.is_space c); [done|]. cbn [Str.has_cr]. by rewrite Hc.
  - cbn [Str.has_cr] in *. by rewrite Hc, IH.
Qed.

Lemma has_cr_strip (s : string) :
  Str.has_cr s = false → Str.has_cr (Str.strip s) = false.
Proof. intros Hs. by apply has_cr_rstrip, has_cr_lstrip. Qed.

(** What was read from the marker reads back as itself. *)
Lemma read_stable (s : string) :
  let read := Str.strip (Str.universal_newlines s) in
  Str.strip (Str.universal_newlines read) = read.
Proof.
  intros read. subst read.
  rewrite (universal_newlines_no_cr (Str.strip _))
    by apply has_cr_strip, has_cr_universal_newlines.
  apply strip_idemp.
Qed.

(** X11. Writing and reading the marker.  When the marker path is not a
    directory, [_save_version] succeeds and [get_installed_version] then
    returns the saved id as text mode reads it, with every carriage return
    or carriage return and line feed turned into a line feed, and stripped
    of surrounding whitespace; for an id without carriage return that is
    the stripped id; and what was read reads back as itself.  When the
    marker path is a directory, both calls raise [IsADirectoryError] and
    change nothing. *)
Theorem marker_round_trip (version_id : string) (w : World) :
  ((∀ sub, inst w !! version_file ≠ Some (Dir sub)) →
     ∃ w1, save_version version_id w = (Ret tt, w1)
           ∧ get_installed_version w1
             = (Ret (Some (Str.strip (Str.universal_newlines version_id))), w1)
           ∧ (Str.has_cr version_id = false →
              get_installed_version w1 = (Ret (Some (Str.strip version_id)), w1))
           ∧ (let read := Str.strip (Str.universal_newlines version_id) in
              Str.strip (Str.universal_newlines read) = read)
           ∧ ∀ k, k ≠ version_file → inst w1 !! k = inst w !! k)
  ∧ (∀ sub, inst w !! version_file = Some (Dir sub) →
       save_version version_id w = (Raised IsADirectoryError, w)
       ∧ get_installed_version w = (Raised IsADirectoryError, w)).
Proof.
  split.
  - intros Hfile. unfold save_version, get_installed_version. mrun.
    destruct (inst w !! version_file) as [[text|sub]|] eqn:Hv;
      [|by destruct (Hfile sub)|];
      (eexists; split; [reflexivity|]); cbn [inst];
      rewrite lookup_insert_eq;
      (split_and!;
         [done
         |intros Hcr; by rewrite (universal_newlines_no_cr _ Hcr)
         |apply read_stable|]);
      intros k Hk; by rewrite lookup_insert_ne.
  - intros sub Hv. unfold save_version, get_installed_version. mrun.
    by rewrite Hv.
Qed.

Lemma marker_round_trip_witness :
  let cr := String "013" "" in
  (∀ sub, inst Sample.world !! version_file ≠ Some (Dir sub))
  ∧ ∃ w1, save_version (" v" +:+ cr +:+ "3 ") Sample.world = (Ret tt, w1)
          ∧ get_installed_version w1
            = (Ret (Some ("v" +:+ String "010" "" +:+ "3")), w1).
Proof.
  intros cr.
  assert (∀ sub, inst Sample.world !! version_file ≠ Some (Dir sub)) as Hfile.
  { intros sub. vm_compute. discriminate. }
  split; [exact Hfile|].
  destruct (proj1 (marker_round_trip (" v" +:+ cr +:+ "3 ") Sample.world) Hfile)
    as (w1 & Hsave & Hget & _).
  exists w1. split; [exact Hsave|exact Hget].
Defined.

(** X12. [install] is idempotent.  With the registry answering the same
    latest version, whose id reads back from the marker as itself (it has
    no surrounding whitespace and no carriage return), a second [install]
    after one that returned does nothing but the API request and the
    up-to-date report.  When the id does not read back as itself the
    committed marker never compares equal and [install] syncs again. *)
Theorem install_twice `{Platform} (cfg : Config) (remote : Remote)
    (latest : Version) (rest : list Version) :
  api_versions remote = Some (latest :: rest) →
  (Str.strip (Str.universal_newlines (v_id latest)) = v_id latest →
     ∀ w w1, install cfg remote false w = (Ret tt, w1) →
       install cfg remote false w1 = (Ret tt, reported_up_to_date latest w1))
  ∧ (Str.strip (Str.universal_newlines (v_id latest)) ≠ v_id latest →
     ∀ w1, inst w1 !! version_file = Some (File (v_id latest)) →
       install cfg remote false w1 = full_sync cfg remote latest (requested w1)).
Proof.
  intros Hapi. split.
  - intros Hstrip w w1 Hrun.
    assert (∀ sub, inst w !! version_file ≠ Some (Dir sub)) as Hfile.
    { eapply install_marker_readable; [|exact Hrun]. by rewrite Hapi. }
    assert (installed_of w1 = Some (v_id latest)) as Hinst.
    { rewrite (install_decision cfg remote false w latest rest Hapi Hfile) in Hrun.
      destruct (bool_decide (installed_of w = Some (v_id latest))) eqn:Hc;
        cbn [andb negb] in Hrun.
      - injection Hrun as <-. by apply bool_decide_eq_true in Hc.
      - apply full_sync_returned_marker in Hrun as Hv.
        unfold installed_of. fold version_file. rewrite Hv, Hstrip. done. }
    rewrite (install_decision cfg remote false w1 latest rest Hapi).
    + by rewrite Hinst, bool_decide_eq_true_2.
    + intros sub Hv. unfold installed_of, version_file in *. by rewrite Hv in Hinst.
  - intros Hstrip w1 Hv.
    rewrite (install_decision cfg remote false w1 latest rest Hapi).
    + unfold installed_of. fold version_file. rewrite Hv.
      rewrite bool_decide_eq_false_2; [done|]. intros [= Heq]. done.
    + intros sub. by rewrite Hv.
Qed.

Lemma install_twice_witness :
  let run :=
    @install Sample.platform Sample.cfg Sample.remote false Sample.world in
  api_versions Sample.remote = Some [Sample.latest]
  ∧ Str.strip (Str.universal_newlines (v_id Sample.latest)) = v_id Sample.latest
  ∧ run = (Ret tt, run.2)
  ∧ @install Sample.platform Sample.cfg Sample.remote false run.2
    = (Ret tt, reported_up_to_date Sample.latest run.2).
Proof.
  intros run.
  assert (api_versions Sample.remote = Some [Sample.latest]) as H1 by reflexivity.
  assert (Str.strip (Str.universal_newlines (v_id Sample.latest))
          = v_id Sample.latest) as H2 by reflexivity.
  assert (run = (Ret tt, run.2)) as H3 by (vm_compute; reflexivity).
  repeat (split; [assumption|]).
  exact (proj1 (@install_twice Sample.platform Sample.cfg Sample.remote
                  Sample.latest [] H1) H2 Sample.world run.2 H3).
Defined.

(** X13. [check_versions] only reads.  Every run leaves the instance
    directory and the temporary directory as they were and adds to the log
    at most the API request and the message of its failure; with a
    directory at the marker path it raises before any request is made. *)
Theorem check_versions_reads_only `{Platform} (cfg : Config) (remote : Remote)
    (w : World) r w' :
  check_versions cfg remote w = (r, w') →
  inst w' = inst w ∧ tmp w' = tmp w
  ∧ (∃ l, log w' = log w ++ l
          ∧ Forall (λ e, e = ApiRequest ∨ e = Echo MsgApiFailed
                         ∨ e = Echo MsgNoVersions) l)
  ∧ (∀ sub, inst w !! version_file = Some (Dir sub) →
       r = Raised IsADirectoryError ∧ w' = w).
Proof.
  unfold check_versions, get_latest_version, api_request, get_installed_version.
  mrun. intros Hrun.
  assert (∀ l, Forall (λ e, e = ApiRequest ∨ e = Echo MsgApiFailed
                            ∨ e = Echo MsgNoVersions) l →
               ∃ l', log w ++ l = log w ++ l'
                     ∧ Forall (λ e, e = ApiRequest ∨ e = Echo MsgApiFailed
                                    ∨ e = Echo MsgNoVersions) l') as Hlog
    by eauto.
  destruct (inst w !! version_file) as [[text|sub]|] eqn:Hv;
    cbn [inst tmp log] in Hrun.
  - destruct (api_versions remote) as [[|latest rest]|];
      cbn [inst tmp log] in Hrun; injection Hrun as <- <-; cbn [inst tmp log];
      rewrite <- ?app_assoc; (split_and!; [done|done| |done]);
      apply Hlog; repeat (apply Forall_cons; split; [by eauto|]);
      by apply Forall_nil.
  - injection Hrun as <- <-. split_and!; [done|done| |by eauto].
    exists []. by rewrite app_nil_r.
  - destruct (api_versions remote) as [[|latest rest]|];
      cbn [inst tmp log] in Hrun; injection Hrun as <- <-; cbn [inst tmp log];
      rewrite <- ?app_assoc; (split_and!; [done|done| |done]);
      apply Hlog; repeat (apply Forall_cons; split; [by eauto|]);
      by apply Forall_nil.
Qed.

Lemma check_versions_reads_only_witness :
  let run := @check_versions Sample.cfg Sample.remote Sample.world in
  run = (run.1, run.2) ∧ inst run.2 = inst Sample.world.
Proof.
  intros run.
  assert (run = (run.1, run.2)) as Hrun by apply surjective_pairing.
  split; [exact Hrun|].
  exact (proj1 (@check_versions_reads_only Sample.platform Sample.cfg
                  Sample.remote Sample.world _ _ Hrun)).
Defined.

(** X14. [check_versions] and [install] agree.  With the registry
    answering and a readable or absent marker, the report says "up to
    date" exactly when [install] without force does nothing, and
    otherwise [install] runs the full sync; an absent, empty or
    whitespace-only marker is shown as "Not installed" with the advice to
    run [install], any other version as an available update. *)
Theorem check_agrees_with_install `{Platform} (cfg : Config) (remote : Remote)
    (w : World) (latest : Version) (rest : list Version) :
  api_versions remote = Some (latest :: rest) →
  (∀ sub, inst w !! version_file ≠ Some (Dir sub)) →
  ∃ shown verdict,
    check_versions cfg remote w =
      (Ret [LineModpack (modpack_id cfg); LineInstalled shown;
            LineLatest (v_version_number latest) (v_id latest); verdict],
       requested w)
    ∧ ((verdict = LineUpToDate
        ∧ installed_of w = Some (v_id latest)
        ∧ install cfg remote false w = (Ret tt, reported_up_to_date latest w))
       ∨ (verdict = LineUpdateAvailable
          ∧ (∃ v, installed_of w = Some v ∧ v ≠ "" ∧ v ≠ v_id latest ∧ shown = v)
          ∧ install cfg remote false w = full_sync cfg remote latest (requested w))
       ∨ (verdict = LineRunInstall
          ∧ shown = "Not installed"
          ∧ (installed_of w = None ∨ installed_of w = Some "")
          ∧ installed_of w ≠ Some (v_id latest)
          ∧ install cfg remote false w = full_sync cfg remote latest (requested w))).
Proof.
  intros Hapi Hfile.
  rewrite (install_decision cfg remote false w latest rest Hapi Hfile).
  assert (check_versions cfg remote w =
            (Ret [LineModpack (modpack_id cfg);
                  LineInstalled (installed_or_default (installed_of w));
                  LineLatest (v_version_number latest) (v_id latest);
                  if bool_decide (installed_of w = Some (v_id latest))
                  then LineUpToDate
                  else if truthy_str (installed_of w) then LineUpdateAvailable
                       else LineRunInstall], requested w)) as ->.
  { unfold check_versions, get_latest_version, api_request,
      get_installed_version, installed_of, requested.
    mrun. fold version_file.
    destruct (inst w !! version_file) as [[text|sub]|] eqn:Hv;
      [|destruct (Hfile sub eq_refl)|]; cbn [inst tmp log]; by rewrite Hapi. }
  eexists _, _. split; [reflexivity|].
  destruct (bool_decide (installed_of w = Some (v_id latest))) eqn:Hc;
    cbn [andb negb].
  - left. apply bool_decide_eq_true in Hc. done.
  - apply bool_decide_eq_false in Hc. right.
    destruct (installed_of w) as [v|] eqn:Hi; cbn [truthy_str installed_or_default].
    + destruct (bool_decide (v = "")) eqn:Hv; cbn [negb].
      * apply bool_decide_eq_true in Hv as ->. right. split_and!; eauto.
      * apply bool_decide_eq_false in Hv. left. split_and!; [done| |done].
        exists v. split_and!; [done|done| |done]. congruence.
    + right. split_and!; eauto.
Qed.

Lemma check_agrees_with_install_witness :
  api_versions Sample.remote = Some [Sample.latest]
  ∧ (∀ sub, inst Sample.world !! version_file ≠ Some (Dir sub))
  ∧ ∃ shown verdict,
      @check_versions Sample.cfg Sample.remote Sample.world =
        (Ret [LineModpack "pack"; LineInstalled shown;
              LineLatest "2.0" "v2"; verdict], requested Sample.world).
Proof.
  assert (api_versions Sample.remote = Some [Sample.latest]) as H1 by reflexivity.
  assert (∀ sub, inst Sample.world !! version_file ≠ Some (Dir sub)) as H2.
  { intros sub. vm_compute. discriminate. }
  split; [exact H1|]. split; [exact H2|].
  destruct (@check_agrees_with_install Sample.platform Sample.cfg Sample.remote
              Sample.world Sample.latest [] H1 H2) as (shown & verdict & Hrun & _).
  exists shown, verdict. exact Hrun.
Defined.

(** ** The clean step, continued *)

(** X15. The clean step removes every jar it is not told to keep.  On an
    existing mods directory, a regular [.jar] file that is still there
    after [clean_mods(keep_preserved)] was kept on request: the flag was
    set and its name contains a preserved pattern.  With the flag off no
    regular [.jar] file is left. *)
Theorem clean_removes_other_jars `{Platform} (cfg : Config) (keep : bool)
    (w : World) (m : gmap string node) :
  inst w !! "mods" = Some (Dir m) →
  ∃ w' m',
    clean_mods cfg keep w = (Ret tt, w')
    ∧ inst w' !! "mods" = Some (Dir m')
    ∧ ∀ name data, m' !! name = Some (File data) →
        PurePath.suffix name = ".jar" →
        keep = true ∧ matches_some name (preserved_mods cfg).
Proof.
  intros Hmods.
  destruct (clean_mods_dir cfg keep w m Hmods) as (w' & m' & Hrun & Hinst & _ & Hlk).
  exists w', m'. split_and!; [done|by rewrite Hinst, lookup_insert_eq|].
  intros name data Hm' Hsuffix. rewrite Hlk in Hm'. unfold cleaned in Hm'.
  destruct (m !! name) as [n|]; [|done].
  destruct (removable cfg keep name n) eqn:Hrem; [done|].
  injection Hm' as ->. unfold removable in Hrem. cbn [is_file andb] in Hrem.
  rewrite bool_decide_eq_true_2 in Hrem by done. cbn [andb] in Hrem.
  apply negb_false_iff, andb_true_iff in Hrem as [-> Hpres].
  split; [done|]. by apply is_preserved_matches.
Qed.

Lemma clean_removes_other_jars_witness :
  inst Sample.world !! "mods" = Some (Dir Sample.mods)
  ∧ ∃ w' m',
      @clean_mods Sample.platform Sample.cfg false Sample.world = (Ret tt, w')
      ∧ inst w' !! "mods" = Some (Dir m')
      ∧ ∀ name data, m' !! name = Some (File data) →
          PurePath.suffix name = ".jar" →
          false = true ∧ matches_some name (preserved_mods Sample.cfg).
Proof.
  assert (inst Sample.world !! "mods" = Some (Dir Sample.mods)) as Hmods
    by (vm_compute; reflexivity).
  split; [exact Hmods|].
  exact (@clean_removes_other_jars Sample.platform Sample.cfg false
           Sample.world Sample.mods Hmods).
Defined.

(** X16. Cleaning twice is cleaning once: after a run of [clean_mods], a
    second run with the same flag ends the same way and leaves the
    instance directory as the first run left it. *)
Theorem clean_twice `{Platform} (cfg : Config) (keep : bool) (w : World) r w1 :
  clean_mods cfg keep w = (r, w1) →
  ∃ w2, clean_mods cfg keep w1 = (r, w2) ∧ inst w2 = inst w1.
Proof.
  intros Hrun. destruct (inst w !! "mods") as [[data|m]|] eqn:Hmods.
  - unfold clean_mods in *. mrun in Hrun. mrun. rewrite Hmods in Hrun.
    injection Hrun as <- <-. rewrite Hmods. eauto.
  - destruct (clean_mods_dir cfg keep w m Hmods) as (w1' & m' & Hrun' & Hi & _ & Hlk).
    rewrite Hrun in Hrun'. injection Hrun' as -> <-.
    assert (inst w1 !! "mods" = Some (Dir m')) as Hmods'
      by (by rewrite Hi, lookup_insert_eq).
    destruct (clean_mods_dir cfg keep w1 m' Hmods') as (w2 & m'' & Hrun2 & Hi2 & _ & Hlk2).
    exists w2. split; [done|]. rewrite Hi2.
    assert (m'' = m') as ->.
    { apply map_eq. intros k. rewrite Hlk2, Hlk. unfold cleaned.
      destruct (m !! k) as [n|]; [|done].
      destruct (removable cfg keep k n) eqn:Hrem; [done|]. by rewrite Hrem. }
    by apply insert_id.
  - unfold clean_mods in *. mrun in Hrun. mrun. rewrite Hmods in Hrun.
    injection Hrun as <- <-. rewrite Hmods. eauto.
Qed.

Lemma clean_twice_witness :
  let run := @clean_mods Sample.platform Sample.cfg true Sample.world in
  run = (Ret tt, run.2)
  ∧ ∃ w2, @clean_mods Sample.platform Sample.cfg true run.2 = (Ret tt, w2)
          ∧ inst w2 = inst run.2.
Proof.
  intros run.
  assert (run = (Ret tt, run.2)) as Hrun by (vm_compute; reflexivity).
  split; [exact Hrun|].
  exact (@clean_twice Sample.platform Sample.cfg true Sample.world _ _ Hrun).
Defined.

(** ** The override merge, continued *)

Section OverrideExtras.

Context `{Platform}.
Variable cfg : Config.

(** One entry of an override root, when the step returns. *)
Lemma merge_item_entry name item w w' :
  name ≠ "mods" →
  merge_item (name, item) w = (Ret tt, w') →
  inst w' !! name = merged (inst w !! name) name item.
Proof.
  intros Hname. destruct item as [data|sub].
  - unfold merge_item, copy2_into. rewrite bool_decide_eq_false_2 by done. mrun.
    destruct (inst w !! name) as [[old|old]|] eqn:Ht; cbn [merged].
    + intros [= <-]. cbn [inst]. apply lookup_insert_eq.
    + destruct (old !! name) as [[|]|]; [|done|]; intros [= <-]; cbn [inst];
        apply lookup_insert_eq.
    + intros [= <-]. cbn [inst]. apply lookup_insert_eq.
  - rewrite merge_dir_item by done. cbn [merged].
    destruct (inst w !! name) as [[|old]|]; [done|..]; intros [= <-]; cbn [inst];
      apply lookup_insert_eq.
Qed.

(** One entry of an override root that is not mergeable: the step raises. *)
Lemma merge_item_raises name item w :
  name ≠ "mods" → ¬ mergeable (inst w !! name) name item →
  ∃ e, merge_item (name, item) w = (Raised e, w)
       ∧ (e = NotADirectoryError ∨ e = IsADirectoryError).
Proof.
  intros Hname Hbad. destruct item as [data|sub].
  - unfold merge_item, copy2_into. rewrite bool_decide_eq_false_2 by done. mrun.
    unfold mergeable in Hbad.
    destruct (inst w !! name) as [[old|old]|]; [by destruct Hbad| |by destruct Hbad].
    destruct (old !! name) as [[|]|]; [by destruct Hbad| |by destruct Hbad]. eauto.
  - rewrite merge_dir_item by done. unfold mergeable in Hbad.
    destruct (inst w !! name) as [[|old]|]; [eauto|by destruct Hbad..].
Qed.

Lemma mergeable_dec target name item : Decision (mergeable target name item).
Proof.
  unfold mergeable. destruct item as [data|sub], target as [[?|old]|];
    try (left; exact I); [|right; intros []].
  destruct (old !! name) as [[|]|]; [left; exact I|right; intros []|left; exact I].
Defined.

(** The loop over a listing, entry by entry. *)
Lemma merge_items_entry (l : list (string * node)) :
  NoDup l.*1 →
  ∀ w w', for_each l merge_item w = (Ret tt, w') →
    ∀ name item, (name, item) ∈ l → name ≠ "mods" →
      inst w' !! name = merged (inst w !! name) name item.
Proof.
  induction l as [|[n it] l IH]; intros Hnd w w' Hrun name item Hin Hname.
  - inversion Hin.
  - rewrite fmap_cons in Hnd. apply NoDup_cons in Hnd as [Hfresh Hnd].
    cbn [fst] in Hfresh. cbn [for_each] in Hrun.
    apply bind_inv in Hrun as [([] & w1 & H1 & H2)|[(c & _ & ?)|(e & _ & ?)]];
      [|done..].
    apply elem_of_cons in Hin as [[= <- <-]|Hin].
    + rewrite (merge_items_other _ _ Hfresh _ _ _ H2). by apply merge_item_entry.
    + rewrite (IH Hnd _ _ H2 _ _ Hin Hname). f_equal.
      eapply merge_item_other; [exact H1|]. cbn [fst]. intros ->. apply Hfresh.
      apply list_elem_of_fmap. by exists (n, item).
Qed.

(** The loop over a listing with an entry that is not mergeable raises. *)
Lemma merge_items_raise (l : list (string * node)) :
  NoDup l.*1 →
  ∀ w name item, (name, item) ∈ l → name ≠ "mods" →
    ¬ mergeable (inst w !! name) name item →
    ∃ e w', for_each l merge_item w = (Raised e, w')
            ∧ (e = NotADirectoryError ∨ e = IsADirectoryError).
Proof.
  induction l as [|[n it] l IH]; intros Hnd w name item Hin Hname Hbad.
  - inversion Hin.
  - rewrite fmap_cons in Hnd. apply NoDup_cons in Hnd as [Hfresh Hnd].
    cbn [fst] in Hfresh. cbn [for_each].
    destruct (decide (n = "mods")) as [->|Hn].
    + apply elem_of_cons in Hin as [[= -> _]|Hin]; [done|].
      unfold bind, merge_item at 1. rewrite bool_decide_eq_true_2 by done.
      by eapply IH.
    + destruct (mergeable_dec (inst w !! n) n it) as [Hok|Hbad'].
      * assert (∃ w1, merge_item (n, it) w = (Ret tt, w1)) as [w1 H1].
        { destruct (merge_items_total [(n, it)]) with (w := w) as [w1 H1].
          - repeat constructor. set_solver.
          - intros name' item' Hin' _.
            apply list_elem_of_singleton in Hin' as [= -> ->]. done.
          - cbn [for_each] in H1.
            apply bind_inv in H1 as [([] & w2 & H1 & [= <-])|[(c & _ & ?)|(e & _ & ?)]];
              [eauto|done..]. }
        unfold bind. rewrite H1.
        apply elem_of_cons in Hin as [[= -> ->]|Hin].
        -- destruct (merge_item_raises n it w Hn Hbad) as (e & Hraise & _).
           congruence.
        -- eapply IH; [done|exact Hin|done|].
           rewrite (merge_item_other _ name _ _ _ H1); [done|].
           cbn [fst]. intros ->. apply Hfresh.
           apply list_elem_of_fmap. by exists (n, item).
      * destruct (merge_item_raises n it w Hn Hbad') as (e & Hraise & He).
        exists e, w. unfold bind. by rewrite Hraise.
Qed.

(** The loop over the override mods: the target mods directory stays a
    directory, entries the listing does not name stay, a copied mod lands
    under its name, and the counters advance by the copied and the skipped
    mods. *)
Lemma override_mods_loop_entries (listing : list (string * node)) :
  NoDup listing.*1 →
  ∀ om os w res w' m,
    inst w !! "mods" = Some (Dir m) →
    override_mods_loop cfg listing om os w = (Ret res, w') →
    ∃ m',
      inst w' !! "mods" = Some (Dir m')
      ∧ (∀ k, k ∉ listing.*1 → m' !! k = m !! k)
      ∧ (∀ entry, entry ∈ listing → copied_mod cfg entry →
           m' !! entry.1 = merged (m !! entry.1) entry.1 entry.2)
      ∧ (∀ entry, entry ∈ listing → ¬ copied_mod cfg entry →
           m' !! entry.1 = m !! entry.1)
      ∧ res = ((om + length (filter (copied_mod cfg) listing))%nat,
               (os + length (filter (skipped_mod cfg) listing))%nat).
Proof.
  induction listing as [|[name mod_file] rest IH];
    intros Hnd om os w res w' m Hmods Hrun.
  - cbn [override_mods_loop] in Hrun. injection Hrun as <- <-.
    exists m. split_and!; [done|done|intros e He; inversion He
                          |intros e He; inversion He|].
    cbn. by rewrite !Nat.add_0_r.
  - rewrite fmap_cons in Hnd. apply NoDup_cons in Hnd as [Hfresh Hnd].
    cbn [fst] in Hfresh.
    assert (∀ w1 m1 om1 os1,
              inst w1 !! "mods" = Some (Dir m1) →
              (∀ k, k ≠ name → m1 !! k = m !! k) →
              m1 !! name = (if copied_mod cfg (name, mod_file)
                            then merged (m !! name) name mod_file
                            else m !! name) →
              om1 = (om + (if copied_mod cfg (name, mod_file) then 1 else 0))%nat →
              os1 = (os + (if skipped_mod cfg (name, mod_file) then 1 else 0))%nat →
              override_mods_loop cfg rest om1 os1 w1 = (Ret res, w') →
              ∃ m',
                inst w' !! "mods" = Some (Dir m')
                ∧ (∀ k, k ∉ ((name, mod_file) :: rest).*1 → m' !! k = m !! k)
                ∧ (∀ entry, entry ∈ (name, mod_file) :: rest →
                     copied_mod cfg entry →
                     m' !! entry.1 = merged (m !! entry.1) entry.1 entry.2)
                ∧ (∀ entry, entry ∈ (name, mod_file) :: rest →
                     ¬ copied_mod cfg entry → m' !! entry.1 = m !! entry.1)
                ∧ res = ((om + length (filter (copied_mod cfg)
                                         ((name, mod_file) :: rest)))%nat,
                         (os + length (filter (skipped_mod cfg)
                                         ((name, mod_file) :: rest)))%nat))
      as Hnext.
    { intros w1 m1 om1 os1 Hmods1 Hother Hname -> -> Hrest.
      destruct (IH Hnd _ _ _ _ _ _ Hmods1 Hrest)
        as (m' & Hm' & Hframe & Hcopied & Hkept & ->).
      assert (∀ entry, entry ∈ rest → entry.1 ≠ name) as Hdiff.
      { intros entry Hin Heq. apply Hfresh. rewrite <- Heq.
        apply list_elem_of_fmap. by exists entry. }
      exists m'. split_and!; [done| | | |].
      - intros k Hk. rewrite fmap_cons, not_elem_of_cons in Hk.
        destruct Hk as [Hk1 Hk2]. rewrite Hframe by done. by apply Hother.
      - intros entry Hin Hc. apply elem_of_cons in Hin as [->|Hin].
        + cbn [fst snd]. rewrite Hframe by done. rewrite Hname.
          by destruct (copied_mod cfg (name, mod_file)).
        + rewrite Hcopied by done. by rewrite Hother by (by apply Hdiff).
      - intros entry Hin Hc. apply elem_of_cons in Hin as [->|Hin].
        + cbn [fst snd]. rewrite Hframe by done. rewrite Hname.
          by destruct (copied_mod cfg (name, mod_file)).
        + rewrite Hkept by done. by apply Hother, Hdiff.
      - rewrite !filter_cons.
        destruct (copied_mod cfg (name, mod_file));
          destruct (skipped_mod cfg (name, mod_file));
          repeat case_decide; try done; cbn [length]; f_equal; lia. }
    cbn [override_mods_loop] in Hrun. unfold copied_mod, skipped_mod in Hnext.
    cbn [fst snd] in Hnext.
    destruct mod_file as [data|sub]; cbn [is_file andb negb] in Hnext.
    + destruct (bool_decide (PurePath.suffix name = ".jar")); cbn [andb] in Hnext.
      * destruct (is_client_only cfg name None); cbn [negb] in Hnext.
        -- mrun in Hrun. eapply Hnext; [| | | | |exact Hrun]; cbn [inst];
             [done|done|done|lia|lia].
        -- unfold copy2_to_mods in Hrun. mrun in Hrun. rewrite Hmods in Hrun.
           destruct (copy2_into data name m) as [m1|] eqn:Hc; [|done].
           mrun in Hrun.
           eapply Hnext; [| | | | |exact Hrun]; cbn [inst];
             [apply lookup_insert_eq| | |lia|lia].
           ++ intros k Hk. by eapply copy2_into_other.
           ++ unfold copy2_into in Hc. cbn [merged].
              destruct (m !! name) as [[old|old]|].
              ** injection Hc as <-. apply lookup_insert_eq.
              ** destruct (old !! name) as [[|]|]; [|done|];
                   injection Hc as <-; apply lookup_insert_eq.
              ** injection Hc as <-. apply lookup_insert_eq.
      * eapply Hnext; [| | | | |exact Hrun]; [done|done|done|lia|lia].
    + eapply Hnext; [| | | | |exact Hrun]; [done|done|done|lia|lia].
Qed.

End OverrideExtras.

Section OverridePass.

Context `{Platform}.
Variable cfg : Config.

(** The part of a pass over the override mods: outside [mods] nothing
    changes. *)
Lemma override_mods_part_other (d : gmap string node) om os w r w1 k :
  k ≠ "mods" →
  match d !! "mods" with
  | None => ret (om, os)
  | Some (File _) => raise NotADirectoryError
  | Some (Dir override_mods_dir) =>
      override_mods_loop cfg (iterdir override_mods_dir) om os
  end w = (r, w1) →
  inst w1 !! k = inst w !! k.
Proof.
  intros Hk. destruct (d !! "mods") as [[|mods]|].
  - by intros [= <- <-].
  - intros Hrun. by eapply override_mods_loop_other.
  - by intros [= <- <-].
Qed.

Lemma iterdir_names (d : gmap string node) (k : string) :
  k ∈ (iterdir d).*1 ↔ is_Some (d !! k).
Proof.
  rewrite list_elem_of_fmap. split.
  - intros ([k' n] & -> & Hin). apply iterdir_lookup in Hin. eauto.
  - intros [n Hn]. exists (k, n). split; [done|]. by apply iterdir_lookup.
Qed.

(** A pass that returns ran both of its loops to the end. *)
Lemma merge_root_returned (d : gmap string node) om os w counts w' :
  merge_root cfg (Some (Dir d)) om os w = (Ret counts, w') →
  ∃ w1,
    (∀ k, k ≠ "mods" → inst w1 !! k = inst w !! k)
    ∧ for_each (iterdir d) merge_item w1 = (Ret tt, w').
Proof.
  unfold merge_root. intros Hrun.
  apply bind_inv in Hrun as [(c1 & w1 & H1 & H2)|[(c & _ & ?)|(e & _ & ?)]];
    [|done..].
  apply bind_inv in H2 as [([] & w2 & H2 & H3)|[(c & _ & ?)|(e & _ & ?)]];
    [|done..].
  injection H3 as _ <-. exists w1. split; [|done].
  intros k Hk. by eapply override_mods_part_other.
Qed.

(** What a returning pass leaves under a name of the root. *)
Lemma merge_root_entry (d : gmap string node) om os w counts w' name item :
  merge_root cfg (Some (Dir d)) om os w = (Ret counts, w') →
  d !! name = Some item → name ≠ "mods" →
  inst w' !! name = merged (inst w !! name) name item.
Proof.
  intros Hrun Hd Hname.
  apply merge_root_returned in Hrun as (w1 & Hframe & Hloop).
  rewrite <- (Hframe name Hname).
  eapply merge_items_entry; [apply iterdir_NoDup|done| |done].
  by apply iterdir_lookup.
Qed.

(** What any pass leaves under a name the root does not have. *)
Lemma merge_root_other (d : gmap string node) om os w r w' k :
  merge_root cfg (Some (Dir d)) om os w = (r, w') →
  k ≠ "mods" → d !! k = None → inst w' !! k = inst w !! k.
Proof.
  intros Hrun Hk Hd. unfold merge_root in Hrun.
  assert (k ∉ (iterdir d).*1) as Hfresh.
  { rewrite iterdir_names, Hd. by intros [? ?]. }
  apply bind_inv in Hrun as [(c1 & w1 & H1 & H2)|[(c & H1 & _)|(e & H1 & _)]];
    [|by eapply override_mods_part_other..].
  rewrite <- (override_mods_part_other d om os w _ w1 k Hk H1).
  apply bind_inv in H2 as [([] & w2 & H2 & H3)|[(c & H2 & _)|(e & H2 & _)]];
    [injection H3 as _ <-|..]; by eapply merge_items_other.
Qed.

End OverridePass.

(** X17. What a pass over an override root leaves.  When the pass returns,
    every entry of the root other than [mods] is under its name in the
    instance directory: a directory exactly as the root has it; a file with
    the root's content, in place of the file that was there or none, or
    inside the directory that was there. *)
Theorem override_pass_result `{Platform} (cfg : Config)
    (d : gmap string node) om os (w : World) counts w' :
  merge_root cfg (Some (Dir d)) om os w = (Ret counts, w') →
  ∀ name item, d !! name = Some item → name ≠ "mods" →
    inst w' !! name = merged (inst w !! name) name item.
Proof.
  intros Hrun name item Hd Hname. by eapply merge_root_entry.
Qed.

Lemma override_pass_result_witness :
  let run :=
    @merge_root Sample.platform Sample.cfg (Some (Dir Demo.server_overrides))
      0%nat 0%nat Sample.world in
  run = (Ret (0%nat, 0%nat), run.2)
  ∧ Demo.server_overrides !! "eula.txt" = Some (File "eula=true")
  ∧ "eula.txt" ≠ "mods"
  ∧ inst run.2 !! "eula.txt"
    = merged (inst Sample.world !! "eula.txt") "eula.txt" (File "eula=true").
Proof.
  intros run.
  assert (run = (Ret (0%nat, 0%nat), run.2)) as H1 by (vm_compute; reflexivity).
  assert (Demo.server_overrides !! "eula.txt" = Some (File "eula=true")) as H2
    by (vm_compute; reflexivity).
  assert ("eula.txt" ≠ "mods") as H3 by discriminate.
  repeat (split; [assumption|]).
  exact (@override_pass_result Sample.platform Sample.cfg
           Demo.server_overrides 0%nat 0%nat Sample.world (0%nat, 0%nat) run.2
           H1 "eula.txt" _ H2 H3).
Defined.

(** X18. A pass over an override root touches nothing it does not name.
    However the pass ends, an entry of the instance directory other than
    [mods] that the root does not list is what it was; a root that does
    not exist changes nothing at all. *)
Theorem override_pass_frame `{Platform} (cfg : Config) om os (w : World) :
  merge_root cfg None om os w = (Ret (om, os), w)
  ∧ ∀ d r w', merge_root cfg (Some (Dir d)) om os w = (r, w') →
      ∀ k, k ≠ "mods" → d !! k = None → inst w' !! k = inst w !! k.
Proof.
  split; [done|]. intros d r w' Hrun k Hk Hd. by eapply merge_root_other.
Qed.

Lemma override_pass_frame_witness :
  let run :=
    @merge_root Sample.platform Sample.cfg (Some (Dir Sample.overrides))
      0%nat 0%nat Sample.world in
  version_file ≠ "mods"
  ∧ Sample.overrides !! version_file = None
  ∧ inst run.2 !! version_file = inst Sample.world !! version_file.
Proof.
  intros run.
  assert (version_file ≠ "mods") as H1 by discriminate.
  assert (Sample.overrides !! version_file = None) as H2
    by (vm_compute; reflexivity).
  split; [exact H1|]. split; [exact H2|].
  exact (proj2 (@override_pass_frame Sample.platform Sample.cfg 0%nat 0%nat
                  Sample.world) Sample.overrides run.1 run.2
           (surjective_pairing run) version_file H1 H2).
Defined.

(** X19. When the loop over an override root's entries returns.  It
    returns exactly when every entry other than [mods] is mergeable onto
    the instance directory: no directory meets a regular file, and no file
    meets a directory holding a directory of the file's name.  Otherwise
    it raises [NotADirectoryError] or [IsADirectoryError]. *)
Theorem override_entries_return_iff `{Platform} (d : gmap string node)
    (w : World) :
  ((∃ w', for_each (iterdir d) merge_item w = (Ret tt, w'))
   ↔ ∀ name item, d !! name = Some item → name ≠ "mods" →
       mergeable (inst w !! name) name item)
  ∧ ((∃ name item, d !! name = Some item ∧ name ≠ "mods"
                   ∧ ¬ mergeable (inst w !! name) name item) →
     ∃ e w', for_each (iterdir d) merge_item w = (Raised e, w')
             ∧ (e = NotADirectoryError ∨ e = IsADirectoryError)).
Proof.
  assert ((∃ name item, d !! name = Some item ∧ name ≠ "mods"
                        ∧ ¬ mergeable (inst w !! name) name item) →
          ∃ e w', for_each (iterdir d) merge_item w = (Raised e, w')
                  ∧ (e = NotADirectoryError ∨ e = IsADirectoryError)) as Hraise.
  { intros (name & item & Hd & Hname & Hbad).
    eapply merge_items_raise; [apply iterdir_NoDup| |done|done].
    by apply iterdir_lookup. }
  split; [|done]. split.
  - intros [w' Hrun] name item Hd Hname.
    destruct (mergeable_dec (inst w !! name) name item) as [|Hbad]; [done|].
    destruct Hraise as (e & w1 & Hrun' & _); [eauto 6|congruence].
  - intros Hok. apply merge_items_total; [apply iterdir_NoDup|].
    intros name item Hin. apply Hok. by apply iterdir_lookup.
Qed.

Lemma override_entries_return_iff_witness :
  Demo.overrides_clash !! version_file = Some (Dir ∅)
  ∧ version_file ≠ "mods"
  ∧ ¬ mergeable (inst Sample.world !! version_file) version_file (Dir ∅)
  ∧ ∃ e w', for_each (@iterdir Sample.platform Demo.overrides_clash) merge_item
              Sample.world = (Raised e, w')
            ∧ (e = NotADirectoryError ∨ e = IsADirectoryError).
Proof.
  assert (Demo.overrides_clash !! version_file = Some (Dir ∅)) as H1
    by (vm_compute; reflexivity).
  assert (version_file ≠ "mods") as H2 by discriminate.
  assert (¬ mergeable (inst Sample.world !! version_file) version_file (Dir ∅))
    as H3.
  { replace (inst Sample.world !! version_file) with (Some (File "v1"))
      by (vm_compute; reflexivity). intros []. }
  repeat (split; [assumption|]).
  apply (proj2 (@override_entries_return_iff Sample.platform
                  Demo.overrides_clash Sample.world)).
  exists version_file, (Dir ∅). repeat (split; [assumption|]). assumption.
Defined.

(** X20. What the loop over the override mods leaves.  With the target
    mods directory in place, when the loop returns the target is still a
    directory; every regular [.jar] file of the override mods that the
    client-only decision rejects is in it under its name with the override's
    content; every name the loop does not copy (absent, a directory, another
    suffix, client-only) holds what it held; and the two counters are the
    numbers of copied and of skipped client-only mods. *)
Theorem override_mods_copied `{Platform} (cfg : Config)
    (override_mods_dir m : gmap string node) (w : World) copied skipped w' :
  inst w !! "mods" = Some (Dir m) →
  override_mods_loop cfg (iterdir override_mods_dir) 0%nat 0%nat w
  = (Ret (copied, skipped), w') →
  ∃ m',
    inst w' !! "mods" = Some (Dir m')
    ∧ (∀ name data,
         override_mods_dir !! name = Some (File data) →
         PurePath.suffix name = ".jar" →
         is_client_only cfg name None = false →
         m' !! name = merged (m !! name) name (File data))
    ∧ (∀ name,
         (∀ n, override_mods_dir !! name = Some n → ¬ copied_mod cfg (name, n)) →
         m' !! name = m !! name)
    ∧ copied = length (filter (copied_mod cfg) (iterdir override_mods_dir))
    ∧ skipped = length (filter (skipped_mod cfg) (iterdir override_mods_dir)).
Proof.
  intros Hmods Hrun.
  destruct (override_mods_loop_entries cfg _ (iterdir_NoDup override_mods_dir)
              _ _ _ _ _ _ Hmods Hrun)
    as (m' & Hm' & Hframe & Hcopied & Hkept & Hcounts).
  injection Hcounts as -> ->.
  exists m'. split_and!; [done| | |done..].
  - intros name data Hd Hsuffix Hclient.
    apply (Hcopied (name, File data)); [by apply iterdir_lookup|].
    unfold copied_mod. cbn [fst snd is_file].
    by rewrite bool_decide_eq_true_2, Hclient.
  - intros name Hnot. destruct (override_mods_dir !! name) as [n|] eqn:Hd.
    + apply (Hkept (name, n)); [by apply iterdir_lookup|by apply Hnot].
    + apply Hframe. rewrite iterdir_names, Hd. by intros [? ?].
Qed.

Lemma override_mods_copied_witness :
  let om : gmap string node :=
    {[ "extra.jar" := File "E"; "sodium-client.jar" := File "S" ]} in
  let run :=
    @override_mods_loop Sample.cfg (@iterdir Sample.platform om)
      0%nat 0%nat Sample.world in
  inst Sample.world !! "mods" = Some (Dir Sample.mods)
  ∧ run = (Ret (1%nat, 1%nat), run.2)
  ∧ ∃ m', inst run.2 !! "mods" = Some (Dir m')
          ∧ m' !! "extra.jar" = Some (File "E").
Proof.
  intros om run.
  assert (inst Sample.world !! "mods" = Some (Dir Sample.mods)) as H1
    by (vm_compute; reflexivity).
  assert (run = (Ret (1%nat, 1%nat), run.2)) as H2 by (vm_compute; reflexivity).
  split; [exact H1|]. split; [exact H2|].
  destruct (@override_mods_copied Sample.platform Sample.cfg om Sample.mods
              Sample.world 1%nat 1%nat run.2 H1 H2) as (m' & Hm' & Hcopied & _).
  exists m'. split; [exact Hm'|].
  rewrite (Hcopied "extra.jar" "E");
    [vm_compute; reflexivity|vm_compute; reflexivity..].
Defined.

(** X21. The later override root wins.  After a pass over [overrides]
    and a pass over [server-overrides] that both return: a directory of
    the second root is in the instance directory exactly as the second
    root has it; a file both roots supply, where the instance had no
    directory, has the second root's content; and what only the first root
    supplies is as the first pass left it. *)
Theorem later_root_wins `{Platform} (cfg : Config)
    (d1 d2 : gmap string node) (w : World) c1 w1 c2 w2 :
  merge_root cfg (Some (Dir d1)) 0%nat 0%nat w = (Ret c1, w1) →
  merge_root cfg (Some (Dir d2)) c1.1 c1.2 w1 = (Ret c2, w2) →
  ∀ name, name ≠ "mods" →
    (∀ sub2, d2 !! name = Some (Dir sub2) → inst w2 !! name = Some (Dir sub2))
    ∧ (∀ data1 data2,
         d1 !! name = Some (File data1) → d2 !! name = Some (File data2) →
         (∀ old, inst w !! name ≠ Some (Dir old)) →
         inst w2 !! name = Some (File data2))
    ∧ (∀ item1, d1 !! name = Some item1 → d2 !! name = None →
         inst w2 !! name = merged (inst w !! name) name item1).
Proof.
  intros Hrun1 Hrun2 name Hname. split_and!.
  - intros sub2 Hd2.
    by rewrite (merge_root_entry cfg _ _ _ _ _ _ _ _ Hrun2 Hd2 Hname).
  - intros data1 data2 Hd1 Hd2 Hnodir.
    rewrite (merge_root_entry cfg _ _ _ _ _ _ _ _ Hrun2 Hd2 Hname).
    rewrite (merge_root_entry cfg _ _ _ _ _ _ _ _ Hrun1 Hd1 Hname).
    cbn [merged]. destruct (inst w !! name) as [[|old]|]; [done| |done].
    by destruct (Hnodir old).
  - intros item1 Hd1 Hd2.
    rewrite (merge_root_other cfg _ _ _ _ _ _ _ Hrun2 Hname Hd2).
    by eapply merge_root_entry.
Qed.

Lemma later_root_wins_witness :
  let run1 :=
    @merge_root Sample.platform Sample.cfg (Some (Dir Sample.overrides))
      0%nat 0%nat Sample.world in
  let run2 :=
    @merge_root Sample.platform Sample.cfg (Some (Dir Demo.server_overrides))
      1%nat 1%nat run1.2 in
  run1 = (Ret (1%nat, 1%nat), run1.2)
  ∧ run2 = (Ret (1%nat, 1%nat), run2.2)
  ∧ "config" ≠ "mods"
  ∧ inst run2.2 !! "config" = Some (Dir {[ "server.toml" := File "srv" ]}).
Proof.
  intros run1 run2.
  assert (run1 = (Ret (1%nat, 1%nat), run1.2)) as H1 by (vm_compute; reflexivity).
  assert (run2 = (Ret (1%nat, 1%nat), run2.2)) as H2 by (vm_compute; reflexivity).
  assert ("config" ≠ "mods") as H3 by discriminate.
  repeat (split; [assumption|]).
  apply (proj1 (@later_root_wins Sample.platform Sample.cfg Sample.overrides
                  Demo.server_overrides Sample.world (1%nat, 1%nat) run1.2
                  (1%nat, 1%nat) run2.2 H1 H2 "config" H3)).
  vm_compute; reflexivity.
Defined.


(** ** The download batch, continued *)

Section BatchExtras.

Context `{Platform}.
Variable remote : Remote.

Lemma kept_but_refl names m : kept_but names m m.
Proof. by split_and!. Qed.

Lemma kept_but_cons f names m m1 m2 :
  kept_but [f] m m1 → kept_but names m1 m2 → kept_but (f :: names) m m2.
Proof.
  intros (Ha1 & Hb1 & Hc1) (Ha2 & Hb2 & Hc2). split_and!.
  - intros k Hk. apply not_elem_of_cons in Hk as [Hkf Hk].
    rewrite (Ha2 k Hk). apply Ha1.
    apply not_elem_of_cons. split; [done|apply not_elem_of_nil].
  - intros k sub Hm. by apply Hb2, Hb1.
  - intros k Hm. by apply Hc2, Hc1.
Qed.

(** One write into an existing mods directory. *)
Lemma write_dest_mods f data w m :
  inst w !! "mods" = Some (Dir m) →
  (∀ k, k ≠ "mods" → inst (write_dest (InMods f) data w).2 !! k = inst w !! k)
  ∧ ∃ m', inst (write_dest (InMods f) data w).2 !! "mods" = Some (Dir m')
          ∧ kept_but [f] m m'.
Proof.
  intros Hm. unfold write_dest, mkdir_mods. rewrite Hm.
  destruct (bool_decide (f = "" ∨ f = ".")); cbn [snd].
  { split; [done|]. exists m. split; [done|apply kept_but_refl]. }
  rewrite Hm.
  destruct (bool_decide (f = "..")); cbn [orb snd inst].
  { split; [done|]. exists m. split; [done|apply kept_but_refl]. }
  destruct (m !! f) as [[old|sub]|] eqn:Hf; cbn [snd inst];
    try (split; [done|]; exists m; split; [done|apply kept_but_refl]).
  - split; [intros k Hk; by rewrite lookup_insert_ne|].
    exists (<[f := File data]> m). split; [by rewrite lookup_insert_eq|].
    split_and!.
    + intros k Hk. apply not_elem_of_cons in Hk as [Hk _].
      by rewrite lookup_insert_ne.
    + intros k sub Hk. rewrite lookup_insert_ne; [done|]. intros ->. congruence.
    + intros k Hk. destruct (decide (f = k)) as [->|Hne].
      * rewrite lookup_insert_eq. eauto.
      * by rewrite lookup_insert_ne.
  - split; [intros k Hk; by rewrite lookup_insert_ne|].
    exists (<[f := File data]> m). split; [by rewrite lookup_insert_eq|].
    split_and!.
    + intros k Hk. apply not_elem_of_cons in Hk as [Hk _].
      by rewrite lookup_insert_ne.
    + intros k sub Hk. rewrite lookup_insert_ne; [done|]. intros ->. congruence.
    + intros k Hk. destruct (decide (f = k)) as [->|Hne].
      * rewrite lookup_insert_eq. eauto.
      * by rewrite lookup_insert_ne.
Qed.

Lemma download_file_mods url f size hashes w r w' m :
  inst w !! "mods" = Some (Dir m) →
  download_file remote url (InMods f) size hashes w = (r, w') →
  (∀ k, k ≠ "mods" → inst w' !! k = inst w !! k)
  ∧ ∃ m', inst w' !! "mods" = Some (Dir m') ∧ kept_but [f] m m'.
Proof.
  intros Hm Hrun.
  apply download_file_inst in Hrun as [Hi|[data Hi]]; [| |exact I]; rewrite Hi.
  - split; [done|]. exists m. split; [done|apply kept_but_refl].
  - by apply write_dest_mods.
Qed.

Lemma run_pool_mods (tasks : list Task) :
  ∀ w m futures w1,
    inst w !! "mods" = Some (Dir m) →
    run_pool remote tasks w = (futures, w1) →
    (∀ k, k ≠ "mods" → inst w1 !! k = inst w !! k)
    ∧ ∃ m', inst w1 !! "mods" = Some (Dir m')
            ∧ kept_but (t_filename <$> tasks) m m'.
Proof.
  induction tasks as [|t rest IH]; intros w m futures w1 Hm Hrun;
    cbn [run_pool] in Hrun.
  - injection Hrun as <- <-. split; [done|].
    exists m. split; [done|apply kept_but_refl].
  - destruct (download_file remote _ _ _ _ w) as [r wt] eqn:Hdl.
    destruct (run_pool remote rest wt) as [futs wr] eqn:Hrest.
    injection Hrun as <- <-.
    destruct (download_file_mods _ _ _ _ _ _ _ _ Hm Hdl) as (Ho1 & m1 & Hm1 & Hk1).
    destruct (IH _ _ _ _ Hm1 Hrest) as (Ho2 & m2 & Hm2 & Hk2).
    split; [intros k Hk; by rewrite Ho2, Ho1|].
    exists m2. split; [done|]. rewrite fmap_cons. by eapply kept_but_cons.
Qed.

End BatchExtras.

(** X22. The download batch writes only what it was asked for.  With the
    mods directory in place, however the batch ends: the rest of the
    instance directory is what it was; the mods directory is still a
    directory; an entry under a name no queued task carries holds what it
    held; a directory inside it is the same directory; and no entry is
    gone. *)
Theorem downloads_touch_only_queued `{Platform} (remote : Remote)
    (queue : list Task) (m : gmap string node) (w : World) r w' :
  inst w !! "mods" = Some (Dir m) →
  download_batch remote queue w = (r, w') →
  (∀ k, k ≠ "mods" → inst w' !! k = inst w !! k)
  ∧ ∃ m', inst w' !! "mods" = Some (Dir m')
          ∧ (∀ k, k ∉ t_filename <$> queue → m' !! k = m !! k)
          ∧ (∀ k sub, m !! k = Some (Dir sub) → m' !! k = Some (Dir sub))
          ∧ (∀ k, is_Some (m !! k) → is_Some (m' !! k)).
Proof.
  intros Hm Hrun. unfold download_batch in Hrun.
  destruct (run_pool remote (as_completed queue) w) as [futs w1] eqn:Hpool.
  apply collect_inst in Hrun. rewrite Hrun.
  destruct (run_pool_mods remote _ _ _ _ _ Hm Hpool)
    as (Hother & m' & Hm' & Hnames & Hdirs & Hsome).
  split; [done|]. exists m'. split_and!; [done| |done..].
  intros k Hk. apply Hnames. by rewrite (as_completed_perm queue).
Qed.

Lemma downloads_touch_only_queued_witness :
  let queue := [Sample.good_task; Sample.bad_task] in
  let run := @download_batch Sample.platform Sample.remote queue Sample.world in
  inst Sample.world !! "mods" = Some (Dir Sample.mods)
  ∧ ∃ m', inst run.2 !! "mods" = Some (Dir m')
          ∧ m' !! "lithium.jar" = Some (File "abc")
          ∧ (∀ k, k ∉ t_filename <$> queue → m' !! k = Sample.mods !! k).
Proof.
  intros queue run.
  assert (inst Sample.world !! "mods" = Some (Dir Sample.mods)) as Hm
    by (vm_compute; reflexivity).
  split; [exact Hm|].
  destruct (@downloads_touch_only_queued Sample.platform Sample.remote queue
              Sample.mods Sample.world run.1 run.2 Hm (surjective_pairing run))
    as (_ & m' & Hm' & Hnames & _).
  exists m'. split; [exact Hm'|]. split; [|exact Hnames].
  assert (inst run.2 !! "mods"
          = Some (Dir (<["lithium.jar" := File "abc"]> Sample.mods))) as Hrun
    by (vm_compute; reflexivity).
  rewrite Hrun in Hm'. injection Hm' as <-. vm_compute; reflexivity.
Defined.

(** ** Fatal exits *)

Section ExitExtras.

Context `{Platform}.
Variable cfg : Config.
Variable remote : Remote.

(** The block that fetches, extracts and installs the archive exits
    exactly when the archive cannot be used. *)
Lemma install_archive_exit latest f w r w' :
  plain_name (vf_filename f) = true →
  install_archive cfg remote latest f w = (r, w') →
  (∃ c, r = SysExit c) ↔ archive_unusable remote f.
Proof.
  intros Hplain.
  unfold install_archive, download_file, archive_unusable, extract.
  rewrite Hplain. destruct (request_accepts (vf_url f)).
  2:{ mrun. intros [= <- <-]. split; [by intros [c ?]|by intros [? _]]. }
  mrun. destruct (urlopen_read remote (vf_url f)) as [data|].
  2:{ mrun. intros [= <- <-]. split; [done|eauto]. }
  cbn [size_mismatch hash_mismatch write_dest]. rewrite Hplain.
  mrun. cbn [negb inst tmp log].
  rewrite lookup_insert_eq. destruct (extractall data) as [tree|].
  2:{ intros [= <- <-]. split; [by intros [c ?]|by intros [_ (? & ? & _)]]. }
  destruct (tree !! "modrinth.index.json") as [[text|sub]|] eqn:Hindex.
  - assert (¬ ∃ tree0, Some tree = Some tree0
                        ∧ tree0 !! "modrinth.index.json" = None) as Hno.
    { intros (tree0 & [= <-] & Hnone). congruence. }
    destruct (json_load text) as [index|].
    + intros Hrun. apply (sync_run cfg remote) in Hrun as (_ & l & _ & Hpost).
      split; [|by intros [_ Hx]].
      intros [c ->]. destruct Hpost.
    + intros [= <- <-]. split; [by intros [c ?]|by intros [_ Hx]].
  - intros [= <- <-]. split; [by intros [c ?]|].
    intros [_ (tree0 & [= <-] & Hnone)]. congruence.
  - intros [= <- <-]. split; [eauto|]. intros _. eauto.
Qed.

Lemma full_sync_exit latest w r w' :
  (∀ f, List.find (fun f => Str.endswith (vf_filename f) ".mrpack")
          (v_files latest) = Some f → plain_name (vf_filename f) = true) →
  full_sync cfg remote latest w = (r, w') →
  (∃ c, r = SysExit c)
  ↔ match List.find (fun f => Str.endswith (vf_filename f) ".mrpack")
            (v_files latest) with
    | None => True
    | Some f => archive_unusable remote f
    end.
Proof.
  intros Hplain. unfold full_sync. mrun.
  destruct (List.find _ (v_files latest)) as [f|].
  - specialize (Hplain f eq_refl). unfold with_tmpdir. cbn [inst log].
    match goal with |- context [install_archive _ _ _ _ ?w0] => set (w0' := w0) end.
    destruct (install_archive cfg remote latest f w0') as [r1 w1] eqn:Hrun.
    intros [= <- <-]. by eapply install_archive_exit.
  - intros [= <- <-]. split; eauto.
Qed.

End ExitExtras.

(** X23. When [install] gives up.  With the archive written under a plain
    file name, so that the write into the fresh temporary directory
    succeeds, a run of [install] leaves through [sys.exit] exactly when the
    registry gave no version list or an empty one, or, the marker being
    readable and the pack not up to date (or the update forced), the latest
    version has no [.mrpack] file, the archive could not be fetched, or it
    has no [modrinth.index.json]; the status is then 1. *)
Theorem install_exit_iff `{Platform} (cfg : Config) (remote : Remote)
    (force : bool) (w : World) r w' :
  plain_archive remote →
  install cfg remote force w = (r, w') →
  ((∃ c, r = SysExit c) ↔ gives_up remote force w)
  ∧ (∀ c, r = SysExit c → c = 1).
Proof.
  intros Hplain Hrun. split.
  2:{ intros c ->. apply install_run in Hrun as (_ & l & _ & Hshape); [|done].
      by destruct Hshape. }
  unfold gives_up. fold version_file.
  destruct (api_versions remote) as [[|latest rest]|] eqn:Hapi.
  - unfold install, get_latest_version, api_request in Hrun. mrun in Hrun.
    rewrite Hapi in Hrun. injection Hrun as <- <-. split; eauto.
  - destruct (inst w !! version_file) as [[text|sub]|] eqn:Hv.
    + rewrite (install_decision cfg remote force w latest rest Hapi) in Hrun
        by (intros sub; congruence).
      destruct (bool_decide _ && negb force) eqn:Hdec.
      * injection Hrun as <- <-. apply andb_prop in Hdec as [Hi Hf].
        apply bool_decide_eq_true in Hi. apply negb_true_iff in Hf.
        split; [by intros [c ?]|]. intros (_ & Hno & _). by destruct Hno.
      * apply full_sync_exit in Hrun; [|intros f Hf; by eapply Hplain].
        rewrite Hrun. split; [|by intros (_ & _ & ?)].
        intros Hfind. split_and!; [by intros sub|..|done].
        intros [Hi ->]. by rewrite bool_decide_eq_true_2 in Hdec.
    + unfold install, get_latest_version, api_request, get_installed_version in Hrun.
      mrun in Hrun. rewrite Hapi in Hrun. cbn [inst tmp log] in Hrun.
      rewrite Hv in Hrun. injection Hrun as <- <-.
      split; [by intros [c ?]|]. intros (Hno & _). by destruct (Hno sub).
    + rewrite (install_decision cfg remote force w latest rest Hapi) in Hrun
        by (intros sub; congruence).
      destruct (bool_decide _ && negb force) eqn:Hdec.
      * injection Hrun as <- <-. apply andb_prop in Hdec as [Hi Hf].
        apply bool_decide_eq_true in Hi. apply negb_true_iff in Hf.
        split; [by intros [c ?]|]. intros (_ & Hno & _). by destruct Hno.
      * apply full_sync_exit in Hrun; [|intros f Hf; by eapply Hplain].
        rewrite Hrun. split; [|by intros (_ & _ & ?)].
        intros Hfind. split_and!; [by intros sub|..|done].
        intros [Hi ->]. by rewrite bool_decide_eq_true_2 in Hdec.
  - unfold install, get_latest_version, api_request in Hrun. mrun in Hrun.
    rewrite Hapi in Hrun. injection Hrun as <- <-. split; eauto.
Qed.

Lemma install_exit_iff_witness :
  let remote :=
    {| api_versions := Some [Sample.latest]; urlopen_read := λ _, None |} in
  let run := @install Sample.platform Sample.cfg remote false Sample.world in
  plain_archive remote ∧ run = (run.1, run.2) ∧ ∃ c, run.1 = SysExit c.
Proof.
  intros remote run.
  assert (run = (run.1, run.2)) as Hrun by apply surjective_pairing.
  assert (plain_archive remote) as Hplain.
  { intros latest rest f Hapi Hfind. vm_compute in Hapi.
    injection Hapi as <- <-. vm_compute in Hfind. injection Hfind as <-.
    reflexivity. }
  split; [exact Hplain|]. split; [exact Hrun|].
  apply (proj2 (proj1 (@install_exit_iff Sample.platform Sample.cfg remote false
                         Sample.world run.1 run.2 Hplain Hrun))).
  unfold gives_up. cbn [api_versions remote]. split_and!.
  - intros sub. vm_compute. discriminate.
  - intros [Hi _]. vm_compute in Hi. discriminate.
  - cbn. split; [reflexivity|exact I].
Defined.

(** ** What an update keeps *)

Section KeepExtras.

Context `{Platform}.
Variable cfg : Config.
Variable remote : Remote.

Lemma mods_entry_some w k n :
  mods_entry w k = Some n →
  ∃ m, inst w !! "mods" = Some (Dir m) ∧ m !! k = Some n.
Proof.
  unfold mods_entry. destruct (inst w !! "mods") as [[|m]|]; [done| |done].
  eauto.
Qed.

Lemma mods_entry_same_inst w w' k :
  inst w' !! "mods" = inst w !! "mods" → mods_entry w' k = mods_entry w k.
Proof. unfold mods_entry. by intros ->. Qed.

Lemma ensure_mods_dir_entry k w r w' :
  ensure_mods_dir w = (r, w') → mods_entry w' k = mods_entry w k.
Proof.
  unfold ensure_mods_dir, mkdir_mods, mods_entry. mrun.
  destruct (inst w !! "mods") as [[data|m]|] eqn:Hm; intros [= <- <-];
    cbn [inst]; rewrite ?Hm, ?lookup_insert_eq, ?lookup_empty; done.
Qed.

Lemma clean_mods_entry k n w r w' :
  mods_entry w k = Some n →
  removable cfg true k n = false →
  clean_mods cfg true w = (r, w') →
  mods_entry w' k = Some n.
Proof.
  intros Hk Hrem Hrun. apply mods_entry_some in Hk as (m & Hm & Hk).
  destruct (clean_mods_dir cfg true w m Hm) as (w1 & m' & Hrun' & Hi & _ & Hm').
  rewrite Hrun' in Hrun. injection Hrun as _ <-.
  unfold mods_entry. rewrite Hi, lookup_insert_eq, Hm', Hk. cbn [cleaned].
  by rewrite Hrem.
Qed.

Lemma process_index_queue index w q sc so w' :
  process_index cfg index [] 0%nat 0%nat w = (Ret (q, sc, so), w') →
  q = omap task_of (filter (wanted_entry cfg) index).
Proof.
  intros Hrun. pose proof (process_index_returned cfg _ _ _ _ _ _ _ Hrun) as Hall.
  destruct (process_index_summary cfg index [] 0%nat 0%nat w) as [Hret _].
  destruct (Hret Hall) as [w'' Heq]. rewrite Heq in Hrun.
  by injection Hrun as <- _ _ _.
Qed.

Lemma task_names (l : list FileEntry) k :
  k ∈ t_filename <$> omap task_of l →
  k ∈ (λ e, PurePath.name (fe_path e)) <$> l.
Proof.
  intros (t & -> & Ht)%list_elem_of_fmap.
  apply list_elem_of_omap in Ht as (e & He & Ht).
  apply list_elem_of_fmap. exists e. split; [|done].
  unfold task_of in Ht. destruct (fe_downloads e); [done|].
  by injection Ht as <-.
Qed.

Lemma download_batch_entry queue k n w r w' :
  mods_entry w k = Some n →
  k ∉ t_filename <$> queue →
  download_batch remote queue w = (r, w') →
  mods_entry w' k = Some n.
Proof.
  intros Hk Hnot Hrun. apply mods_entry_some in Hk as (m & Hm & Hk).
  unfold download_batch in Hrun.
  destruct (run_pool remote (as_completed queue) w) as [futs w1] eqn:Hpool.
  apply collect_inst in Hrun.
  destruct (run_pool_mods remote _ _ _ _ _ Hm Hpool)
    as (_ & m' & Hm' & Hnames & _).
  unfold mods_entry. rewrite Hrun, Hm', Hnames; [done|].
  by rewrite (as_completed_perm queue).
Qed.

Lemma override_mods_loop_same (listing : list (string * node)) k :
  (∀ data, (k, File data) ∈ listing → PurePath.suffix k = ".jar" →
     is_client_only cfg k None = true) →
  ∀ om os w r w',
    override_mods_loop cfg listing om os w = (r, w') →
    mods_entry w' k = mods_entry w k.
Proof.
  induction listing as [|[name [data|sub]] rest IH]; intros Hno om os w r w';
    cbn [override_mods_loop].
  - by intros [= <- <-].
  - assert (∀ data0, (k, File data0) ∈ rest → PurePath.suffix k = ".jar" →
              is_client_only cfg k None = true) as Hrest.
    { intros data0 Hin. apply (Hno data0). by right. }
    destruct (bool_decide (PurePath.suffix name = ".jar")) eqn:Hjar;
      [|by apply IH].
    apply bool_decide_eq_true in Hjar.
    destruct (is_client_only cfg name None) eqn:Hclient.
    + mrun. intros Hrun. by apply (IH Hrest) in Hrun.
    + assert (k ≠ name) as Hne.
      { intros ->. rewrite (Hno data) in Hclient; [done|by left|done]. }
      unfold copy2_to_mods. mrun.
      destruct (inst w !! "mods") as [[|m]|] eqn:Hm;
        [by intros [= <- <-]| |by intros [= <- <-]].
      destruct (copy2_into data name m) as [m'|] eqn:Hc; [|by intros [= <- <-]].
      intros Hrun. apply (IH Hrest) in Hrun. rewrite Hrun.
      unfold mods_entry. cbn [inst]. rewrite lookup_insert_eq, Hm.
      by eapply copy2_into_other.
  - apply IH. intros data0 Hin. apply (Hno data0). by right.
Qed.

Lemma merge_items_mods (l : list (string * node)) :
  ∀ w r w', for_each l merge_item w = (r, w') →
    inst w' !! "mods" = inst w !! "mods".
Proof.
  induction l as [|entry l IH]; intros w r w'; cbn [for_each].
  - by intros [= <- <-].
  - intros Hrun.
    apply bind_inv in Hrun as [(a & w1 & H1 & H2)|[(c & H1 & _)|(e & H1 & _)]].
    + rewrite (IH _ _ _ H2). by apply merge_item_mods in H1 as [? _].
    + by apply merge_item_mods in H1 as [? _].
    + by apply merge_item_mods in H1 as [? _].
Qed.

Lemma merge_root_same src om os k w r w' :
  ¬ override_copies cfg src k →
  merge_root cfg src om os w = (r, w') →
  mods_entry w' k = mods_entry w k.
Proof.
  intros Hno. unfold merge_root.
  destruct src as [[data|d]|]; [by intros [= <- <-]| |by intros [= <- <-]].
  intros Hrun.
  assert (∀ w1 r1 w2,
            match d !! "mods" with
            | None => ret (om, os)
            | Some (File _) => raise NotADirectoryError
            | Some (Dir override_mods_dir) =>
                override_mods_loop cfg (iterdir override_mods_dir) om os
            end w1 = (r1, w2) → mods_entry w2 k = mods_entry w1 k) as Hmods.
  { intros w1 r1 w2. destruct (d !! "mods") as [[|om_dir]|] eqn:Hd;
      [by intros [= <- <-]| |by intros [= <- <-]].
    apply override_mods_loop_same. intros data Hin Hjar.
    destruct (is_client_only cfg k None) eqn:Hclient; [done|].
    destruct Hno. exists d, om_dir, data. split_and!; [done..| |done|done].
    by apply iterdir_lookup. }
  apply bind_inv in Hrun as [(c1 & w1 & H1 & H2)|[(c & H1 & _)|(e & H1 & _)]];
    [|by eapply Hmods..].
  rewrite <- (Hmods _ _ _ H1). apply mods_entry_same_inst.
  apply bind_inv in H2 as [([] & w2 & H2 & H3)|[(c & H2 & _)|(e & H2 & _)]];
    [injection H3 as _ <-|..]; by eapply merge_items_mods.
Qed.

Lemma commit_entry version_id (m : message) k w r w' :
  (save_version version_id ;; print m) w = (r, w') →
  mods_entry w' k = mods_entry w k.
Proof.
  intros Hrun. apply commit_run in Hrun as [[_ ->]|(_ & Hi & _)]; [done|].
  apply mods_entry_same_inst. rewrite Hi. by rewrite lookup_insert_ne.
Qed.

(** The part of [install] after the index is parsed keeps an entry of the
    mods directory that no step names. *)
Lemma sync_keeps version_id version_num extract_dir index k n w r w' :
  sync cfg remote version_id version_num extract_dir index w = (r, w') →
  mods_entry w k = Some n →
  removable cfg true k n = false →
  k ∉ manifest_names cfg index →
  ¬ override_copies cfg (extract_dir !! "overrides") k →
  ¬ override_copies cfg (extract_dir !! "server-overrides") k →
  mods_entry w' k = Some n.
Proof.
  intros Hrun Hk Hrem Hnames Ho1 Ho2. unfold sync in Hrun.
  apply bind_inv in Hrun as [([] & w1 & H1 & Hrun)|[(c & H1 & _)|(e & H1 & _)]];
    apply (ensure_mods_dir_entry k) in H1; rewrite <- H1 in Hk; [|done..].
  clear H1.
  apply bind_inv in Hrun as [([] & w2 & H2 & Hrun)|[(c & H2 & _)|(e & H2 & _)]];
    apply (clean_mods_entry k n _ _ _ Hk Hrem) in H2; [|done..].
  clear Hk.
  assert (∀ q0 sc0 so0 r3 w3,
            process_index cfg index q0 sc0 so0 w2 = (r3, w3) →
            mods_entry w3 k = Some n) as Hidx.
  { intros q0 sc0 so0 r3 w3 H3.
    apply process_index_run in H3 as (Hi3 & _ & _).
    rewrite <- H2. apply mods_entry_same_inst. by rewrite Hi3. }
  apply bind_inv in Hrun
    as [([[q sc] so] & w3 & H3 & Hrun)|[(c & H3 & _)|(e & H3 & _)]];
    pose proof (Hidx _ _ _ _ _ H3) as Hk3; [|done..].
  apply process_index_queue in H3 as ->.
  assert (k ∉ t_filename <$> omap task_of (filter (wanted_entry cfg) index))
    as Hq.
  { intros Hin. apply Hnames. by apply task_names. }
  apply bind_inv in Hrun
    as [([d f] & w4 & H4 & Hrun)|[(c & H4 & _)|(e & H4 & _)]];
    apply (download_batch_entry _ k n _ _ _ Hk3 Hq) in H4; [|done..].
  apply bind_inv in Hrun
    as [([om1 os1] & w5 & H5 & Hrun)|[(c & H5 & _)|(e & H5 & _)]];
    apply (merge_root_same _ _ _ k _ _ _ Ho1) in H5; rewrite H4 in H5;
    [|done..].
  apply bind_inv in Hrun
    as [([om2 os2] & w6 & H6 & Hrun)|[(c & H6 & _)|(e & H6 & _)]];
    apply (merge_root_same _ _ _ k _ _ _ Ho2) in H6; rewrite H5 in H6;
    [|done..].
  apply (commit_entry _ _ k) in Hrun. by rewrite Hrun.
Qed.

End KeepExtras.

(** X24. What an update keeps.  When the registry names the archive by a
    plain file name, so that it is written inside the temporary directory,
    an entry of the mods directory that the clean step does not remove
    (anything but a regular [.jar] file, or one whose name matches a
    preserved pattern), whose name is not the filename of a manifest entry
    the pack queues and not the name of an override mod the pack copies, is
    after [install] what it was before, however the run ends. *)
Theorem install_keeps_unnamed `{Platform} (cfg : Config) (remote : Remote)
    (force : bool) (w : World) r w' (k : string) (n : node) :
  plain_archive remote →
  install cfg remote force w = (r, w') →
  mods_entry w k = Some n →
  removable cfg true k n = false →
  (∀ tree index, served_pack remote = Some (tree, index) →
     (k ∉ manifest_names cfg index)
     ∧ ¬ override_copies cfg (tree !! "overrides") k
     ∧ ¬ override_copies cfg (tree !! "server-overrides") k) →
  mods_entry w' k = Some n.
Proof.
  intros Hplain Hrun Hk Hrem Hpack.
  apply install_reaches in Hrun
    as [Hi|(latest & tree & index & w0 & w1 & Hserved & Hi0 & Hsync & Hi1)];
    [| |done].
  - rewrite <- Hk. apply mods_entry_same_inst. by rewrite Hi.
  - destruct (Hpack tree index Hserved) as (Hnames & Ho1 & Ho2).
    rewrite (mods_entry_same_inst w1 w' k); [|by rewrite Hi1].
    eapply (sync_keeps cfg remote); [exact Hsync| |done..].
    rewrite <- Hk. apply mods_entry_same_inst. by rewrite Hi0.
Qed.

Lemma install_keeps_unnamed_witness :
  let run :=
    @install Sample.platform Sample.cfg Sample.remote false Sample.world in
  plain_archive Sample.remote
  ∧ mods_entry Sample.world "notes.txt" = Some (File "N")
  ∧ removable Sample.cfg true "notes.txt" (File "N") = false
  ∧ mods_entry run.2 "notes.txt" = Some (File "N").
Proof.
  intros run.
  assert (mods_entry Sample.world "notes.txt" = Some (File "N")) as Hk
    by (vm_compute; reflexivity).
  assert (removable Sample.cfg true "notes.txt" (File "N") = false) as Hrem
    by (vm_compute; reflexivity).
  split; [exact sample_archive_plain|]. split; [exact Hk|]. split; [exact Hrem|].
  apply (@install_keeps_unnamed Sample.platform Sample.cfg Sample.remote false
           Sample.world run.1 run.2 "notes.txt" (File "N")
           sample_archive_plain (surjective_pairing run) Hk Hrem).
  intros tree index Hserved.
  assert (@served_pack Sample.platform Sample.remote
          = Some (Sample.tree, Sample.index)) as Hpack
    by (vm_compute; reflexivity).
  rewrite Hpack in Hserved. injection Hserved as <- <-.
  assert (manifest_names Sample.cfg Sample.index = ["lithium.jar"; "bad.jar"])
    as Hnames by (vm_compute; reflexivity).
  rewrite Hnames. split_and!.
  - intros Hin. apply elem_of_cons in Hin as [Hin|Hin]; [discriminate|].
    apply elem_of_cons in Hin as [Hin|Hin]; [discriminate|].
    by apply elem_of_nil in Hin.
  - intros (d & om & data & Hd & Hm & Hfile & _).
    assert (Sample.tree !! "overrides" = Some (Dir Sample.overrides)) as Ho
      by (vm_compute; reflexivity).
    rewrite Ho in Hd. injection Hd as <-.
    assert (Sample.overrides !! "mods"
            = Some (Dir {[ "extra.jar" := File "E";
                           "sodium-client.jar" := File "S" ]})) as Hom
      by (vm_compute; reflexivity).
    rewrite Hom in Hm. injection Hm as <-.
    vm_compute in Hfile. discriminate.
  - intros (d & om & data & Hd & _).
    vm_compute in Hd. discriminate.
Defined.
